(** * Flowing: the autonomous controller (examples/autonomous_controller.py)

    A shallow embedding of [Task], [AgentAssignment], [Economy] and
    [AutonomousController].  Python floats are modelled as exact rationals
    ([Q]); [round(x, 2)] is round-half-even of [x * 100] on [Q].  The
    ambient effects of the source (the wall clock [datetime.now()], the
    module-level [random] generator and [requests.post]) are the
    operations of an abstract world [W] (class [Env]); Python exceptions
    are the [inl] results of the state monad [M].  Assignment objects,
    which are shared between the lists returned by [assign] / [execute]
    and [assignment_history], live in an object heap and are passed by
    reference. Console output is kept only for [assign] and
    [run_multiple_cycles]. *)

From Stdlib Require Import QArith Qround Lqa ZArith Lia Ascii.
From stdpp Require Import base list gmap strings pretty.

Open Scope Q_scope.
Set Warnings "-register-all".

(** ** Values *)

(** The JSON values the controller builds or receives. *)
Inductive json :=
| JNull
| JBool (b : bool)
| JNum (q : Q)
| JStr (s : string)
| JObj (kvs : list (string * json)).

(** The exceptions that can surface; [requests.exceptions.ConnectTimeout]
    is a subclass of [Timeout] and is caught by the first handler, so it is
    represented by [Timeout]. *)
Inductive PyExc :=
| Timeout (msg : string)
| ConnectionError (msg : string)
| HTTPError (msg : string)
| JSONDecodeError (msg : string)
| KeyError (key : string)
| ZeroDivisionError
| IndexError.

(** [str(e)] *)
Definition exc_str (e : PyExc) : string :=
  match e with
  | Timeout m | ConnectionError m | HTTPError m | JSONDecodeError m => m
  | KeyError k => "'" +:+ k +:+ "'"
  | ZeroDivisionError => "division by zero"
  | IndexError => "list index out of range"
  end.

(** A [requests.Response]: status code, reason phrase, the url and the body
    as [response.json()] parses it ([inr msg] when it is not JSON). *)
Record Response := {
  status_code : Z;
  resp_reason : string;
  resp_url : string;
  resp_body : json + string
}.

Definition Timestamp := Z.

(** ** Data model *)

Record Task := {
  task_id : string;
  description : string;
  complexity : Q;
  reward : Q;
  created_at : Timestamp;
  status : string
}.

Record AgentAssignment := {
  agent_id : string;
  agent_url : string;
  task : Task;
  assigned_at : Timestamp;
  completed_at : option Timestamp;
  result : option json;
  success : bool
}.

Inductive TxType := TxInitialization | TxReward | TxPenalty.

#[global] Instance TxType_eq_dec : EqDecision TxType.
Proof. solve_decision. Defined.

(** A [transaction_history] entry; the initialization entry has no
    ["reason"] key. *)
Record Transaction := {
  tx_timestamp : Timestamp;
  tx_type : TxType;
  tx_agent_id : string;
  tx_amount : Q;
  tx_reason : option string
}.

Record Economy := {
  agent_balances : gmap string Q;
  transaction_history : list Transaction
}.

(** [Economy()] *)
Definition Economy_new : Economy :=
  {| agent_balances := ∅; transaction_history := [] |}.

(** The controller object: [agents] is the ordered dict of the
    constructor argument; [assignment_history] holds references into the
    object heap. *)
Record Controller := {
  agents : list (string * string);
  economy : Economy;
  task_history : list Task;
  assignment_history : list nat;
  cycle_count : nat
}.

(** ** The ambient effects *)

Class Env (W : Type) := {
  env_now : W -> Timestamp * W;
  env_post : string -> json -> W -> (PyExc + Response) * W;
  env_randbelow : nat -> W -> nat * W;
  env_random : W -> Q * W
}.

Section Program.

Context {W : Type} `{Env W}.

Record Sys := {
  world : W;
  heap : list AgentAssignment;
  ctl : Controller;
  stdout : list string
}.

Definition set_world (w : W) (s : Sys) : Sys :=
  {| world := w; heap := heap s; ctl := ctl s; stdout := stdout s |}.
Definition set_heap (h : list AgentAssignment) (s : Sys) : Sys :=
  {| world := world s; heap := h; ctl := ctl s; stdout := stdout s |}.
Definition set_ctl (c : Controller) (s : Sys) : Sys :=
  {| world := world s; heap := heap s; ctl := c; stdout := stdout s |}.
Definition set_stdout (o : list string) (s : Sys) : Sys :=
  {| world := world s; heap := heap s; ctl := ctl s; stdout := o |}.

Definition set_economy (e : Economy) (c : Controller) : Controller :=
  {| agents := agents c; economy := e; task_history := task_history c;
     assignment_history := assignment_history c; cycle_count := cycle_count c |}.
Definition set_task_history (l : list Task) (c : Controller) : Controller :=
  {| agents := agents c; economy := economy c; task_history := l;
     assignment_history := assignment_history c; cycle_count := cycle_count c |}.
Definition set_assignment_history (l : list nat) (c : Controller) : Controller :=
  {| agents := agents c; economy := economy c; task_history := task_history c;
     assignment_history := l; cycle_count := cycle_count c |}.
Definition set_cycle_count (n : nat) (c : Controller) : Controller :=
  {| agents := agents c; economy := economy c; task_history := task_history c;
     assignment_history := assignment_history c; cycle_count := n |}.

(** ** The monad: state passing with Python exceptions *)

Definition M (A : Type) : Type := Sys -> (PyExc + A) * Sys.

#[global] Instance M_ret : MRet M := fun A a s => (inr a, s).
#[global] Instance M_bind : MBind M := fun A B k m s =>
  match m s with
  | (inr a, s') => k a s'
  | (inl e, s') => (inl e, s')
  end.

Definition raise {A} (e : PyExc) : M A := fun s => (inl e, s).

(** [try: m except: h] *)
Definition try_except {A} (m : M A) (h : PyExc -> M A) : M A := fun s =>
  match m s with
  | (inl e, s') => h e s'
  | r => r
  end.

Definition gets {A} (f : Sys -> A) : M A := fun s => (inr (f s), s).
Definition modify (f : Sys -> Sys) : M unit := fun s => (inr tt, f s).

Definition now : M Timestamp := fun s =>
  let (t, w') := env_now (world s) in (inr t, set_world w' s).

Definition print (msg : string) : M unit :=
  modify (fun s => set_stdout (stdout s ++ [msg]) s).

Definition get_eco : M Economy := gets (fun s => economy (ctl s)).
Definition put_eco (e : Economy) : M unit :=
  modify (fun s => set_ctl (set_economy e (ctl s)) s).

(** [for x in l: body(x)] *)
Fixpoint for_each {A} (l : list A) (body : A -> M unit) : M unit :=
  match l with
  | [] => mret tt
  | x :: l' => body x ;; for_each l' body
  end.

(** ** Economy *)

Definition append_tx (t : Transaction) : M unit :=
  e ← get_eco;
  put_eco {| agent_balances := agent_balances e;
             transaction_history := transaction_history e ++ [t] |}.

Definition set_balance (agent : string) (b : Q) : M unit :=
  e ← get_eco;
  put_eco {| agent_balances := <[agent := b]> (agent_balances e);
             transaction_history := transaction_history e |}.

(** [self.agent_balances[agent_id]] *)
Definition read_balance (agent : string) : M Q :=
  e ← get_eco;
  match agent_balances e !! agent with
  | Some b => mret b
  | None => raise (KeyError agent)
  end.

Definition initialize_agent (agent : string) (initial_balance : Q) : M unit :=
  set_balance agent initial_balance;;
  ts ← now;
  append_tx {| tx_timestamp := ts; tx_type := TxInitialization;
               tx_agent_id := agent; tx_amount := initial_balance;
               tx_reason := None |}.

Definition add_reward (agent : string) (amount : Q) (reason : string) : M unit :=
  e ← get_eco;
  (if decide (agent_balances e !! agent = None)
   then initialize_agent agent 0 else mret tt);;
  b ← read_balance agent;
  set_balance agent (b + amount);;
  ts ← now;
  append_tx {| tx_timestamp := ts; tx_type := TxReward;
               tx_agent_id := agent; tx_amount := amount;
               tx_reason := Some reason |}.

Definition deduct_penalty (agent : string) (amount : Q) (reason : string) : M unit :=
  e ← get_eco;
  (if decide (agent_balances e !! agent = None)
   then initialize_agent agent 0 else mret tt);;
  b ← read_balance agent;
  set_balance agent (b - amount);;
  ts ← now;
  append_tx {| tx_timestamp := ts; tx_type := TxPenalty;
               tx_agent_id := agent; tx_amount := amount;
               tx_reason := Some reason |}.

Definition get_balance (e : Economy) (agent : string) : Q :=
  match agent_balances e !! agent with Some b => b | None => 0 end.

Definition get_all_balances : M (gmap string Q) :=
  e ← get_eco; mret (agent_balances e).


(** ** Numbers *)

(** [round(x, 2)]: round half to even at the second decimal. *)
Definition round2 (x : Q) : Q :=
  let y := x * 100 in
  let n := Qfloor y in
  let d := y - inject_Z n in
  let k := if Qeq_bool d (1#2) then (if Z.even n then n else (n + 1)%Z)
           else if Qle_bool d (1#2) then n else (n + 1)%Z in
  Qmake k 100.

(** [x / y] on Python numbers *)
Definition py_truediv (x y : Q) : M Q :=
  if Qeq_bool y 0 then raise ZeroDivisionError else mret (x / y).

(** ** generate_tasks *)

Definition task_descriptions : list string := [
  "Analyze data patterns";
  "Optimize algorithm efficiency";
  "Validate system integrity";
  "Process large dataset";
  "Coordinate with other agents";
  "Generate report summary";
  "Execute benchmark tests";
  "Update system configuration";
  "Monitor performance metrics";
  "Resolve conflicts between agents"].

(** [random.choice(seq)] is [seq[_randbelow(len(seq))]]. *)
Definition random_choice (l : list string) : M string := fun s =>
  let (i, w') := env_randbelow (length l) (world s) in
  match l !! i with
  | Some x => (inr x, set_world w' s)
  | None => (inl IndexError, set_world w' s)
  end.

(** [random.uniform(a, b)] is [a + (b - a) * random()]. *)
Definition random_uniform (a b : Q) : M Q := fun s =>
  let (r, w') := env_random (world s) in (inr (a + (b - a) * r), set_world w' s).

(** [f"task_{self.cycle_count}_{i}"] *)
Definition task_id_str (c i : nat) : string :=
  "task_" +:+ pretty c +:+ "_" +:+ pretty i.

(** [Task(task_id, description, complexity, reward)] *)
Definition Task_new (tid desc : string) (cx rw : Q) : M Task :=
  ts ← now;
  mret {| task_id := tid; description := desc; complexity := cx; reward := rw;
          created_at := ts; status := "pending" |}.

(** One iteration of the loop of [generate_tasks]. *)
Definition generate_task (i : nat) : M Task :=
  c ← gets (fun s => cycle_count (ctl s));
  let tid := task_id_str c i in
  desc ← random_choice task_descriptions;
  u ← random_uniform (1#10) 1;
  let cx := round2 u in
  let rw := round2 (cx * 50) in
  t ← Task_new tid desc cx rw;
  modify (fun s => set_ctl (set_task_history (task_history (ctl s) ++ [t]) (ctl s)) s);;
  mret t.

Fixpoint generate_loop (idx : list nat) (tasks : list Task) : M (list Task) :=
  match idx with
  | [] => mret tasks
  | i :: idx' => t ← generate_task i; generate_loop idx' (tasks ++ [t])
  end.

Definition generate_tasks (num_tasks : nat) : M (list Task) :=
  generate_loop (seq 0 num_tasks) [].

(** ** assign *)

(** Allocation of a new object in the heap; its reference is its index. *)
Definition alloc (a : AgentAssignment) : M nat := fun s =>
  (inr (length (heap s)), set_heap (heap s ++ [a]) s).

Definition load (r : nat) : M AgentAssignment := fun s =>
  match heap s !! r with
  | Some a => (inr a, s)
  | None => (inl IndexError, s)
  end.

Definition store (r : nat) (a : AgentAssignment) : M unit :=
  modify (fun s => set_heap (<[r := a]> (heap s)) s).

(** [AgentAssignment(agent_id, agent_url, task)] *)
Definition AgentAssignment_new (agent url : string) (t : Task) : M nat :=
  ts ← now;
  alloc {| agent_id := agent; agent_url := url; task := t; assigned_at := ts;
           completed_at := None; result := None; success := false |}.

(** [d[k]] on a dict given as its ordered list of items. *)
Fixpoint dict_get (k : string) (d : list (string * string)) : option string :=
  match d with
  | [] => None
  | (k', v) :: d' => if decide (k = k') then Some v else dict_get k d'
  end.

Fixpoint assign_loop (ags : list (string * string)) (agent_ids : list string)
    (idx : nat) (tasks : list Task) (assignments : list nat) : M (list nat) :=
  match tasks with
  | [] => mret assignments
  | t :: tasks' =>
      match agent_ids !! (idx mod length agent_ids)%nat with
      | None => raise IndexError
      | Some agent =>
          match dict_get agent ags with
          | None => raise (KeyError agent)
          | Some url =>
              r ← AgentAssignment_new agent url t;
              modify (fun s => set_ctl (set_assignment_history
                        (assignment_history (ctl s) ++ [r]) (ctl s)) s);;
              print ("Assigned task " +:+ task_id t +:+ " to " +:+ agent);;
              assign_loop ags agent_ids (S idx) tasks' (assignments ++ [r])
          end
      end
  end.

Definition assign (tasks : list Task) : M (list nat) :=
  ags ← gets (fun s => agents (ctl s));
  let agent_ids := map fst ags in
  if decide (agent_ids = []) then
    print "No agents available for assignment";; mret []
  else
    assignments ← assign_loop ags agent_ids 0 tasks [];
    print ("Assigned " +:+ pretty (length assignments) +:+ " tasks");;
    mret assignments.

(** ** execute *)

Definition set_result (j : option json) (a : AgentAssignment) : AgentAssignment :=
  {| agent_id := agent_id a; agent_url := agent_url a; task := task a;
     assigned_at := assigned_at a; completed_at := completed_at a;
     result := j; success := success a |}.
Definition set_success (b : bool) (a : AgentAssignment) : AgentAssignment :=
  {| agent_id := agent_id a; agent_url := agent_url a; task := task a;
     assigned_at := assigned_at a; completed_at := completed_at a;
     result := result a; success := b |}.
Definition set_completed_at (t : option Timestamp) (a : AgentAssignment) : AgentAssignment :=
  {| agent_id := agent_id a; agent_url := agent_url a; task := task a;
     assigned_at := assigned_at a; completed_at := t;
     result := result a; success := success a |}.

(** [assignment.<field> = v] on the object at reference [r] *)
Definition update (r : nat) (f : AgentAssignment -> AgentAssignment) : M unit :=
  a ← load r; store r (f a).

(** [requests.post(url, json=body, timeout=5)] *)
Definition requests_post (url : string) (body : json) : M Response := fun s =>
  let (res, w') := env_post url body (world s) in (res, set_world w' s).

(** [response.raise_for_status()] *)
Definition raise_for_status (r : Response) : M unit :=
  let c := status_code r in
  if decide (400 <= c < 500)%Z then
    raise (HTTPError (pretty c +:+ " Client Error: " +:+ resp_reason r
                      +:+ " for url: " +:+ resp_url r))
  else if decide (500 <= c < 600)%Z then
    raise (HTTPError (pretty c +:+ " Server Error: " +:+ resp_reason r
                      +:+ " for url: " +:+ resp_url r))
  else mret tt.

(** [response.json()] *)
Definition response_json (r : Response) : M json :=
  match resp_body r with
  | inl j => mret j
  | inr m => raise (JSONDecodeError m)
  end.

Definition error_json (m : string) : json := JObj [("error", JStr m)].

(** The body of the loop of [execute], for the assignment at [r]. *)
Definition execute_one (r : nat) : M unit :=
  a ← load r;
  try_except
    (response ← requests_post (agent_url a +:+ "/run_task")
        (JObj [("description", JStr (description (task a)));
               ("price", JNum (reward (task a)));
               ("sender", JStr "AutonomousController")]);
     raise_for_status response;;
     j ← response_json response;
     update r (set_result (Some j));;
     update r (set_success true);;
     ts ← now;
     update r (set_completed_at (Some ts)))
    (fun e =>
       match e with
       | Timeout _ =>
           update r (set_success false);;
           update r (set_result (Some (error_json "timeout")))
       | ConnectionError _ =>
           update r (set_success false);;
           update r (set_result (Some (error_json "connection_error")))
       | _ =>
           update r (set_success false);;
           update r (set_result (Some (error_json (exc_str e))))
       end).

Fixpoint execute_loop (assignments results : list nat) : M (list nat) :=
  match assignments with
  | [] => mret results
  | r :: rs => execute_one r;; execute_loop rs (results ++ [r])
  end.

Definition execute (assignments : list nat) : M (list nat) :=
  execute_loop assignments [].

(** ** evaluate *)

Record Evaluation := {
  total_tasks : nat;
  successful : nat;
  failed : nat;
  success_rate : Q;
  eval_timestamp : Timestamp
}.

(** [sum(1 for a in assignments if a.success)] *)
Fixpoint count_successful (assignments : list nat) : M nat :=
  match assignments with
  | [] => mret 0%nat
  | r :: rs =>
      a ← load r;
      n ← count_successful rs;
      mret (if success a then S n else n)
  end.

Definition evaluate (assignments : list nat) : M Evaluation :=
  let total := length assignments in
  succ ← count_successful assignments;
  let fail := (total - succ)%nat in
  rate ← (if decide (0 < total)%nat
          then q ← py_truediv (inject_Z (Z.of_nat succ)) (inject_Z (Z.of_nat total));
               mret (q * 100)
          else mret 0);
  ts ← now;
  mret {| total_tasks := total; successful := succ; failed := fail;
          success_rate := round2 rate; eval_timestamp := ts |}.

(** ** update_economy *)

(** The body of the loop of [update_economy]. *)
Definition update_economy_step (r : nat) : M unit :=
  a ← load r;
  let agent := agent_id a in
  let task_reward := reward (task a) in
  if success a then
    add_reward agent task_reward ("completed_task_" +:+ task_id (task a))
  else
    let penalty := round2 (task_reward * (1#10)) in
    deduct_penalty agent penalty ("failed_task_" +:+ task_id (task a)).

Definition update_economy (assignments : list nat) : M unit :=
  for_each assignments update_economy_step;;
  _ ← get_all_balances;
  mret tt.

(** ** The controller *)

(** [AutonomousController(agents, initial_balance)] *)
Definition controller_init (ags : list (string * string)) (initial_balance : Q) : M unit :=
  modify (set_ctl {| agents := ags; economy := Economy_new; task_history := [];
                     assignment_history := []; cycle_count := 0 |});;
  for_each (map fst ags) (fun agent => initialize_agent agent initial_balance).

Record CycleSummary := {
  cycle : nat;
  evaluation : Evaluation;
  balances : gmap string Q;
  summary_timestamp : Timestamp
}.

Definition run_cycle (num_tasks : nat) : M CycleSummary :=
  modify (fun s => set_ctl (set_cycle_count (S (cycle_count (ctl s))) (ctl s)) s);;
  tasks ← generate_tasks num_tasks;
  assignments ← assign tasks;
  results ← execute assignments;
  ev ← evaluate results;
  update_economy results;;
  c ← gets (fun s => cycle_count (ctl s));
  bals ← get_all_balances;
  ts ← now;
  mret {| cycle := c; evaluation := ev; balances := bals; summary_timestamp := ts |}.

(** A sequence of direct calls of the [Economy] methods. *)
Inductive EcoOp :=
| OpInit (agent : string) (b : Q)
| OpReward (agent : string) (amt : Q) (reason : string)
| OpPenalty (agent : string) (amt : Q) (reason : string).

Definition eco_op_agent (o : EcoOp) : string :=
  match o with OpInit a _ | OpReward a _ _ | OpPenalty a _ _ => a end.

Definition run_eco_op (o : EcoOp) : M unit :=
  match o with
  | OpInit a b => initialize_agent a b
  | OpReward a amt r => add_reward a amt r
  | OpPenalty a amt r => deduct_penalty a amt r
  end.

Definition run_eco_ops (os : list EcoOp) : M unit := for_each os run_eco_op.

End Program.

(** The JSON body posted for an assignment. *)
Definition dispatch_body (a : AgentAssignment) : json :=
  JObj [("description", JStr (description (task a)));
        ("price", JNum (reward (task a)));
        ("sender", JStr "AutonomousController")].

(** The error string an assignment records when its dispatch raises [e]:
    the three [except] clauses of [execute]. *)
Definition failure_msg (e : PyExc) : string :=
  match e with
  | Timeout _ => "timeout"
  | ConnectionError _ => "connection_error"
  | _ => exc_str e
  end.

(** The state of an assignment once its dispatch has resolved: it has a
    result, and an unsuccessful one records an error. *)
Definition dispatched (a : AgentAssignment) : Prop :=
  result a <> None /\
  (success a = false -> exists e, result a = Some (error_json (failure_msg e))).

(** The round-robin rule as the spec states it: the task at index [i] goes
    to the agent at position [i mod M] of the registration order. *)
Definition rr_step (ags : list (string * string)) (agent_ids : list string)
    (i : nat) (t : Task) : string * string * Task :=
  let a := agent_ids !!! (i mod length agent_ids)%nat in
  (a, default "" (dict_get a ags), t).

Definition round_robin (ags : list (string * string)) (tasks : list Task)
    : list (string * string * Task) :=
  zip_with (rr_step ags (map fst ags)) (seq 0 (length tasks)) tasks.

(** The agent / endpoint / task of an assignment object. *)
Definition triple (a : AgentAssignment) : string * string * Task :=
  (agent_id a, agent_url a, task a).

Definition fresh_assignment (a : AgentAssignment) : Prop :=
  completed_at a = None /\ result a = None /\ success a = false.

(** [initialize_agent] is only called for agents that have not been seen
    (by any earlier operation of the sequence, nor in [known]). *)
Fixpoint inits_fresh (known : list string) (os : list EcoOp) : Prop :=
  match os with
  | [] => True
  | OpInit a _ :: os' => (a ∉ known) /\ inits_fresh (a :: known) os'
  | o :: os' => inits_fresh (eco_op_agent o :: known) os'
  end.

(** A string with no underscore character. *)
Fixpoint us_free (str : string) : Prop :=
  match str with
  | EmptyString => True
  | String c str' => c <> "_"%char /\ us_free str'
  end.

(** What Python's [random] module guarantees of the two draws the
    controller uses: [_randbelow(n)] lies in [[0, n)] and [random()] in
    [[0, 1)]. *)
Section EnvFacts.

Context {W : Type} `{Env W}.

Definition randbelow_ok : Prop :=
  forall n w, (0 < n)%nat -> (fst (env_randbelow n w) < n)%nat.

Definition random_ok : Prop :=
  forall w, 0 <= fst (env_random w) < 1.

(** The task-history part of the state. *)
Definition hist_of (s : Sys (W:=W)) : list Task * nat :=
  (task_history (ctl s), cycle_count (ctl s)).

(** Every task of the history has an id [task_<c>_<i>] for a cycle [c]
    already started, and the ids are pairwise distinct. *)
Definition ids_ok (s : Sys (W:=W)) : Prop :=
  NoDup (map task_id (task_history (ctl s))) /\
  forall t, t ∈ task_history (ctl s) ->
    exists c i, task_id t = task_id_str c i /\ (c <= cycle_count (ctl s))%nat.

End EnvFacts.

(** ** The economy seen as a ledger, and frames *)

Section Ledger.

Context {W : Type} `{Env W}.
Implicit Types s : Sys (W := W).

Definition mk_tx (t : Timestamp) (ty : TxType) (agent : string) (amt : Q)
    (reason : option string) : Transaction :=
  {| tx_timestamp := t; tx_type := ty; tx_agent_id := agent; tx_amount := amt;
     tx_reason := reason |}.

Definition eco_of s : Economy := economy (ctl s).

(** The entry that [add_reward] / [deduct_penalty] log first when the agent
    has no balance yet. *)
Definition implicit_init (agent : string) (e : Economy) (t : Timestamp) : list Transaction :=
  match agent_balances e !! agent with
  | Some _ => []
  | None => [mk_tx t TxInitialization agent 0 None]
  end.

Definition tx_type_eqb (x y : TxType) : bool :=
  match x, y with
  | TxInitialization, TxInitialization | TxReward, TxReward
  | TxPenalty, TxPenalty => true
  | _, _ => false
  end.

Definition tx_is (ty : TxType) (agent : string) (t : Transaction) : bool :=
  bool_decide (tx_type t = ty) && bool_decide (tx_agent_id t = agent).

(** Sum of the amounts of the entries of type [ty] for [agent]. *)
Definition tx_sum (ty : TxType) (agent : string) (log : list Transaction) : Q :=
  fold_right (fun t acc => if tx_is ty agent t then tx_amount t + acc else acc) 0 log.

(** The initialization amounts recorded for [agent]. *)
Definition tx_inits (agent : string) (log : list Transaction) : list Q :=
  map tx_amount (filter (fun t => tx_is TxInitialization agent t = true) log).

(** The ledger invariant as the claim words it. *)
Definition ledger_claim (e : Economy) : Prop :=
  forall agent b, agent_balances e !! agent = Some b ->
    exists i, i ∈ tx_inits agent (transaction_history e) /\
      b == i + tx_sum TxReward agent (transaction_history e)
             - tx_sum TxPenalty agent (transaction_history e).

(** The invariant the code maintains: an agent with a balance has exactly
    one initialization entry and its balance is that amount plus its
    rewards minus its penalties; an agent without one has no entries. *)
Definition ledger_ok (e : Economy) : Prop :=
  forall agent,
    let log := transaction_history e in
    match agent_balances e !! agent with
    | Some b => exists i, tx_inits agent log = [i] /\
                  b == i + tx_sum TxReward agent log - tx_sum TxPenalty agent log
    | None => tx_inits agent log = [] /\ tx_sum TxReward agent log == 0 /\
              tx_sum TxPenalty agent log == 0
    end.

(** The balance of [agent] that its log describes when the entries are
    replayed in order with the operation of the method that wrote each:
    an initialization entry sets the balance to its amount, a reward entry
    adds its amount to the balance and a penalty entry subtracts it; the
    entries of other agents leave it alone. *)
Definition replay_step (agent : string) (b : option Q) (t : Transaction) : option Q :=
  if bool_decide (tx_agent_id t = agent) then
    match tx_type t with
    | TxInitialization => Some (tx_amount t)
    | TxReward => (fun x => x + tx_amount t) <$> b
    | TxPenalty => (fun x => x - tx_amount t) <$> b
    end
  else b.

Definition replay (agent : string) (log : list Transaction) : option Q :=
  fold_left (replay_step agent) log None.

(** Every balance is the replay of the log, and an agent without a balance
    replays to none. *)
Definition ledger_replay (e : Economy) : Prop :=
  forall agent, agent_balances e !! agent = replay agent (transaction_history e).

(** The entries of [agent] in a log, in order. *)
Definition agent_entries (agent : string) (log : list Transaction) : list Transaction :=
  filter (fun t => tx_agent_id t = agent) log.

(** The first entry of an agent with a balance is its initialization, it
    has no other one, and its balance is the initial amount with each of
    its later rewards added and penalties subtracted in log order; an agent
    without a balance has no entry. *)
Definition ledger_seq (e : Economy) : Prop :=
  forall agent,
    let log := agent_entries agent (transaction_history e) in
    match agent_balances e !! agent with
    | Some b => exists t rest, log = t :: rest /\ tx_type t = TxInitialization /\
                  Forall (fun t' => tx_type t' <> TxInitialization) rest /\
                  Some b = fold_left (replay_step agent) rest (Some (tx_amount t))
    | None => log = []
    end.

(** The shape of [ledger_seq] without the balances. *)
Definition entries_ok (e : Economy) : Prop :=
  forall agent,
    let log := agent_entries agent (transaction_history e) in
    match agent_balances e !! agent with
    | Some _ => exists t rest, log = t :: rest /\ tx_type t = TxInitialization /\
                  Forall (fun t' => tx_type t' <> TxInitialization) rest
    | None => log = []
    end.

Definition eco_frame {A} (m : M A) : Prop :=
  forall s, eco_of (snd (m s)) = eco_of s.

Definition preserves (P : Economy -> Prop) {A} (m : M A) : Prop :=
  forall s, P (eco_of s) -> P (eco_of (snd (m s))).

(** [m] leaves the projection [p] of the state unchanged. *)
Definition frames {B} (p : Sys -> B) {A} (m : M A) : Prop :=
  forall s, p (snd (m s)) = p s.

(** The states of a controller: constructed from a dict of agents (its
    keys are distinct), then driven by [run_cycle]. *)
Inductive reachable : Sys -> Prop :=
| reachable_init s ags b :
    NoDup (map fst ags) -> reachable (snd (controller_init ags b s))
| reachable_cycle s n :
    reachable s -> reachable (snd (run_cycle n s)).

End Ledger.

(** ** The rest of the controller *)

(** [AgentAssignment.to_dict()], with [datetime.isoformat()] as a
    parameter; a [datetime] is always truthy, so ["completed_at"] is
    [None] exactly when the field is unset. *)
Definition AgentAssignment_to_dict (isoformat : Timestamp -> string)
    (a : AgentAssignment) : json :=
  JObj [("agent_id", JStr (agent_id a));
        ("task_id", JStr (task_id (task a)));
        ("assigned_at", JStr (isoformat (assigned_at a)));
        ("completed_at", match completed_at a with
                         | Some t => JStr (isoformat t)
                         | None => JNull
                         end);
        ("success", JBool (success a))].

(** The dict returned by [get_statistics]. *)
Record Statistics := {
  cycles_completed : nat;
  total_tasks_generated : nat;
  total_assignments : nat;
  successful_assignments : nat;
  stats_success_rate : Q;
  stats_agent_balances : gmap string Q;
  stats_timestamp : Timestamp
}.

(** [time.sleep(secs)] acts on the world only. *)
Class Sleep (W : Type) := env_sleep : Q -> W -> W.

Section Rest.

Context {W : Type} `{Env W} `{Sleep W}.

(** [str()] of a float, as an f-string renders it. *)
Context (float_str : Q -> string).

Definition sleep (secs : Q) : M unit :=
  modify (fun s => set_world (env_sleep secs (world s)) s).

Definition get_statistics : M Statistics :=
  c ← gets ctl;
  let total_tasks := length (task_history c) in
  let total_assignments := length (assignment_history c) in
  successful_assignments ← count_successful (assignment_history c);
  rate ← (if decide (0 < total_assignments)%nat
          then q ← py_truediv (inject_Z (Z.of_nat successful_assignments))
                              (inject_Z (Z.of_nat total_assignments));
               mret (q * 100)
          else mret 0);
  bals ← get_all_balances;
  ts ← now;
  mret {| cycles_completed := cycle_count c;
          total_tasks_generated := total_tasks;
          total_assignments := total_assignments;
          successful_assignments := successful_assignments;
          stats_success_rate := rate;
          stats_agent_balances := bals;
          stats_timestamp := ts |}.

(** [print(f"Waiting {interval}s before next cycle...")] *)
Definition waiting_msg (interval : Q) : string :=
  "Waiting " +:+ float_str interval +:+ "s before next cycle...".

(** The loop of [run_multiple_cycles] over [range(num_cycles)]. *)
Fixpoint run_cycles_loop (num_cycles : Z) (num_tasks : nat) (interval : Q)
    (cycles : list Z) (cycle_results : list CycleSummary) : M (list CycleSummary) :=
  match cycles with
  | [] => mret cycle_results
  | cyc :: cycles' =>
      result ← run_cycle num_tasks;
      (if decide (cyc < num_cycles - 1)%Z
       then print (waiting_msg interval);; sleep interval
       else mret tt);;
      run_cycles_loop num_cycles num_tasks interval cycles' (cycle_results ++ [result])
  end.

(** [range(n)] on a Python int: empty when [n <= 0]. *)
Definition py_range (n : Z) : list Z := map Z.of_nat (seq 0 (Z.to_nat n)).

Definition run_multiple_cycles (num_cycles : Z) (num_tasks : nat) (interval : Q)
    : M (list CycleSummary) :=
  print ("Starting " +:+ pretty num_cycles +:+ " autonomous cycles...");;
  run_cycles_loop num_cycles num_tasks interval (py_range num_cycles) [].

End Rest.

(** The number of waiting lines printed on the console. *)
Definition waits {W : Type} `{Env W} (float_str : Q -> string) (interval : Q)
    (s : Sys (W := W)) : nat :=
  length (filter (fun l => l = waiting_msg float_str interval) (stdout s)).

(** The fields of a log entry but its timestamp. *)
Definition tx_view (t : Transaction) : TxType * string * Q * option string :=
  (tx_type t, tx_agent_id t, tx_amount t, tx_reason t).

(** What [update_economy] credits to [agent] for one assignment. *)
Definition balance_delta (agent : string) (a : AgentAssignment) : Q :=
  if bool_decide (agent_id a = agent) then
    (if success a then reward (task a) else - round2 (reward (task a) * (1#10)))
  else 0.

Definition batch_delta (agent : string) (objs : list AgentAssignment) : Q :=
  fold_right (fun a acc => balance_delta agent a + acc) 0 objs.

(** The balance of [agent] once [update_economy] has processed [a], from
    the balance [b]: the addition of [add_reward] or the subtraction of
    [deduct_penalty] when [a] is an assignment of [agent]. *)
Definition balance_step (agent : string) (b : Q) (a : AgentAssignment) : Q :=
  if bool_decide (agent_id a = agent) then
    (if success a then b + reward (task a) else b - round2 (reward (task a) * (1#10)))
  else b.

(** The balances of an economy are those of the agents [keys], and every
    entry of its log is for one of them. *)
Definition eco_keys_ok (keys : list string) (e : Economy) : Prop :=
  (forall k, is_Some (agent_balances e !! k) <-> k ∈ keys) /\
  Forall (fun t => tx_agent_id t ∈ keys) (transaction_history e).

(** The assignment history of a controller: distinct objects of the heap,
    the [i]-th carrying the [i]-th task generated (none when there are no
    agents). *)
Definition hist_ok {W : Type} `{Env W} (s : Sys (W := W)) : Prop :=
  NoDup (assignment_history (ctl s)) /\
  if decide (map fst (agents (ctl s)) = []) then assignment_history (ctl s) = []
  else map (fun r => task <$> heap s !! r) (assignment_history (ctl s))
       = map Some (task_history (ctl s)).

(** ** A scripted world, for concrete runs *)

(** A clock that ticks at every reading, a generator driven by the same
    counter, and a script of network outcomes (an exhausted script refuses
    the connection). *)
Record TestWorld := {
  tw_tick : nat;
  tw_script : list (PyExc + Response)
}.

#[global] Instance TestWorld_env : Env TestWorld := {
  env_now w := (Z.of_nat (tw_tick w), {| tw_tick := S (tw_tick w); tw_script := tw_script w |});
  env_post url body w :=
    match tw_script w with
    | [] => (inl (ConnectionError "Connection refused"), w)
    | o :: os => (o, {| tw_tick := tw_tick w; tw_script := os |})
    end;
  env_randbelow n w :=
    ((tw_tick w mod n)%nat, {| tw_tick := S (tw_tick w); tw_script := tw_script w |});
  env_random w :=
    (Qmake (Z.of_nat (tw_tick w mod 97)) 100, {| tw_tick := S (tw_tick w); tw_script := tw_script w |})
}.

Definition ok_response (j : json) : PyExc + Response :=
  inr {| status_code := 200; resp_reason := "OK"; resp_url := "";
         resp_body := inl j |}.

Definition test_sys (script : list (PyExc + Response)) : Sys (W := TestWorld) :=
  {| world := {| tw_tick := 0; tw_script := script |}; heap := [];
     ctl := {| agents := []; economy := Economy_new; task_history := [];
               assignment_history := []; cycle_count := 0 |};
     stdout := [] |}.

Definition test_agents : list (string * string) :=
  [("AgentA", "http://localhost:5000"); ("AgentB", "http://localhost:5001")].

Definition test_run {A} (m : M (W := TestWorld) A) (script : list (PyExc + Response)) :=
  m (test_sys script).

Definition ctrl_run {A} (m : M (W := TestWorld) A) (script : list (PyExc + Response)) :=
  (controller_init test_agents 100 ;; m) (test_sys script).

(** Five tasks drawn by the scripted world. *)
Definition sample_tasks : list Task :=
  match fst (test_run (generate_tasks 5) []) with inr ts => ts | inl _ => [] end.

(** A controller over [test_agents], right after construction. *)
Definition built : Sys (W := TestWorld) := snd (ctrl_run (mret tt) []).

(** The same controller after one batch of two tasks has been generated and
    assigned (assignments 0 and 1 in the heap). *)
Definition assigned : Sys (W := TestWorld) :=
  snd (ctrl_run (tasks ← generate_tasks 2; assign tasks) []).

(** ... and dispatched: the first agent answers, the second times out. *)
Definition dispatched_state : Sys (W := TestWorld) :=
  snd (ctrl_run (tasks ← generate_tasks 2; rs ← assign tasks; execute rs)
         [ok_response (JObj [("status", JStr "done")]); inl (Timeout "Read timed out")]).

(** Sleeping lets the clock tick once. *)
#[global] Instance TestWorld_sleep : Sleep TestWorld :=
  fun _ w => {| tw_tick := S (tw_tick w); tw_script := tw_script w |}.

(** The controller after one batch of one task has been generated and
    assigned, with an agent that will answer 404 with a body that is not
    JSON. *)
Definition not_found_response : PyExc + Response :=
  inr {| status_code := 404; resp_reason := "Not Found";
         resp_url := "http://localhost:5000/run_task"; resp_body := inr "Expecting value" |}.

Definition assigned_404 : Sys (W := TestWorld) :=
  snd (ctrl_run (tasks ← generate_tasks 1; assign tasks) [not_found_response]).

(** A controller over [test_agents] after one cycle of two tasks. *)
Definition cycled : Sys (W := TestWorld) :=
  snd (run_cycle 2 (snd (controller_init test_agents 100 (test_sys [])))).

(** ** Proofs *)

Section Proofs.

Context {W : Type} `{Env W}.
Implicit Types s : Sys (W := W).
Local Abbreviation M := (M (W := W)).
Local Abbreviation eco_frame := (eco_frame (W := W)).
Local Abbreviation preserves := (preserves (W := W)).
Local Abbreviation frames := (frames (W := W)).

Ltac step_monad :=
  repeat (unfold mbind, M_bind, mret, M_ret, gets, modify, raise, get_eco,
            put_eco, append_tx, set_balance, read_balance, print, load, store,
            update in *; cbn -[decide pretty] in *).

Lemma initialize_agent_spec agent b s :
  exists t w',
    initialize_agent agent b s =
    (inr tt, {| world := w'; heap := heap s;
                ctl := set_economy
                         {| agent_balances := <[agent := b]> (agent_balances (economy (ctl s)));
                            transaction_history := transaction_history (economy (ctl s))
                              ++ [mk_tx t TxInitialization agent b None] |} (ctl s);
                stdout := stdout s |}).
Proof.
  unfold initialize_agent, now. step_monad.
  destruct (env_now (world s)) as [t w'] eqn:E. exists t, w'. reflexivity.
Qed.

Lemma add_reward_spec agent amt reason s :
  exists t1 t2 w',
    add_reward agent amt reason s =
    (inr tt, {| world := w'; heap := heap s;
                ctl := set_economy
                  {| agent_balances := <[agent := get_balance (eco_of s) agent + amt]>
                                         (agent_balances (eco_of s));
                     transaction_history := transaction_history (eco_of s)
                       ++ implicit_init agent (eco_of s) t1
                       ++ [mk_tx t2 TxReward agent amt (Some reason)] |} (ctl s);
                stdout := stdout s |}).
Proof.
  unfold add_reward, eco_of, get_balance, implicit_init. step_monad.
  destruct (agent_balances (economy (ctl s)) !! agent) as [b|] eqn:Eb.
  - rewrite decide_False by congruence. step_monad. rewrite Eb. step_monad.
    unfold now. cbn. destruct (env_now (world s)) as [t w'] eqn:E. cbn.
    exists t, t, w'. reflexivity.
  - rewrite decide_True by done. step_monad.
    destruct (initialize_agent_spec agent 0 s) as (t1 & w1 & ->). step_monad.
    rewrite lookup_insert_eq. step_monad.
    unfold now. cbn. destruct (env_now w1) as [t2 w2] eqn:E. cbn.
    exists t1, t2, w2. rewrite insert_insert_eq, <- app_assoc. reflexivity.
Qed.

Lemma deduct_penalty_spec agent amt reason s :
  exists t1 t2 w',
    deduct_penalty agent amt reason s =
    (inr tt, {| world := w'; heap := heap s;
                ctl := set_economy
                  {| agent_balances := <[agent := get_balance (eco_of s) agent - amt]>
                                         (agent_balances (eco_of s));
                     transaction_history := transaction_history (eco_of s)
                       ++ implicit_init agent (eco_of s) t1
                       ++ [mk_tx t2 TxPenalty agent amt (Some reason)] |} (ctl s);
                stdout := stdout s |}).
Proof.
  unfold deduct_penalty, eco_of, get_balance, implicit_init. step_monad.
  destruct (agent_balances (economy (ctl s)) !! agent) as [b|] eqn:Eb.
  - rewrite decide_False by congruence. step_monad. rewrite Eb. step_monad.
    unfold now. cbn. destruct (env_now (world s)) as [t w'] eqn:E. cbn.
    exists t, t, w'. reflexivity.
  - rewrite decide_True by done. step_monad.
    destruct (initialize_agent_spec agent 0 s) as (t1 & w1 & ->). step_monad.
    rewrite lookup_insert_eq. step_monad.
    unfold now. cbn. destruct (env_now w1) as [t2 w2] eqn:E. cbn.
    exists t1, t2, w2. rewrite insert_insert_eq, <- app_assoc. reflexivity.
Qed.

(** C10. For an agent with no balance entry, one [add_reward] (resp.
    [deduct_penalty]) of amount [A] appends exactly two entries to the
    transaction log, an initialization of amount 0 followed by the reward
    (resp. penalty) of amount [A], and leaves the balance equal to [A]
    (resp. [-A]). *)
Theorem implicit_initialization_logged agent amt reason s :
  agent_balances (eco_of s) !! agent = None ->
  (fst (add_reward agent amt reason s) = inr tt /\
   (exists t1 t2,
      transaction_history (eco_of (snd (add_reward agent amt reason s))) =
      transaction_history (eco_of s) ++
        [mk_tx t1 TxInitialization agent 0 None; mk_tx t2 TxReward agent amt (Some reason)]) /\
   exists b, agent_balances (eco_of (snd (add_reward agent amt reason s))) !! agent = Some b
             /\ b == amt) /\
  (fst (deduct_penalty agent amt reason s) = inr tt /\
   (exists t1 t2,
      transaction_history (eco_of (snd (deduct_penalty agent amt reason s))) =
      transaction_history (eco_of s) ++
        [mk_tx t1 TxInitialization agent 0 None; mk_tx t2 TxPenalty agent amt (Some reason)]) /\
   exists b, agent_balances (eco_of (snd (deduct_penalty agent amt reason s))) !! agent = Some b
             /\ b == - amt).
Proof.
  intros Hnone.
  destruct (add_reward_spec agent amt reason s) as (t1 & t2 & w' & ->).
  destruct (deduct_penalty_spec agent amt reason s) as (u1 & u2 & v' & ->).
  unfold implicit_init, get_balance. rewrite Hnone. cbn.
  split; split; [done| |done|]; (split; [eauto|]);
    eexists; (split; [apply lookup_insert_eq|]); ring.
Qed.

(** C2. One iteration of [update_economy] on a resolved assignment of
    reward [R] for an agent of balance [B] (0 when it has none): on
    success the balance becomes [B + R] and the log gains exactly one
    reward entry of amount [R]; on failure, whatever its kind, the balance
    becomes [B - round(R * 0.1, 2)] and the log gains exactly one penalty
    entry of that amount.  The only other entry that may be logged is the
    implicit initialization (amount 0) of an agent with no balance yet;
    the assignment objects are left untouched. *)
Theorem update_economy_step_policy r a s :
  heap s !! r = Some a ->
  let agent := agent_id a in
  let R := reward (task a) in
  let B := get_balance (eco_of s) agent in
  let s' := snd (update_economy_step r s) in
  fst (update_economy_step r s) = inr tt /\ heap s' = heap s /\
  (success a = true ->
     agent_balances (eco_of s') !! agent = Some (B + R) /\
     exists t1 t2, transaction_history (eco_of s') =
       transaction_history (eco_of s) ++ implicit_init agent (eco_of s) t1 ++
       [mk_tx t2 TxReward agent R (Some ("completed_task_" +:+ task_id (task a)))]) /\
  (success a = false ->
     agent_balances (eco_of s') !! agent = Some (B - round2 (R * (1#10))) /\
     exists t1 t2, transaction_history (eco_of s') =
       transaction_history (eco_of s) ++ implicit_init agent (eco_of s) t1 ++
       [mk_tx t2 TxPenalty agent (round2 (R * (1#10)))
          (Some ("failed_task_" +:+ task_id (task a)))]).
Proof.
  intros Ha agent R B s'. subst agent R B s'.
  unfold update_economy_step. step_monad. rewrite Ha. cbn.
  destruct (success a) eqn:Es.
  - destruct (add_reward_spec (agent_id a) (reward (task a))
                ("completed_task_" +:+ task_id (task a)) s) as (t1 & t2 & w' & ->).
    cbn. repeat split; try done.
    + apply lookup_insert_eq.
    + eauto.
  - destruct (deduct_penalty_spec (agent_id a) (round2 (reward (task a) * (1#10)))
                ("failed_task_" +:+ task_id (task a)) s) as (t1 & t2 & w' & ->).
    cbn. repeat split; try done.
    + apply lookup_insert_eq.
    + eauto.
Qed.

(** *** The ledger *)

Lemma tx_sum_app ty agent l1 l2 :
  tx_sum ty agent (l1 ++ l2) == tx_sum ty agent l1 + tx_sum ty agent l2.
Proof.
  induction l1 as [|t l1 IH]; unfold tx_sum in *; simpl app; simpl fold_right; [ring|].
  destruct (tx_is ty agent t); rewrite IH; ring.
Qed.

Lemma tx_sum_nil ty agent : tx_sum ty agent [] = 0.
Proof. reflexivity. Qed.

Lemma tx_inits_nil agent : tx_inits agent [] = [].
Proof. reflexivity. Qed.

Lemma tx_inits_app agent l1 l2 :
  tx_inits agent (l1 ++ l2) = tx_inits agent l1 ++ tx_inits agent l2.
Proof. unfold tx_inits. by rewrite filter_app, map_app. Qed.

Lemma tx_is_other ty a a' t :
  tx_agent_id t = a -> a' <> a -> tx_is ty a' t = false.
Proof.
  intros Ht Hne. unfold tx_is. rewrite (bool_decide_eq_false_2 (tx_agent_id t = a')).
  - by rewrite andb_false_r.
  - congruence.
Qed.

Lemma tx_other_agent a a' l :
  Forall (fun t => tx_agent_id t = a) l -> a' <> a ->
  tx_inits a' l = [] /\ tx_sum TxReward a' l = 0 /\ tx_sum TxPenalty a' l = 0.
Proof.
  intros Hall Hne. induction Hall as [|t l Ht _ (IH1 & IH2 & IH3)]; [done|].
  unfold tx_inits, tx_sum in *; cbn.
  rewrite !(tx_is_other _ a a' t) by done. cbn. auto.
Qed.

Lemma implicit_init_agent agent e t :
  Forall (fun x => tx_agent_id x = agent) (implicit_init agent e t).
Proof. unfold implicit_init. destruct (_ !! _); repeat constructor. Qed.

Lemma tx_is_mk ty ty' agent t amt r :
  tx_is ty agent (mk_tx t ty' agent amt r) = tx_type_eqb ty' ty.
Proof.
  unfold tx_is; cbn. rewrite (bool_decide_eq_true_2 (agent = agent)); [|done].
  rewrite andb_true_r. by destruct ty, ty'.
Qed.

Lemma tx_sum_single ty ty' agent t amt r :
  tx_sum ty agent [mk_tx t ty' agent amt r] == if tx_type_eqb ty' ty then amt else 0.
Proof.
  unfold tx_sum. cbn [fold_right]. rewrite tx_is_mk. unfold mk_tx. cbn [tx_amount].
  destruct (tx_type_eqb _ _); ring.
Qed.

Lemma tx_inits_single ty' agent t amt r :
  tx_inits agent [mk_tx t ty' agent amt r] =
  if tx_type_eqb ty' TxInitialization then [amt] else [].
Proof. unfold tx_inits. cbn. rewrite tx_is_mk. by destruct (tx_type_eqb _ _). Qed.

(** [initialize_agent] on an agent without a balance keeps the invariant. *)
Lemma ledger_ok_init e agent b t :
  ledger_ok e -> agent_balances e !! agent = None ->
  ledger_ok {| agent_balances := <[agent := b]> (agent_balances e);
               transaction_history := transaction_history e
                 ++ [mk_tx t TxInitialization agent b None] |}.
Proof.
  intros Hok Hnone a'. unfold ledger_ok in *. cbv zeta in *.
  cbn [agent_balances transaction_history].
  destruct (decide (a' = agent)) as [->|Hne].
  - rewrite lookup_insert_eq. specialize (Hok agent).
    rewrite Hnone in Hok. destruct Hok as (Hi & Hr & Hp).
    exists b. rewrite tx_inits_app, Hi, tx_inits_single, !tx_sum_app, Hr, Hp,
      !tx_sum_single. split; [done|]. cbn [tx_type_eqb]. ring.
  - rewrite lookup_insert_ne by congruence. specialize (Hok a').
    destruct (tx_other_agent agent a' [mk_tx t TxInitialization agent b None])
      as (Hi & Hr & Hp); [repeat constructor|done|].
    destruct (agent_balances e !! a') as [b'|].
    + destruct Hok as (i & Hi' & Hb). exists i.
      rewrite tx_inits_app, Hi, app_nil_r, !tx_sum_app, Hr, Hp.
      split; [done|]. rewrite Hb. ring.
    + destruct Hok as (Hi' & Hr' & Hp').
      rewrite tx_inits_app, Hi, app_nil_r, !tx_sum_app, Hr, Hp, Hr', Hp'.
      split; [done|]. split; ring.
Qed.

(** A reward or penalty entry, after the implicit initialization, keeps the
    invariant when the new balance is the old one plus or minus the
    amount. *)
Lemma ledger_ok_tx e agent ty amt nb t1 t2 r :
  ty <> TxInitialization ->
  nb == get_balance e agent
        + match ty with TxReward => amt | TxPenalty => - amt | TxInitialization => 0 end ->
  ledger_ok e ->
  ledger_ok {| agent_balances := <[agent := nb]> (agent_balances e);
               transaction_history := transaction_history e
                 ++ implicit_init agent e t1 ++ [mk_tx t2 ty agent amt (Some r)] |}.
Proof.
  intros Hty Hnb Hok a'. unfold ledger_ok in *. cbv zeta in *.
  cbn [agent_balances transaction_history].
  destruct (decide (a' = agent)) as [->|Hne].
  - rewrite lookup_insert_eq. specialize (Hok agent).
    unfold get_balance, implicit_init in *.
    destruct (agent_balances e !! agent) as [b|].
    + destruct Hok as (i & Hi & Hb). exists i.
      rewrite !tx_inits_app, Hi, tx_inits_single, !tx_sum_app, !tx_sum_single.
      cbn [app]. rewrite Hnb, Hb, ?tx_sum_nil, ?tx_inits_nil.
      destruct ty; [done| |]; cbn [tx_type_eqb]; split; try done; ring.
    + destruct Hok as (Hi & Hr & Hp). exists 0.
      rewrite !tx_inits_app, Hi, !tx_inits_single, !tx_sum_app, !tx_sum_single,
        Hr, Hp, Hnb.
      cbn [app]. rewrite ?tx_sum_nil, ?tx_inits_nil.
      destruct ty; [done| |]; cbn [tx_type_eqb]; split; try done; ring.
  - rewrite lookup_insert_ne by congruence. specialize (Hok a').
    destruct (tx_other_agent agent a'
                (implicit_init agent e t1 ++ [mk_tx t2 ty agent amt (Some r)]))
      as (Hi & Hr & Hp); [|done|].
    { apply Forall_app. split; [apply implicit_init_agent|repeat constructor]. }
    destruct (agent_balances e !! a') as [b'|].
    + destruct Hok as (i & Hi' & Hb). exists i.
      rewrite tx_inits_app, Hi, app_nil_r, !(tx_sum_app _ _ (transaction_history e)), Hr, Hp.
      split; [done|]. rewrite Hb. ring.
    + destruct Hok as (Hi' & Hr' & Hp').
      rewrite tx_inits_app, Hi, app_nil_r, !(tx_sum_app _ _ (transaction_history e)),
        Hr, Hp, Hr', Hp'.
      split; [done|]. split; ring.
Qed.

(** *** Computations that leave the economy alone *)

Lemma frame_bind {A B} (m : M A) (k : A -> M B) :
  eco_frame m -> (forall a, eco_frame (k a)) -> eco_frame (m ≫= k).
Proof.
  intros Hm Hk s. unfold mbind, M_bind. specialize (Hm s).
  destruct (m s) as [[e|a] s'] eqn:E; cbn in *; [done|]. by rewrite Hk.
Qed.

Lemma frame_try {A} (m : M A) (h : PyExc -> M A) :
  eco_frame m -> (forall e, eco_frame (h e)) -> eco_frame (try_except m h).
Proof.
  intros Hm Hh s. unfold try_except. specialize (Hm s).
  destruct (m s) as [[e|a] s'] eqn:E; cbn in *; [|done]. by rewrite Hh.
Qed.

Lemma frame_modify (f : Sys -> Sys) :
  (forall s, eco_of (f s) = eco_of s) -> eco_frame (modify f).
Proof. done. Qed.

Lemma frame_ret {A} (a : A) : eco_frame (mret a).
Proof. done. Qed.

Lemma frame_raise {A} e : eco_frame (raise (A:=A) e).
Proof. done. Qed.

Lemma frame_gets {A} (f : Sys -> A) : eco_frame (gets f).
Proof. done. Qed.

Lemma frame_now : eco_frame now.
Proof. intros s. unfold now. by destruct (env_now (world s)). Qed.

Lemma frame_load r : eco_frame (load r).
Proof. intros s. unfold load. by destruct (heap s !! r). Qed.

Lemma frame_alloc a : eco_frame (alloc a).
Proof. done. Qed.

Lemma frame_requests_post url body : eco_frame (requests_post url body).
Proof. intros s. unfold requests_post. by destruct (env_post url body (world s)). Qed.

Lemma frame_random_choice l : eco_frame (random_choice l).
Proof.
  intros s. unfold random_choice.
  destruct (env_randbelow (length l) (world s)), (l !! _); done.
Qed.

Lemma frame_random_uniform a b : eco_frame (random_uniform a b).
Proof. intros s. unfold random_uniform. by destruct (env_random (world s)). Qed.

Lemma frame_preserves P {A} (m : M A) : eco_frame m -> preserves P m.
Proof. intros Hm s. by rewrite Hm. Qed.

Lemma preserves_bind P {A B} (m : M A) (k : A -> M B) :
  preserves P m -> (forall a, preserves P (k a)) -> preserves P (m ≫= k).
Proof.
  intros Hm Hk s HP. unfold mbind, M_bind. specialize (Hm s HP).
  destruct (m s) as [[e|a] s'] eqn:E; cbn in *; [done|]. by apply Hk.
Qed.

Ltac frame_tac :=
  repeat match goal with
  | |- eco_frame (mbind _ _) => apply frame_bind; [|intros ?]
  | |- eco_frame (try_except _ _) => apply frame_try; [|intros ?]
  | |- eco_frame (mret _) => apply frame_ret
  | |- eco_frame (raise _) => apply frame_raise
  | |- eco_frame (gets _) => apply frame_gets
  | |- eco_frame now => apply frame_now
  | |- eco_frame (load _) => apply frame_load
  | |- eco_frame (alloc _) => apply frame_alloc
  | |- eco_frame (requests_post _ _) => apply frame_requests_post
  | |- eco_frame (random_choice _) => apply frame_random_choice
  | |- eco_frame (random_uniform _ _) => apply frame_random_uniform
  | |- eco_frame (modify _) => apply frame_modify; intros ?; reflexivity
  | |- eco_frame (print _) => apply frame_modify; intros ?; reflexivity
  | |- eco_frame (store _ _) => apply frame_modify; intros ?; reflexivity
  | |- eco_frame (update _ _) => unfold update
  | |- eco_frame get_eco => apply frame_gets
  | |- eco_frame get_all_balances => unfold get_all_balances
  | |- eco_frame (match ?x with _ => _ end) => destruct x
  | |- eco_frame (if ?x then _ else _) => destruct x
  | IH : eco_frame _ |- eco_frame _ => apply IH
  | IH : forall _, eco_frame _ |- eco_frame _ => apply IH
  | IH : forall _ _, eco_frame _ |- eco_frame _ => apply IH
  end.

Lemma frame_generate_tasks n : eco_frame (generate_tasks n).
Proof.
  unfold generate_tasks. generalize (@nil Task) as acc.
  induction (seq 0 n) as [|i idx IH]; intros acc; cbn [generate_loop]; frame_tac.
  unfold generate_task, Task_new. frame_tac.
Qed.

Lemma frame_assign tasks : eco_frame (assign tasks).
Proof.
  unfold assign. frame_tac.
  generalize 0%nat as idx, (@nil nat) as acc.
  induction tasks as [|t tasks IH]; intros idx acc; cbn [assign_loop]; frame_tac.
  unfold AgentAssignment_new. frame_tac.
Qed.

Lemma frame_execute rs : eco_frame (execute rs).
Proof.
  unfold execute. generalize (@nil nat) as acc.
  induction rs as [|r rs IH]; intros acc; cbn [execute_loop]; frame_tac.
  unfold execute_one, raise_for_status, response_json. frame_tac.
Qed.

Lemma frame_evaluate rs : eco_frame (evaluate rs).
Proof.
  unfold evaluate. frame_tac.
  - induction rs as [|r rs IH]; cbn [count_successful]; frame_tac.
  - unfold py_truediv. frame_tac.
Qed.

Lemma preserves_for_each P {A} (l : list A) (body : A -> M unit) :
  (forall x, preserves P (body x)) -> preserves P (for_each l body).
Proof.
  intros Hb. induction l as [|x l IH]; cbn [for_each].
  - by apply frame_preserves, frame_ret.
  - apply preserves_bind; auto.
Qed.

Lemma preserves_update_economy_step r : preserves ledger_ok (update_economy_step r).
Proof.
  intros s HP. unfold update_economy_step, mbind, M_bind, load.
  destruct (heap s !! r) as [a|]; cbn -[add_reward deduct_penalty]; [|done].
  destruct (success a).
  - destruct (add_reward_spec (agent_id a) (reward (task a))
                ("completed_task_" +:+ task_id (task a)) s) as (t1 & t2 & w' & ->).
    cbn [snd eco_of ctl set_economy economy].
    apply ledger_ok_tx; [done| |done]. reflexivity.
  - destruct (deduct_penalty_spec (agent_id a) (round2 (reward (task a) * (1#10)))
                ("failed_task_" +:+ task_id (task a)) s) as (t1 & t2 & w' & ->).
    cbn [snd eco_of ctl set_economy economy].
    apply ledger_ok_tx; [done| |done]. reflexivity.
Qed.

Lemma preserves_update_economy rs : preserves ledger_ok (update_economy rs).
Proof.
  unfold update_economy. apply preserves_bind.
  - apply preserves_for_each, preserves_update_economy_step.
  - intros _. apply frame_preserves. frame_tac.
Qed.

Lemma preserves_run_cycle n : preserves ledger_ok (run_cycle n).
Proof.
  unfold run_cycle.
  apply preserves_bind; [apply frame_preserves; frame_tac|intros _].
  apply preserves_bind; [apply frame_preserves, frame_generate_tasks|intros tasks].
  apply preserves_bind; [apply frame_preserves, frame_assign|intros rs].
  apply preserves_bind; [apply frame_preserves, frame_execute|intros results].
  apply preserves_bind; [apply frame_preserves, frame_evaluate|intros ev].
  apply preserves_bind; [apply preserves_update_economy|intros _].
  apply frame_preserves. frame_tac.
Qed.

Lemma ledger_ok_new : ledger_ok Economy_new.
Proof. intros a. cbn. done. Qed.

Lemma init_agents_ok (l : list string) b s :
  NoDup l -> ledger_ok (eco_of s) ->
  (forall a, a ∈ l -> agent_balances (eco_of s) !! a = None) ->
  ledger_ok (eco_of (snd (for_each l (fun a => initialize_agent a b) s))).
Proof.
  revert s. induction l as [|a l IH]; intros s Hnd Hok Hfresh; [done|].
  cbn [for_each]. unfold mbind at 1, M_bind at 1.
  destruct (initialize_agent_spec a b s) as (t & w' & ->).
  apply NoDup_cons in Hnd as [Hnotin Hnd].
  apply IH; [done| |].
  - cbn [eco_of ctl set_economy economy]. apply ledger_ok_init; [done|].
    apply Hfresh. left.
  - intros a' Ha'. cbn [eco_of ctl set_economy economy agent_balances].
    rewrite lookup_insert_ne by (intros ->; contradiction).
    apply Hfresh. by right.
Qed.

Lemma reachable_ledger_ok s : reachable s -> ledger_ok (eco_of s).
Proof.
  induction 1 as [s ags b Hnd|s n _ IH].
  - unfold controller_init, mbind at 1, M_bind at 1, modify at 1.
    cbn -[for_each initialize_agent].
    apply init_agents_ok; [done|apply ledger_ok_new|].
    intros a _. apply lookup_empty.
  - by apply preserves_run_cycle.
Qed.

(** *** The ledger replayed in order *)

Lemma replay_step_other agent b t :
  tx_agent_id t <> agent -> replay_step agent b t = b.
Proof. intros Hne. unfold replay_step. by rewrite bool_decide_eq_false_2. Qed.

Lemma replay_app agent l1 l2 :
  replay agent (l1 ++ l2) = fold_left (replay_step agent) l2 (replay agent l1).
Proof. unfold replay. apply fold_left_app. Qed.

Lemma replay_other agent l b :
  Forall (fun t => tx_agent_id t <> agent) l -> fold_left (replay_step agent) l b = b.
Proof.
  revert b. induction l as [|t l IH]; intros b Hl; [done|].
  apply Forall_cons in Hl as [Ht Hl]. cbn [fold_left].
  rewrite replay_step_other by done. auto.
Qed.

Lemma replay_entries agent l b :
  fold_left (replay_step agent) l b = fold_left (replay_step agent) (agent_entries agent l) b.
Proof.
  unfold agent_entries. revert b. induction l as [|t l IH]; intros b; [done|].
  rewrite filter_cons. cbn [fold_left]. case_decide as Ht; cbn [fold_left]; [done|].
  rewrite replay_step_other by done. done.
Qed.

Lemma agent_entries_app agent l1 l2 :
  agent_entries agent (l1 ++ l2) = agent_entries agent l1 ++ agent_entries agent l2.
Proof. apply filter_app. Qed.

Lemma agent_entries_other agent l :
  Forall (fun t => tx_agent_id t <> agent) l -> agent_entries agent l = [].
Proof.
  unfold agent_entries. induction 1 as [|t l Ht _ IH]; [done|].
  rewrite filter_cons. by rewrite decide_False.
Qed.

Lemma agent_entries_own agent l :
  Forall (fun t => tx_agent_id t = agent) l -> agent_entries agent l = l.
Proof.
  unfold agent_entries. induction 1 as [|t l Ht _ IH]; [done|].
  rewrite filter_cons, decide_True by done. by rewrite IH.
Qed.

Lemma Forall_other_agent agent agent' l :
  agent' <> agent -> Forall (fun t => tx_agent_id t = agent) l ->
  Forall (fun t => tx_agent_id t <> agent') l.
Proof. intros Hne Hl. eapply Forall_impl; [exact Hl|]. intros t ->. congruence. Qed.

Lemma ledger_replay_extend e agent nb new :
  ledger_replay e ->
  Forall (fun t => tx_agent_id t = agent) new ->
  fold_left (replay_step agent) new (agent_balances e !! agent) = Some nb ->
  ledger_replay {| agent_balances := <[agent := nb]> (agent_balances e);
                   transaction_history := transaction_history e ++ new |}.
Proof.
  intros Hr Hf Hnb a'. cbn [agent_balances transaction_history].
  rewrite replay_app, <- Hr.
  destruct (decide (a' = agent)) as [->|Hne].
  - by rewrite lookup_insert_eq.
  - rewrite lookup_insert_ne by congruence. symmetry.
    by apply replay_other, (Forall_other_agent agent).
Qed.

Lemma ledger_replay_init e agent b t :
  ledger_replay e ->
  ledger_replay {| agent_balances := <[agent := b]> (agent_balances e);
                   transaction_history := transaction_history e
                     ++ [mk_tx t TxInitialization agent b None] |}.
Proof.
  intros Hr. apply ledger_replay_extend; [done|repeat constructor|].
  unfold replay_step, mk_tx. cbn [fold_left tx_agent_id tx_type tx_amount].
  by rewrite bool_decide_eq_true_2.
Qed.

(** The balance [add_reward] ([ty = TxReward]) or [deduct_penalty]
    ([ty = TxPenalty]) stores. *)
Definition tx_balance (e : Economy) (agent : string) (ty : TxType) (amt : Q) : Q :=
  match ty with
  | TxPenalty => get_balance e agent - amt
  | _ => get_balance e agent + amt
  end.

Lemma ledger_replay_tx e agent ty amt t1 t2 r :
  ty <> TxInitialization ->
  ledger_replay e ->
  ledger_replay {| agent_balances := <[agent := tx_balance e agent ty amt]> (agent_balances e);
                   transaction_history := transaction_history e
                     ++ implicit_init agent e t1 ++ [mk_tx t2 ty agent amt (Some r)] |}.
Proof.
  intros Hty Hr. apply ledger_replay_extend; [done| |].
  - apply Forall_app. split; [apply implicit_init_agent|repeat constructor].
  - unfold tx_balance, get_balance, implicit_init. rewrite fold_left_app.
    destruct (agent_balances e !! agent) as [b|];
      unfold replay_step, mk_tx; cbn [fold_left tx_agent_id tx_type tx_amount];
      rewrite ?bool_decide_eq_true_2 by done; destruct ty; done.
Qed.

Lemma entries_ok_init e agent b t :
  entries_ok e -> agent_balances e !! agent = None ->
  entries_ok {| agent_balances := <[agent := b]> (agent_balances e);
                transaction_history := transaction_history e
                  ++ [mk_tx t TxInitialization agent b None] |}.
Proof.
  intros Hok Hnone a'. cbv zeta. cbn [agent_balances transaction_history].
  rewrite agent_entries_app. specialize (Hok a'). cbv zeta in Hok.
  destruct (decide (a' = agent)) as [->|Hne].
  - rewrite lookup_insert_eq. rewrite Hnone in Hok. rewrite Hok, agent_entries_own
      by repeat constructor.
    eexists _, []. split; [reflexivity|]. split; [reflexivity|constructor].
  - rewrite lookup_insert_ne by congruence.
    rewrite (agent_entries_other a' [mk_tx t TxInitialization agent b None]), app_nil_r;
      [done|].
    apply (Forall_other_agent agent); [done|repeat constructor].
Qed.

Lemma entries_ok_tx e agent ty amt nb t1 t2 r :
  ty <> TxInitialization ->
  entries_ok e ->
  entries_ok {| agent_balances := <[agent := nb]> (agent_balances e);
                transaction_history := transaction_history e
                  ++ implicit_init agent e t1 ++ [mk_tx t2 ty agent amt (Some r)] |}.
Proof.
  intros Hty Hok a'. cbv zeta. cbn [agent_balances transaction_history].
  rewrite agent_entries_app. specialize (Hok a'). cbv zeta in Hok.
  assert (Hf : Forall (fun t => tx_agent_id t = agent)
                 (implicit_init agent e t1 ++ [mk_tx t2 ty agent amt (Some r)])).
  { apply Forall_app. split; [apply implicit_init_agent|repeat constructor]. }
  destruct (decide (a' = agent)) as [->|Hne].
  - rewrite lookup_insert_eq, (agent_entries_own agent _ Hf).
    unfold implicit_init in *. destruct (agent_balances e !! agent) as [b|].
    + destruct Hok as (t & rest & -> & Ht & Hrest).
      exists t, (rest ++ [mk_tx t2 ty agent amt (Some r)]). cbn [app].
      split; [done|]. split; [done|]. apply Forall_app. split; [done|].
      repeat constructor. done.
    + rewrite Hok. eexists _, _. cbn [app]. split; [reflexivity|].
      split; [reflexivity|]. repeat constructor. done.
  - rewrite lookup_insert_ne by congruence.
    rewrite (agent_entries_other a' (_ ++ [mk_tx t2 ty agent amt (Some r)])), app_nil_r;
      [done|].
    by apply (Forall_other_agent agent).
Qed.

Lemma ledger_seq_of e : ledger_replay e -> entries_ok e -> ledger_seq e.
Proof.
  intros Hr Hok agent. specialize (Hok agent). cbv zeta in *.
  pose proof (Hr agent) as Ha. unfold replay in Ha. rewrite replay_entries in Ha.
  destruct (agent_balances e !! agent) as [b|]; [|done].
  destruct Hok as (t & rest & Hl & Ht & Hrest). exists t, rest.
  do 3 (split; [done|]). rewrite Ha, Hl. cbn [fold_left].
  unfold replay_step at 2. rewrite Ht. rewrite bool_decide_eq_true_2; [done|].
  assert (Hin : t ∈ agent_entries agent (transaction_history e)) by (rewrite Hl; left).
  unfold agent_entries in Hin. by apply list_elem_of_filter in Hin as [? _].
Qed.

(** An economy property kept by the three methods (the initialization of
    an agent without a balance, a reward and a penalty) holds in every
    reachable state and after a sequence of calls that only initializes
    agents not seen yet. *)
Section LedgerInvariant.

Variable P : Economy -> Prop.
Hypothesis P_init : forall e agent b t,
  P e -> agent_balances e !! agent = None ->
  P {| agent_balances := <[agent := b]> (agent_balances e);
       transaction_history := transaction_history e
         ++ [mk_tx t TxInitialization agent b None] |}.
Hypothesis P_tx : forall e agent ty amt t1 t2 r,
  ty <> TxInitialization -> P e ->
  P {| agent_balances := <[agent := tx_balance e agent ty amt]> (agent_balances e);
       transaction_history := transaction_history e
         ++ implicit_init agent e t1 ++ [mk_tx t2 ty agent amt (Some r)] |}.
Hypothesis P_new : P Economy_new.

Lemma P_reward e agent amt t1 t2 r :
  P e ->
  P {| agent_balances := <[agent := get_balance e agent + amt]> (agent_balances e);
       transaction_history := transaction_history e
         ++ implicit_init agent e t1 ++ [mk_tx t2 TxReward agent amt (Some r)] |}.
Proof. apply (P_tx e agent TxReward). done. Qed.

Lemma P_penalty e agent amt t1 t2 r :
  P e ->
  P {| agent_balances := <[agent := get_balance e agent - amt]> (agent_balances e);
       transaction_history := transaction_history e
         ++ implicit_init agent e t1 ++ [mk_tx t2 TxPenalty agent amt (Some r)] |}.
Proof. apply (P_tx e agent TxPenalty). done. Qed.

Lemma gen_preserves_update_economy_step r : preserves P (update_economy_step r).
Proof.
  intros s HP. unfold update_economy_step, mbind, M_bind, load.
  destruct (heap s !! r) as [a|]; cbn -[add_reward deduct_penalty]; [|done].
  destruct (success a).
  - destruct (add_reward_spec (agent_id a) (reward (task a))
                ("completed_task_" +:+ task_id (task a)) s) as (t1 & t2 & w' & ->).
    cbn [snd eco_of ctl set_economy economy]. by apply P_reward.
  - destruct (deduct_penalty_spec (agent_id a) (round2 (reward (task a) * (1#10)))
                ("failed_task_" +:+ task_id (task a)) s) as (t1 & t2 & w' & ->).
    cbn [snd eco_of ctl set_economy economy]. by apply P_penalty.
Qed.

Lemma gen_preserves_run_cycle n : preserves P (run_cycle n).
Proof.
  unfold run_cycle.
  apply preserves_bind; [apply frame_preserves; frame_tac|intros _].
  apply preserves_bind; [apply frame_preserves, frame_generate_tasks|intros tasks].
  apply preserves_bind; [apply frame_preserves, frame_assign|intros rs].
  apply preserves_bind; [apply frame_preserves, frame_execute|intros results].
  apply preserves_bind; [apply frame_preserves, frame_evaluate|intros ev].
  apply preserves_bind; [|intros _; apply frame_preserves; frame_tac].
  unfold update_economy. apply preserves_bind.
  - apply preserves_for_each, gen_preserves_update_economy_step.
  - intros _. apply frame_preserves. frame_tac.
Qed.

Lemma gen_init_agents (l : list string) b s :
  NoDup l -> P (eco_of s) ->
  (forall a, a ∈ l -> agent_balances (eco_of s) !! a = None) ->
  P (eco_of (snd (for_each l (fun a => initialize_agent a b) s))).
Proof.
  revert s. induction l as [|a l IH]; intros s Hnd Hok Hfresh; [done|].
  cbn [for_each]. unfold mbind at 1, M_bind at 1.
  destruct (initialize_agent_spec a b s) as (t & w' & ->).
  apply NoDup_cons in Hnd as [Hnotin Hnd].
  apply IH; [done| |].
  - cbn [eco_of ctl set_economy economy]. apply P_init; [done|].
    apply Hfresh. left.
  - intros a' Ha'. cbn [eco_of ctl set_economy economy agent_balances].
    rewrite lookup_insert_ne by (intros ->; contradiction).
    apply Hfresh. by right.
Qed.

Lemma gen_reachable s : reachable s -> P (eco_of s).
Proof.
  induction 1 as [s ags b Hnd|s n _ IH].
  - unfold controller_init, mbind at 1, M_bind at 1, modify at 1.
    cbn -[for_each initialize_agent].
    apply gen_init_agents; [done|apply P_new|].
    intros a _. apply lookup_empty.
  - by apply gen_preserves_run_cycle.
Qed.

Lemma gen_run_eco_ops os s known :
  P (eco_of s) ->
  (forall a, a ∉ known -> agent_balances (eco_of s) !! a = None) ->
  inits_fresh known os ->
  P (eco_of (snd (run_eco_ops os s))).
Proof.
  unfold run_eco_ops.
  revert s known. induction os as [|o os IH]; intros s known Hok Hdom Hfr; [done|].
  cbn [for_each]. unfold mbind at 1, M_bind at 1.
  destruct o as [a b|a amt r|a amt r]; cbn [run_eco_op].
  - destruct Hfr as [Hnk Hfr].
    destruct (initialize_agent_spec a b s) as (t & w' & ->).
    apply (IH _ (a :: known)); [|cbn [eco_of ctl set_economy economy agent_balances]|done].
    + apply P_init; auto.
    + intros a' Ha'. apply not_elem_of_cons in Ha' as [Hne Ha'].
      rewrite lookup_insert_ne by congruence. auto.
  - destruct (add_reward_spec a amt r s) as (t1 & t2 & w' & ->).
    apply (IH _ (a :: known)); [|cbn [eco_of ctl set_economy economy agent_balances]|done].
    + by apply P_reward.
    + intros a' Ha'. apply not_elem_of_cons in Ha' as [Hne Ha'].
      rewrite lookup_insert_ne by congruence. auto.
  - destruct (deduct_penalty_spec a amt r s) as (t1 & t2 & w' & ->).
    apply (IH _ (a :: known)); [|cbn [eco_of ctl set_economy economy agent_balances]|done].
    + by apply P_penalty.
    + intros a' Ha'. apply not_elem_of_cons in Ha' as [Hne Ha'].
      rewrite lookup_insert_ne by congruence. auto.
Qed.

End LedgerInvariant.

Lemma ledger_replay_new : ledger_replay Economy_new.
Proof. intros a. apply lookup_empty. Qed.

Lemma entries_ok_new : entries_ok Economy_new.
Proof. intros a. cbn. rewrite lookup_empty. done. Qed.

Lemma run_eco_ops_replay os s :
  ledger_replay (eco_of s) -> ledger_replay (eco_of (snd (run_eco_ops os s))).
Proof.
  unfold run_eco_ops.
  revert s. induction os as [|o os IH]; intros s Hr; [done|].
  cbn [for_each]. unfold mbind at 1, M_bind at 1.
  destruct o as [a b|a amt r|a amt r]; cbn [run_eco_op].
  - destruct (initialize_agent_spec a b s) as (t & w' & ->).
    apply IH. by apply ledger_replay_init.
  - destruct (add_reward_spec a amt r s) as (t1 & t2 & w' & ->).
    apply IH. by apply (ledger_replay_tx _ a TxReward).
  - destruct (deduct_penalty_spec a amt r s) as (t1 & t2 & w' & ->).
    apply IH. by apply (ledger_replay_tx _ a TxPenalty).
Qed.

Lemma reachable_ledger_replay s : reachable s -> ledger_replay (eco_of s).
Proof.
  apply gen_reachable.
  - intros e agent b t Hr _. by apply ledger_replay_init.
  - intros e agent ty amt t1 t2 r Hty Hr. by apply ledger_replay_tx.
  - apply ledger_replay_new.
Qed.

Lemma reachable_entries_ok s : reachable s -> entries_ok (eco_of s).
Proof.
  apply gen_reachable.
  - intros e agent b t Hok Hn. by apply entries_ok_init.
  - intros e agent ty amt t1 t2 r Hty Hok. by apply entries_ok_tx.
  - apply entries_ok_new.
Qed.

Lemma run_eco_ops_entries_ok os s :
  eco_of s = Economy_new -> inits_fresh [] os ->
  entries_ok (eco_of (snd (run_eco_ops os s))).
Proof.
  intros Hnew Hfr. apply (gen_run_eco_ops entries_ok) with (known := []); [..|done].
  - intros e agent b t Hok Hn. by apply entries_ok_init.
  - intros e agent ty amt t1 t2 r Hty Hok. by apply entries_ok_tx.
  - rewrite Hnew. apply entries_ok_new.
  - intros a _. rewrite Hnew. apply lookup_empty.
Qed.

(** C1 (amended). Starting from a fresh [Economy], after any sequence of
    [initialize_agent], [add_reward] and [deduct_penalty] calls, the
    balance of every agent is what its log entries give when replayed in
    order (an initialization sets the balance, a reward adds its amount, a
    penalty subtracts it), and an agent without a balance replays to none;
    when [initialize_agent] is only called for agents not yet seen, the
    first entry of every agent with a balance is its only initialization
    and its balance is the initial amount with its later rewards added and
    penalties subtracted one at a time in log order, while an agent without
    a balance has no entry. Both hold in every state of a controller built
    from a dict of agents and driven by any number of cycles. *)
Theorem ledger_invariant s :
  (eco_of s = Economy_new -> forall os,
     ledger_replay (eco_of (snd (run_eco_ops os s))) /\
     (inits_fresh [] os -> ledger_seq (eco_of (snd (run_eco_ops os s))))) /\
  (reachable s -> ledger_replay (eco_of s) /\ ledger_seq (eco_of s)).
Proof.
  split.
  - intros Hnew os.
    assert (Hr : ledger_replay (eco_of (snd (run_eco_ops os s)))).
    { apply run_eco_ops_replay. rewrite Hnew. apply ledger_replay_new. }
    split; [done|]. intros Hfr. apply ledger_seq_of; [done|].
    by apply run_eco_ops_entries_ok.
  - intros Hreach.
    pose proof (reachable_ledger_replay s Hreach) as Hr.
    split; [done|]. apply ledger_seq_of; [done|]. by apply reachable_entries_ok.
Qed.

(** *** assign *)

Lemma assign_loop_spec ags ids tasks : forall idx acc s,
  ids <> [] -> (forall k, k ∈ ids -> is_Some (dict_get k ags)) ->
  exists objs s',
    assign_loop ags ids idx tasks acc s =
      (inr (acc ++ seq (length (heap s)) (length tasks)), s') /\
    heap s' = heap s ++ objs /\
    map triple objs = zip_with (rr_step ags ids) (seq idx (length tasks)) tasks /\
    Forall fresh_assignment objs /\
    ctl s' = set_assignment_history
               (assignment_history (ctl s) ++ seq (length (heap s)) (length tasks)) (ctl s).
Proof.
  induction tasks as [|t tasks IH]; intros idx acc s Hne Hd.
  - exists [], s. cbn. rewrite !app_nil_r. repeat split; [constructor|].
    by destruct (ctl s).
  - cbn [assign_loop].
    assert (idx mod length ids < length ids)%nat as Hlt.
    { apply Nat.mod_upper_bound. destruct ids; [done|]. cbn. lia. }
    destruct (lookup_lt_is_Some_2 ids _ Hlt) as [a Ha]. rewrite Ha.
    destruct (Hd a) as [u Hu]; [by eapply list_elem_of_lookup_2|]. rewrite Hu.
    unfold AgentAssignment_new, mbind, M_bind, mret, M_ret, modify, print, alloc, now.
    cbn -[assign_loop]. destruct (env_now (world s)) as [ts w'].
    cbn -[assign_loop].
    edestruct IH as (objs & s' & Hrun & Hh & Hm & Hf & Hc); [done|done|].
    rewrite Hrun. cbn [heap set_stdout set_ctl set_heap set_world] in *.
    eexists (_ :: objs), s'. split; [|split; [|split; [|split]]].
    + rewrite length_app. cbn. rewrite <- app_assoc, Nat.add_1_r. reflexivity.
    + rewrite Hh, <- app_assoc. reflexivity.
    + cbn. rewrite Hm. f_equal. unfold rr_step, triple. cbn.
      rewrite (list_lookup_total_correct _ _ _ Ha), Hu. reflexivity.
    + constructor; [|done]. repeat split.
    + rewrite Hc. unfold set_assignment_history. cbn. rewrite length_app, <- app_assoc.
      cbn. do 4 f_equal. lia.
Qed.

Lemma dict_get_elem k (d : list (string * string)) :
  k ∈ map fst d -> is_Some (dict_get k d).
Proof.
  induction d as [|[k' v] d IH]; cbn; [by intros ?%elem_of_nil|].
  intros [->|Hin]%elem_of_cons; case_decide; eauto; congruence.
Qed.

Lemma assign_spec tasks s :
  map fst (agents (ctl s)) <> [] ->
  exists objs s',
    assign tasks s = (inr (seq (length (heap s)) (length tasks)), s') /\
    heap s' = heap s ++ objs /\
    map triple objs = round_robin (agents (ctl s)) tasks /\
    Forall fresh_assignment objs /\
    agents (ctl s') = agents (ctl s).
Proof.
  intros Hne. unfold assign, mbind at 1, M_bind at 1, gets at 1.
  cbn -[assign_loop print decide]. rewrite decide_False by done.
  destruct (assign_loop_spec (agents (ctl s)) (map fst (agents (ctl s))) tasks 0 [] s)
    as (objs & s' & Hrun & Hh & Hm & Hf & Hc); [done|intros k; apply dict_get_elem|].
  unfold mbind, M_bind. rewrite Hrun. cbn.
  exists objs, (set_stdout (stdout s' ++ ["Assigned " +:+ pretty (length (seq (length (heap s)) (length tasks))) +:+ " tasks"]) s').
  repeat split; try done. cbn [ctl set_stdout]. by rewrite Hc.
Qed.

Lemma assign_no_agents tasks s :
  map fst (agents (ctl s)) = [] ->
  assign tasks s = (inr [], set_stdout (stdout s ++ ["No agents available for assignment"]) s).
Proof.
  intros Hnil. unfold assign, mbind, M_bind, gets. cbn -[decide].
  rewrite decide_True by done. reflexivity.
Qed.

Lemma omap_heap_seq (h objs : list AgentAssignment) :
  omap (fun r => (h ++ objs) !! r) (seq (length h) (length objs)) = objs.
Proof.
  revert h. induction objs as [|o objs IH]; intros h; [done|].
  simpl. rewrite list_lookup_middle by done. f_equal.
  replace (h ++ o :: objs) with ((h ++ [o]) ++ objs) by (by rewrite <- app_assoc).
  replace (S (length h)) with (length (h ++ [o])) by (rewrite length_app; cbn; lia).
  apply IH.
Qed.

Lemma filter_length_map {A B} (f : A -> B) (P : B -> Prop)
    `{forall x, Decision (P x)} (l : list A) :
  length (filter P (map f l)) = length (filter (fun x => P (f x)) l).
Proof.
  induction l as [|x l IH]; [done|]. cbn [map].
  rewrite !filter_cons. case_decide; cbn; lia.
Qed.

Lemma rr_agents ags ids (l : list nat) (tasks : list Task) :
  length l = length tasks ->
  map (fun p => p.1.1) (zip_with (rr_step ags ids) l tasks) =
  map (fun i => ids !!! (i mod length ids)%nat) l.
Proof.
  revert tasks. induction l as [|i l IH]; intros [|t tasks] Hlen; try done.
  cbn. f_equal. apply IH. cbn in Hlen. lia.
Qed.

Lemma ceil_div N M :
  (0 < M)%nat -> ((N + M - 1) / M = N / M + (if decide (0 < N mod M) then 1 else 0))%nat.
Proof.
  intros HM. pose proof (Nat.div_mod_eq N M) as HN.
  pose proof (Nat.mod_upper_bound N M ltac:(lia)) as Hr.
  case_decide.
  - symmetry. apply (Nat.div_unique _ _ _ (N mod M - 1)); lia.
  - symmetry. apply (Nat.div_unique _ _ _ (M - 1)); lia.
Qed.

Lemma count_mod_seq (M j N : nat) :
  (0 < M)%nat -> (j < M)%nat ->
  length (filter (fun i => i mod M = j)%nat (seq 0 N)) =
  (N / M + (if decide (j < N mod M) then 1 else 0))%nat.
Proof.
  intros HM Hj. induction N as [|N IH].
  - rewrite Nat.Div0.div_0_l, Nat.Div0.mod_0_l. by rewrite decide_False by lia.
  - rewrite seq_S, filter_app, length_app, IH, Nat.add_0_l.
    pose proof (Nat.div_mod_eq N M) as HN.
    pose proof (Nat.mod_upper_bound N M ltac:(lia)) as Hr.
    destruct (decide (N mod M + 1 < M)%nat) as [Hlt|Hge].
    + assert (S N / M = N / M)%nat as ->
        by (symmetry; apply (Nat.div_unique _ _ _ (N mod M + 1)); lia).
      assert (S N mod M = N mod M + 1)%nat as ->
        by (symmetry; apply (Nat.mod_unique _ _ (N / M)); lia).
      destruct (decide (N mod M = j)%nat);
        [rewrite filter_cons_True by done|rewrite filter_cons_False by done];
        rewrite filter_nil; repeat case_decide; cbn [length]; lia.
    + assert (S N / M = S (N / M))%nat as ->
        by (symmetry; apply (Nat.div_unique _ _ _ 0); lia).
      assert (S N mod M = 0)%nat as ->
        by (symmetry; apply (Nat.mod_unique _ _ (S (N / M))); lia).
      destruct (decide (N mod M = j)%nat);
        [rewrite filter_cons_True by done|rewrite filter_cons_False by done];
        rewrite filter_nil; repeat case_decide; cbn [length]; lia.
Qed.

Lemma map_lookup {A B} (f : A -> B) (l : list A) i : map f l !! i = f <$> l !! i.
Proof. revert i. induction l as [|x l IH]; intros [|i]; cbn; auto. Qed.

Lemma round_robin_length ags tasks : length (round_robin ags tasks) = length tasks.
Proof. unfold round_robin. rewrite length_zip_with, length_seq. lia. Qed.

Lemma round_robin_lookup ags tasks i t :
  tasks !! i = Some t ->
  round_robin ags tasks !! i = Some (rr_step ags (map fst ags) i t).
Proof.
  intros Ht. unfold round_robin. rewrite lookup_zip_with.
  rewrite lookup_seq_lt by (eapply lookup_lt_Some; eauto). cbn. by rewrite Ht.
Qed.

Lemma round_robin_count ags tasks objs j a :
  map triple objs = round_robin ags tasks ->
  NoDup (map fst ags) -> map fst ags !! j = Some a ->
  length (filter (fun x => agent_id x = a) objs) =
  (length tasks / length (map fst ags)
   + (if decide (j < length tasks mod length (map fst ags)) then 1 else 0))%nat.
Proof.
  intros Hm Hnd Hj. set (ids := map fst ags) in *.
  assert (HM : (0 < length ids)%nat) by (apply lookup_lt_Some in Hj; lia).
  assert (Hjm : (j < length ids)%nat) by (eapply lookup_lt_Some; eauto).
  rewrite <- (count_mod_seq (length ids) j (length tasks)) by done.
  transitivity (length (filter (fun y => y = a) (map agent_id objs))).
  { by rewrite filter_length_map. }
  replace (map agent_id objs) with (map (fun p => p.1.1) (map triple objs))
    by (rewrite map_map; reflexivity).
  rewrite Hm. unfold round_robin. rewrite rr_agents by (rewrite length_seq; done).
  rewrite filter_length_map. f_equal. apply list_filter_iff. intros i. split.
  - intros Hi. unfold ids in *. assert (Hlt : (i mod length (map fst ags) < length (map fst ags))%nat)
      by (apply Nat.mod_upper_bound; lia).
    apply (NoDup_lookup (map fst ags) _ _ a); [done| |done].
    rewrite <- Hi. by apply list_lookup_lookup_total_lt.
  - intros Hi. unfold ids in *. rewrite Hi. by apply list_lookup_total_correct.
Qed.

(** C3. With a non-empty dict of agents (distinct keys by construction of
    a dict), [assign] returns one assignment per task, the task at index
    [i] going to the agent at position [i mod M] (with that agent's url);
    every agent receives [N / M] tasks plus one when its position is below
    [N mod M], hence either the floor or the ceiling of [N / M], and the
    counts of two agents differ by at most one. *)
Theorem assign_round_robin tasks s :
  let ags := agents (ctl s) in
  let ids := map fst ags in
  let M := length ids in
  let N := length tasks in
  ids <> [] -> NoDup ids ->
  exists refs, fst (assign tasks s) = inr refs /\
  let objs := omap (fun r => heap (snd (assign tasks s)) !! r) refs in
  length refs = N /\ length objs = N /\
  (forall i t, tasks !! i = Some t ->
     exists a, objs !! i = Some a /\ ids !! (i mod M)%nat = Some (agent_id a) /\
               dict_get (agent_id a) ags = Some (agent_url a) /\ task a = t) /\
  (forall j a, ids !! j = Some a ->
     let c := length (filter (fun x => agent_id x = a) objs) in
     c = (N / M + (if decide (j < N mod M) then 1 else 0))%nat /\
     (c = (N / M)%nat \/ c = ((N + M - 1) / M)%nat)) /\
  (forall j1 j2 a1 a2, ids !! j1 = Some a1 -> ids !! j2 = Some a2 ->
     (length (filter (fun x => agent_id x = a1) objs)
      <= length (filter (fun x => agent_id x = a2) objs) + 1)%nat).
Proof.
  intros ags ids M N Hne Hnd.
  destruct (assign_spec tasks s Hne) as (objs & s' & Hrun & Hh & Hm & _ & _).
  rewrite Hrun. cbn [fst snd]. eexists. split; [reflexivity|].
  fold ags in Hm.
  assert (Hlen : length objs = length tasks).
  { rewrite <- (length_map triple), Hm. apply round_robin_length. }
  assert (Hobjs : omap (fun r => heap s' !! r) (seq (length (heap s)) (length tasks)) = objs).
  { rewrite Hh, <- Hlen. apply omap_heap_seq. }
  cbv zeta. rewrite Hobjs. split; [apply length_seq|]. split; [done|].
  assert (HM : (0 < M)%nat) by (destruct ids; [done|cbn; lia]).
  split; [|split].
  - intros i t Ht.
    pose proof (round_robin_lookup ags tasks i t Ht) as Hr.
    rewrite <- Hm, map_lookup in Hr.
    destruct (objs !! i) as [a|] eqn:Ea; [|done]. exists a. split; [done|].
    cbn in Hr. injection Hr as Hid Hurl Htask.
    fold ids in Hid, Hurl. fold M in Hid, Hurl.
    assert (Hlt : (i mod M < M)%nat) by (apply Nat.mod_upper_bound; lia).
    split; [|split; [|done]].
    + rewrite Hid. by apply list_lookup_lookup_total_lt.
    + rewrite Hid, Hurl.
      destruct (dict_get_elem (ids !!! (i mod M)%nat) ags) as [u Hu].
      { apply list_elem_of_lookup_2 with (i mod M)%nat.
        by apply list_lookup_lookup_total_lt. }
      rewrite Hu. reflexivity.
  - intros j a Hj. cbv zeta.
    rewrite (round_robin_count ags tasks objs j a Hm Hnd Hj).
    split; [done|]. fold ids M N.
    rewrite (ceil_div N M HM).
    assert (Hjm : (j < M)%nat) by (eapply lookup_lt_Some; eauto).
    repeat case_decide; lia.
  - intros j1 j2 a1 a2 Hj1 Hj2.
    rewrite (round_robin_count ags tasks objs j1 a1 Hm Hnd Hj1),
      (round_robin_count ags tasks objs j2 a2 Hm Hnd Hj2).
    repeat case_decide; lia.
Qed.

Lemma rr_pairs ags ids (l : list nat) (tasks : list Task) :
  map (fun p => (p.1.1, p.2)) (zip_with (rr_step ags ids) l tasks) =
  zip_with (fun i t => (ids !!! (i mod length ids)%nat, t)) l tasks.
Proof.
  revert tasks. induction l as [|i l IH]; intros [|t tasks]; try done.
  cbn. f_equal. apply IH.
Qed.

(** C9. [assign] is deterministic: two runs from any two states (any
    world, clock, heap, history or economy) whose agent dicts have the same
    keys in the same order, on the same task list, both succeed and produce
    the same sequence of (agent id, task) pairs; with the same dict the
    assignments agree on the urls as well. *)
Theorem assign_deterministic tasks s1 s2 :
  map fst (agents (ctl s1)) = map fst (agents (ctl s2)) ->
  exists refs1 refs2,
    fst (assign tasks s1) = inr refs1 /\ fst (assign tasks s2) = inr refs2 /\
    length refs1 = length refs2 /\
    map (fun a => (agent_id a, task a))
        (omap (fun r => heap (snd (assign tasks s1)) !! r) refs1) =
    map (fun a => (agent_id a, task a))
        (omap (fun r => heap (snd (assign tasks s2)) !! r) refs2) /\
    (agents (ctl s1) = agents (ctl s2) ->
     map triple (omap (fun r => heap (snd (assign tasks s1)) !! r) refs1) =
     map triple (omap (fun r => heap (snd (assign tasks s2)) !! r) refs2)).
Proof.
  intros Hids.
  destruct (decide (map fst (agents (ctl s1)) = [])) as [Hnil|Hne].
  - assert (Hnil2 : map fst (agents (ctl s2)) = []) by congruence.
    rewrite (assign_no_agents tasks s1 Hnil), (assign_no_agents tasks s2 Hnil2).
    exists [], []. by repeat split.
  - assert (Hne2 : map fst (agents (ctl s2)) <> []) by congruence.
    destruct (assign_spec tasks s1 Hne) as (objs1 & s1' & Hrun1 & Hh1 & Hm1 & _ & _).
    destruct (assign_spec tasks s2 Hne2) as (objs2 & s2' & Hrun2 & Hh2 & Hm2 & _ & _).
    assert (Hlen1 : length objs1 = length tasks).
    { rewrite <- (length_map triple), Hm1. apply round_robin_length. }
    assert (Hlen2 : length objs2 = length tasks).
    { rewrite <- (length_map triple), Hm2. apply round_robin_length. }
    rewrite Hrun1, Hrun2. cbn [fst snd]. eexists _, _.
    split; [reflexivity|]. split; [reflexivity|].
    rewrite !length_seq. split; [reflexivity|].
    rewrite Hh1, Hh2, <- Hlen1, omap_heap_seq, Hlen1, <- Hlen2, omap_heap_seq.
    split.
    + replace (map (fun a => (agent_id a, task a)) objs1)
        with (map (fun p => (p.1.1, p.2)) (map triple objs1))
        by (rewrite map_map; reflexivity).
      replace (map (fun a => (agent_id a, task a)) objs2)
        with (map (fun p => (p.1.1, p.2)) (map triple objs2))
        by (rewrite map_map; reflexivity).
      rewrite Hm1, Hm2. unfold round_robin. rewrite !rr_pairs, Hids. reflexivity.
    + intros Hags. by rewrite Hm1, Hm2, Hags.
Qed.

Lemma update_spec r f s a :
  heap s !! r = Some a ->
  update r f s = (inr tt, set_heap (<[r := f a]> (heap s)) s).
Proof. intros Ha. unfold update, load, store, mbind, M_bind, modify. by rewrite Ha. Qed.

Lemma execute_handler_eq r e :
  (match e with
  | Timeout _ =>
      update r (set_success false);;
      update r (set_result (Some (error_json "timeout")))
  | ConnectionError _ =>
      update r (set_success false);;
      update r (set_result (Some (error_json "connection_error")))
  | _ =>
      update r (set_success false);;
      update r (set_result (Some (error_json (exc_str e))))
  end : M unit) =
  (update r (set_success false);;
   update r (set_result (Some (error_json (failure_msg e))))).
Proof. by destruct e. Qed.

Lemma execute_handler_spec r a e s :
  heap s !! r = Some a ->
  (update r (set_success false);;
   update r (set_result (Some (error_json (failure_msg e))))) s =
  (inr tt, set_heap (<[r := set_result (Some (error_json (failure_msg e)))
                             (set_success false a)]> (heap s)) s).
Proof.
  intros Ha. assert (Hr : (r < length (heap s))%nat) by (eapply lookup_lt_Some; eauto).
  unfold mbind at 1, M_bind at 1. rewrite (update_spec _ _ _ a) by done.
  rewrite (update_spec _ _ _ (set_success false a))
    by (cbn [heap set_heap]; by apply list_lookup_insert_eq).
  cbn [heap set_heap]. by rewrite list_insert_insert_eq.
Qed.

Lemma bind_inl {A B} (m : M A) (k : A -> M B) s e s' :
  m s = (inl e, s') -> (m ≫= k) s = (inl e, s').
Proof. intros Hm. unfold mbind, M_bind. by rewrite Hm. Qed.

Lemma bind_inr {A B} (m : M A) (k : A -> M B) s a s' :
  m s = (inr a, s') -> (m ≫= k) s = k a s'.
Proof. intros Hm. unfold mbind, M_bind. by rewrite Hm. Qed.

Lemma try_inl {A} (m : M A) h s e s' :
  m s = (inl e, s') -> try_except m h s = h e s'.
Proof. intros Hm. unfold try_except. by rewrite Hm. Qed.

Lemma try_inr {A} (m : M A) h s a s' :
  m s = (inr a, s') -> try_except m h s = (inr a, s').
Proof. intros Hm. unfold try_except. by rewrite Hm. Qed.

Lemma execute_one_spec r a s :
  heap s !! r = Some a ->
  exists a' s', execute_one r s = (inr tt, s') /\
    heap s' = <[r := a']> (heap s) /\ ctl s' = ctl s /\
    agent_id a' = agent_id a /\ agent_url a' = agent_url a /\
    task a' = task a /\ assigned_at a' = assigned_at a /\
    (forall e w', env_post (agent_url a +:+ "/run_task") (dispatch_body a) (world s) = (inl e, w') ->
       a' = set_result (Some (error_json (failure_msg e))) (set_success false a)) /\
    ((success a' = true /\ exists j ts, result a' = Some j /\ completed_at a' = Some ts) \/
     (success a' = false /\ completed_at a' = completed_at a /\
      exists e, result a' = Some (error_json (failure_msg e)))).
Proof.
  intros Ha. assert (Hr : (r < length (heap s))%nat) by (eapply lookup_lt_Some; eauto).
  unfold execute_one. rewrite (bind_inr _ _ s a s) by (unfold load; by rewrite Ha).
  fold (dispatch_body a).
  destruct (env_post (agent_url a +:+ "/run_task") (dispatch_body a) (world s))
    as [[e|resp] w'] eqn:Ep.
  - erewrite try_inl; [|apply bind_inl; unfold requests_post; rewrite Ep; reflexivity].
    rewrite execute_handler_eq, (execute_handler_spec r a) by done.
    eexists _, _. split; [reflexivity|]. cbn [heap set_heap ctl set_world].
    split; [done|]. split; [done|]. do 4 (split; [done|]).
    split; [intros e' w'' [= -> ->]; done|].
    right. split; [done|]. split; [done|]. by exists e.
  - assert (Hpost : requests_post (agent_url a +:+ "/run_task") (dispatch_body a) s
                    = (inr resp, set_world w' s)) by (unfold requests_post; by rewrite Ep).
    assert (Ha' : heap (set_world w' s) !! r = Some a) by done.
    assert (Hfail : forall e, exists a' s',
      (update r (set_success false);;
       update r (set_result (Some (error_json (failure_msg e))))) (set_world w' s) = (inr tt, s') /\
      heap s' = <[r := a']> (heap s) /\ ctl s' = ctl s /\
      agent_id a' = agent_id a /\ agent_url a' = agent_url a /\
      task a' = task a /\ assigned_at a' = assigned_at a /\
      success a' = false /\ completed_at a' = completed_at a /\
      exists e, result a' = Some (error_json (failure_msg e))).
    { intros e. rewrite (execute_handler_spec r a) by done.
      eexists _, _. split; [reflexivity|]. cbn [heap set_heap ctl set_world].
      do 8 (split; [done|]). by exists e. }
    assert (Hrfs : exists x, raise_for_status resp (set_world w' s) = (x, set_world w' s))
      by (unfold raise_for_status; repeat case_decide; eauto).
    destruct Hrfs as [[e|[]] Hrfs].
    { destruct (Hfail e) as (a' & s' & Hrun & Hrest).
      exists a', s'. erewrite try_inl.
      2:{ rewrite (bind_inr _ _ _ _ _ Hpost). apply bind_inl, Hrfs. }
      cbv beta. rewrite execute_handler_eq.
      split; [exact Hrun|]. naive_solver. }
    assert (Hj : exists x, response_json resp (set_world w' s) = (x, set_world w' s))
      by (unfold response_json; destruct (resp_body resp); eauto).
    destruct Hj as [[e|j] Hj].
    { destruct (Hfail e) as (a' & s' & Hrun & Hrest).
      exists a', s'. erewrite try_inl.
      2:{ rewrite (bind_inr _ _ _ _ _ Hpost), (bind_inr _ _ _ _ _ Hrfs). apply bind_inl, Hj. }
      cbv beta. rewrite execute_handler_eq.
      split; [exact Hrun|]. naive_solver. }
    destruct (env_now w') as [ts w''] eqn:En.
    eexists (set_completed_at (Some ts) (set_success true (set_result (Some j) a))), _.
    split.
    { erewrite try_inr; [reflexivity|].
      rewrite (bind_inr _ _ _ _ _ Hpost), (bind_inr _ _ _ _ _ Hrfs), (bind_inr _ _ _ _ _ Hj).
      erewrite bind_inr; [|apply update_spec; exact Ha'].
      erewrite bind_inr.
      2:{ apply update_spec. cbn [heap set_heap]. by apply list_lookup_insert_eq. }
      erewrite bind_inr.
      2:{ unfold now. cbn [world set_heap set_world]. rewrite En. reflexivity. }
      apply update_spec. cbn [heap set_heap set_world].
      apply list_lookup_insert_eq. by rewrite length_insert. }
    cbn [heap set_heap set_world ctl]. rewrite !list_insert_insert_eq.
    do 6 (split; [done|]). split; [intros ? ? [=]|].
    left. split; [done|]. eauto.
Qed.

Lemma execute_loop_spec refs acc s :
  Forall (fun r => is_Some (heap s !! r)) refs ->
  exists s', execute_loop refs acc s = (inr (acc ++ refs), s') /\
    length (heap s') = length (heap s) /\ ctl s' = ctl s /\
    (forall r, r ∉ refs -> heap s' !! r = heap s !! r) /\
    (forall r, r ∈ refs -> exists a, heap s' !! r = Some a /\ dispatched a).
Proof.
  revert acc s. induction refs as [|r refs IH]; intros acc s Hv.
  - exists s. rewrite app_nil_r. split; [done|]. split; [done|]. split; [done|].
    split; [done|]. intros r Hr. by apply elem_of_nil in Hr.
  - apply Forall_cons in Hv as [[a Ha] Hv].
    destruct (execute_one_spec r a s Ha)
      as (a' & s1 & Hrun & Hh & Hc & _ & _ & _ & _ & _ & Hout).
    assert (Hr : (r < length (heap s))%nat) by (eapply lookup_lt_Some; eauto).
    assert (Hv1 : Forall (fun r => is_Some (heap s1 !! r)) refs).
    { eapply Forall_impl; [exact Hv|]. intros r' [b Hb]. rewrite Hh.
      destruct (decide (r = r')) as [<-|Hne].
      - rewrite list_lookup_insert_eq by done. eauto.
      - rewrite list_lookup_insert_ne by done. eauto. }
    destruct (IH (acc ++ [r]) s1 Hv1) as (s' & Hrun' & Hlen & Hc' & Hframe & Hdone).
    exists s'. cbn [execute_loop]. rewrite (bind_inr _ _ _ _ _ Hrun), Hrun'.
    rewrite <- app_assoc. split; [done|].
    split; [by rewrite Hlen, Hh, length_insert|]. split; [congruence|]. split.
    + intros r' Hr'. apply not_elem_of_cons in Hr' as [Hne Hr'].
      rewrite Hframe, Hh by done. by apply list_lookup_insert_ne.
    + intros r' Hr'. destruct (decide (r' ∈ refs)) as [Hin|Hnin]; [by apply Hdone|].
      apply elem_of_cons in Hr' as [->|Hin]; [|done].
      exists a'. rewrite Hframe, Hh by done. rewrite list_lookup_insert_eq by done.
      split; [done|]. unfold dispatched.
      destruct Hout as [(Hs & j & ts & Hres & _)|(Hs & _ & e & Hres)];
        rewrite Hres; (split; [done|]); rewrite Hs; [done|]. eauto.
Qed.

(** C4. Given assignment references that all point into the heap,
    [execute] returns the very list it was given, so no failing dispatch
    aborts the batch; at its end every assignment carries a result, and an
    unsuccessful one carries [{"error": m}].  When [requests.post] raises
    [e] for an assignment, its dispatch ends normally with [success =
    false] and result [{"error": failure_msg e}]: ["timeout"] for a
    [Timeout], ["connection_error"] for a [ConnectionError], and [str(e)]
    for any other exception. *)
Theorem execute_isolation_classification refs s :
  Forall (fun r => is_Some (heap s !! r)) refs ->
  (exists s', execute refs s = (inr refs, s') /\ ctl s' = ctl s /\
     forall r, r ∈ refs -> exists a, heap s' !! r = Some a /\
       result a <> None /\
       (success a = false -> exists e, result a = Some (error_json (failure_msg e)))) /\
  (forall r a e w', heap s !! r = Some a ->
     env_post (agent_url a +:+ "/run_task") (dispatch_body a) (world s) = (inl e, w') ->
     exists s', execute_one r s = (inr tt, s') /\
       heap s' !! r = Some (set_result (Some (error_json (failure_msg e))) (set_success false a)) /\
       failure_msg e = match e with
                       | Timeout _ => "timeout"
                       | ConnectionError _ => "connection_error"
                       | _ => exc_str e
                       end).
Proof.
  intros Hv. split.
  - destruct (execute_loop_spec refs [] s Hv) as (s' & Hrun & _ & Hc & _ & Hdone).
    exists s'. unfold execute. rewrite Hrun. split; [done|]. split; [done|].
    intros r Hr. destruct (Hdone r Hr) as (a & Ha & Hres & Hs). eauto.
  - intros r a e w' Ha Ep.
    destruct (execute_one_spec r a s Ha)
      as (a' & s' & Hrun & Hh & _ & _ & _ & _ & _ & Hfail & _).
    exists s'. split; [done|]. split; [|done].
    rewrite Hh, (Hfail e w' Ep). apply list_lookup_insert_eq.
    by eapply lookup_lt_Some.
Qed.

Lemma count_successful_spec refs s :
  Forall (fun r => is_Some (heap s !! r)) refs ->
  count_successful refs s =
  (inr (length (filter (fun a => success a = true)
                  (omap (fun r => heap s !! r) refs))), s).
Proof.
  induction refs as [|r refs IH]; intros Hv; [done|].
  apply Forall_cons in Hv as [[a Ha] Hv].
  cbn [count_successful]. rewrite (bind_inr _ _ s a s) by (unfold load; by rewrite Ha).
  rewrite (bind_inr _ _ s _ s) by (by apply IH).
  cbn [omap list_omap]. rewrite Ha, filter_cons. destruct (success a); reflexivity.
Qed.

(** C5. On assignment references that all point into the heap, [evaluate]
    always returns a summary (the [ZeroDivisionError] of the division is
    never raised) whose [total_tasks] is the number of assignments, whose
    [successful] counts the successful ones and satisfies [successful +
    failed = total_tasks], and whose [success_rate] is [round(successful /
    total * 100, 2)] when [total > 0] and 0 otherwise; it leaves the heap
    and the controller unchanged. *)
Theorem evaluate_totals refs s :
  Forall (fun r => is_Some (heap s !! r)) refs ->
  exists ev s', evaluate refs s = (inr ev, s') /\
    heap s' = heap s /\ ctl s' = ctl s /\
    total_tasks ev = length refs /\
    successful ev = length (filter (fun a => success a = true)
                              (omap (fun r => heap s !! r) refs)) /\
    (successful ev + failed ev = total_tasks ev)%nat /\
    (if decide (0 < total_tasks ev)%nat
     then success_rate ev = round2 (inject_Z (Z.of_nat (successful ev)) /
                                    inject_Z (Z.of_nat (total_tasks ev)) * 100)
     else success_rate ev == 0).
Proof.
  intros Hv.
  set (objs := omap (fun r => heap s !! r) refs).
  assert (Hle : (length (filter (fun a => success a = true) objs) <= length refs)%nat).
  { transitivity (length objs); [apply length_filter|].
    unfold objs. clear Hv objs. induction refs as [|r refs IH]; [done|].
    cbn [omap list_omap]. destruct (heap s !! r); cbn; lia. }
  unfold evaluate. rewrite (bind_inr _ _ s _ s) by (by apply count_successful_spec).
  fold objs.
  destruct (decide (0 < length refs)%nat) as [Hpos|Hz].
  - erewrite bind_inr.
    2:{ erewrite bind_inr; [reflexivity|]. unfold py_truediv.
        destruct (Qeq_bool _ 0) eqn:Eq; [|reflexivity].
        apply Qeq_bool_eq in Eq. change 0 with (inject_Z 0) in Eq.
        apply (proj1 (inject_Z_injective _ _)) in Eq. lia. }
    destruct (env_now (world s)) as [ts w'] eqn:En.
    erewrite bind_inr; [|unfold now; rewrite En; reflexivity].
    eexists _, _. split; [reflexivity|]. cbn.
    do 4 (split; [done|]). split; [lia|]. by rewrite decide_True by done.
  - rewrite (bind_inr _ _ s _ s) by reflexivity.
    destruct (env_now (world s)) as [ts w'] eqn:En.
    erewrite bind_inr; [|unfold now; rewrite En; reflexivity].
    eexists _, _. split; [reflexivity|]. cbn [heap ctl set_world total_tasks successful failed success_rate].
    do 4 (split; [done|]). split; [lia|]. rewrite decide_False by done.
    reflexivity.
Qed.

(** *** Frames of a projection of the state *)

Section Frames.

Context {B : Type} (p : Sys (W:=W) -> B).
Hypothesis p_world : forall w s, p (set_world w s) = p s.

Lemma frames_bind {A C} (m : M A) (k : A -> M C) :
  frames p m -> (forall a, frames p (k a)) -> frames p (m ≫= k).
Proof.
  intros Hm Hk s. unfold mbind, M_bind. specialize (Hm s).
  destruct (m s) as [[e|a] s'] eqn:E; cbn in *; [done|]. by rewrite Hk.
Qed.

Lemma frames_try {A} (m : M A) (h : PyExc -> M A) :
  frames p m -> (forall e, frames p (h e)) -> frames p (try_except m h).
Proof.
  intros Hm Hh s. unfold try_except. specialize (Hm s).
  destruct (m s) as [[e|a] s'] eqn:E; cbn in *; [|done]. by rewrite Hh.
Qed.

Lemma frames_modify (f : Sys -> Sys) :
  (forall s, p (f s) = p s) -> frames p (modify f).
Proof. done. Qed.

Lemma frames_ret {A} (a : A) : frames p (mret a).
Proof. done. Qed.

Lemma frames_raise {A} e : frames p (raise (A:=A) e).
Proof. done. Qed.

Lemma frames_gets {A} (f : Sys -> A) : frames p (gets f).
Proof. done. Qed.

Lemma frames_now : frames p now.
Proof. intros s. unfold now. destruct (env_now (world s)). apply p_world. Qed.

Lemma frames_load r : frames p (load r).
Proof. intros s. unfold load. by destruct (heap s !! r). Qed.

Lemma frames_requests_post url body : frames p (requests_post url body).
Proof.
  intros s. unfold requests_post. destruct (env_post url body (world s)). apply p_world.
Qed.

Lemma frames_random_choice l : frames p (random_choice l).
Proof.
  intros s. unfold random_choice.
  destruct (env_randbelow (length l) (world s)), (l !! _); apply p_world.
Qed.

Lemma frames_random_uniform a b : frames p (random_uniform a b).
Proof. intros s. unfold random_uniform. destruct (env_random (world s)). apply p_world. Qed.

End Frames.

Ltac frames_tac :=
  repeat match goal with
  | |- frames _ (mbind _ _) => apply frames_bind; [|intros ?]
  | |- frames _ (try_except _ _) => apply frames_try; [|intros ?]
  | |- frames _ (mret _) => apply frames_ret
  | |- frames _ (raise _) => apply frames_raise
  | |- frames _ (gets _) => apply frames_gets
  | |- frames _ now => apply frames_now; intros ? ?; reflexivity
  | |- frames _ (load _) => apply frames_load
  | |- frames _ (requests_post _ _) => apply frames_requests_post; intros ? ?; reflexivity
  | |- frames _ (random_choice _) => apply frames_random_choice; intros ? ?; reflexivity
  | |- frames _ (random_uniform _ _) => apply frames_random_uniform; intros ? ?; reflexivity
  | |- frames _ (modify _) => apply frames_modify; intros ?; reflexivity
  | |- frames _ (print _) => apply frames_modify; intros ?; reflexivity
  | |- frames _ get_eco => apply frames_gets
  | |- frames _ (put_eco _) => apply frames_modify; intros ?; reflexivity
  | |- frames _ get_all_balances => unfold get_all_balances
  | |- frames _ (append_tx _) => unfold append_tx
  | |- frames _ (set_balance _ _) => unfold set_balance
  | |- frames _ (read_balance _) => unfold read_balance
  | |- frames _ (initialize_agent _ _) => unfold initialize_agent
  | |- frames _ (add_reward _ _ _) => unfold add_reward
  | |- frames _ (deduct_penalty _ _ _) => unfold deduct_penalty
  | |- frames _ (py_truediv _ _) => unfold py_truediv
  | |- frames _ (match ?x with _ => _ end) => destruct x
  | |- frames _ (if ?x then _ else _) => destruct x
  | IH : frames _ _ |- frames _ _ => apply IH
  | IH : forall _, frames _ _ |- frames _ _ => apply IH
  | IH : forall _ _, frames _ _ |- frames _ _ => apply IH
  end.

Lemma frames_for_each {B} (p : Sys (W:=W) -> B) {A} (l : list A) (body : A -> M unit) :
  (forall x, frames p (body x)) -> frames p (for_each l body).
Proof.
  intros Hb. induction l as [|x l IH]; cbn [for_each]; frames_tac.
Qed.

Lemma heap_frame_evaluate rs : frames heap (evaluate rs).
Proof.
  unfold evaluate. frames_tac.
  induction rs as [|r rs IH]; cbn [count_successful]; frames_tac.
Qed.

Lemma heap_frame_update_economy rs : frames heap (update_economy rs).
Proof.
  unfold update_economy. frames_tac. apply frames_for_each. intros r.
  unfold update_economy_step. frames_tac.
Qed.

Lemma round2_range u :
  1#10 <= u <= 1 -> exists k, round2 u = Qmake k 100 /\ (10 <= k <= 100)%Z.
Proof.
  intros [Hlo Hhi]. unfold round2.
  set (y := u * 100). set (n := Qfloor y).
  assert (Hy : 10 <= y <= 100) by (unfold y; split; lra).
  assert (Hn1 : (10 <= n)%Z).
  { change 10%Z with (Qfloor 10). apply Qfloor_resp_le. lra. }
  assert (Hn2 : (n <= 100)%Z).
  { change 100%Z with (Qfloor 100). apply Qfloor_resp_le. lra. }
  assert (Hfl : inject_Z n <= y) by apply Qfloor_le.
  assert (Hlt : forall d, y - inject_Z n == d -> 0 < d -> (n < 100)%Z).
  { intros d Hd Hpos. rewrite Zlt_Qlt. change (inject_Z 100) with (100#1). lra. }
  eexists. split; [reflexivity|].
  destruct (Qeq_bool _ _) eqn:E1; [destruct (Z.even n)|destruct (Qle_bool _ _) eqn:E2];
    try lia.
  - apply Qeq_bool_eq in E1. assert (n < 100)%Z by (apply (Hlt _ E1); reflexivity). lia.
  - assert (E3 : ~ (y - inject_Z n <= 1#2)) by (intros Hle%Qle_bool_iff; congruence).
    assert (Hpos : 0 < y - inject_Z n) by lra.
    specialize (Hlt _ (Qeq_refl _) Hpos). lia.
Qed.

Lemma set_task_history_twice l1 l2 c :
  set_task_history l2 (set_task_history l1 c) = set_task_history l2 c.
Proof. by destruct c. Qed.

Lemma generate_task_spec i s :
  randbelow_ok ->
  exists t s', generate_task i s = (inr t, s') /\
    heap s' = heap s /\
    ctl s' = set_task_history (task_history (ctl s) ++ [t]) (ctl s) /\
    task_id t = task_id_str (cycle_count (ctl s)) i /\
    (exists w, complexity t = round2 ((1#10) + (1 - (1#10)) * fst (env_random w))) /\
    reward t = round2 (complexity t * 50).
Proof.
  intros Hrb. unfold generate_task.
  rewrite (bind_inr _ _ s _ s) by reflexivity.
  destruct (env_randbelow (length task_descriptions) (world s)) as [k w1] eqn:E1.
  assert (Hk : (k < length task_descriptions)%nat).
  { pose proof (Hrb (length task_descriptions) (world s)) as Hk.
    rewrite E1 in Hk. apply Hk. cbn. lia. }
  destruct (lookup_lt_is_Some_2 _ _ Hk) as [d Hd].
  rewrite (bind_inr _ _ s d (set_world w1 s))
    by (unfold random_choice; rewrite E1, Hd; reflexivity).
  destruct (env_random w1) as [q w2] eqn:E2.
  erewrite bind_inr; [|unfold random_uniform; cbn [world set_world]; rewrite E2; reflexivity].
  destruct (env_now w2) as [ts w3] eqn:E3.
  erewrite bind_inr.
  2:{ unfold Task_new. erewrite bind_inr; [reflexivity|].
      unfold now. cbn [world set_world]. rewrite E3. reflexivity. }
  eexists _, _. split; [reflexivity|]. cbn [heap ctl set_ctl set_world].
  split; [done|]. split; [done|]. cbn [task_id complexity reward].
  split; [done|]. split; [|done]. exists w1. by rewrite E2.
Qed.

Lemma generate_loop_spec idx acc s :
  randbelow_ok ->
  exists ts s', generate_loop idx acc s = (inr (acc ++ ts), s') /\
    length ts = length idx /\
    heap s' = heap s /\
    ctl s' = set_task_history (task_history (ctl s) ++ ts) (ctl s) /\
    Forall2 (fun i t =>
      task_id t = task_id_str (cycle_count (ctl s)) i /\
      (exists w, complexity t = round2 ((1#10) + (1 - (1#10)) * fst (env_random w))) /\
      reward t = round2 (complexity t * 50)) idx ts.
Proof.
  intros Hrb. revert acc s. induction idx as [|i idx IH]; intros acc s.
  - exists [], s. rewrite app_nil_r. split; [done|]. split; [done|].
    split; [done|]. split; [|constructor]. rewrite app_nil_r. by destruct s as [? ? [] ?].
  - destruct (generate_task_spec i s Hrb) as (t & s1 & Hrun & Hh & Hc & Hid & Hcx & Hrw).
    destruct (IH (acc ++ [t]) s1) as (ts & s' & Hrun' & Hlen & Hh' & Hc' & Hall).
    exists (t :: ts), s'. cbn [generate_loop].
    rewrite (bind_inr _ _ _ _ _ Hrun), Hrun', <- app_assoc. split; [done|].
    split; [cbn; lia|]. split; [congruence|]. split.
    + rewrite Hc', Hc. cbn [task_history set_task_history].
      rewrite set_task_history_twice, <- app_assoc. reflexivity.
    + constructor; [done|]. rewrite Hc in Hall. exact Hall.
Qed.

Lemma pretty_N_go_us_free x str : us_free str -> us_free (pretty_N_go x str).
Proof.
  revert str. induction (N.lt_wf_0 x) as [x _ IH]; intros str Hs.
  destruct (decide (x = 0%N)) as [->|Hx]; [by rewrite pretty_N_go_0|].
  rewrite pretty_N_go_step by lia. apply IH; [apply N.div_lt; lia|].
  split; [|done]. unfold pretty_N_char. by repeat case_match.
Qed.

Lemma pretty_nat_us_free (n : nat) : us_free (pretty n).
Proof.
  unfold pretty, pretty_nat, pretty, pretty_N. case_decide; [done|].
  by apply pretty_N_go_us_free.
Qed.

Lemma us_split (x1 x2 y1 y2 : string) :
  us_free x1 -> us_free x2 ->
  x1 +:+ String "_" y1 = x2 +:+ String "_" y2 -> x1 = x2 /\ y1 = y2.
Proof.
  revert x2. induction x1 as [|c1 x1 IH]; intros [|c2 x2] H1 H2 Heq; cbn in *.
  - by injection Heq.
  - injection Heq as <- _. tauto.
  - injection Heq as -> _. tauto.
  - injection Heq as -> Heq. destruct (IH x2) as [-> ->]; tauto.
Qed.

Lemma task_id_str_inj c i c' i' :
  task_id_str c i = task_id_str c' i' -> c = c' /\ i = i'.
Proof.
  unfold task_id_str. intros Heq.
  apply (inj (String.app "task_")) in Heq.
  apply us_split in Heq as [Hc Hi]; try apply pretty_nat_us_free.
  split; by apply (inj pretty).
Qed.

Lemma generate_task_hist i s :
  match generate_task i s with
  | (inl _, s') => hist_of s' = hist_of s
  | (inr t, s') =>
      task_history (ctl s') = task_history (ctl s) ++ [t] /\
      cycle_count (ctl s') = cycle_count (ctl s) /\
      task_id t = task_id_str (cycle_count (ctl s)) i
  end.
Proof.
  unfold generate_task. rewrite (bind_inr _ _ s _ s) by reflexivity.
  destruct (random_choice task_descriptions s) as [[e|d] s1] eqn:E1.
  - rewrite (bind_inl _ _ _ _ _ E1).
    pose proof (frames_random_choice hist_of (fun _ _ => eq_refl) task_descriptions s) as F.
    by rewrite E1 in F.
  - rewrite (bind_inr _ _ _ _ _ E1).
    pose proof (frames_random_choice hist_of (fun _ _ => eq_refl) task_descriptions s) as F.
    rewrite E1 in F. cbn [snd] in F. unfold hist_of in F. injection F as F1 F2.
    destruct (env_random (world s1)) as [q w2] eqn:E2.
    erewrite bind_inr; [|unfold random_uniform; rewrite E2; reflexivity].
    destruct (env_now w2) as [ts w3] eqn:E3.
    erewrite bind_inr.
    2:{ unfold Task_new. erewrite bind_inr; [reflexivity|].
        unfold now. cbn [world set_world]. rewrite E3. reflexivity. }
    erewrite bind_inr; [|reflexivity]. cbn. rewrite F1, F2. done.
Qed.

Lemma NoDup_take_nat (l : list nat) k : NoDup l -> NoDup (take k l).
Proof.
  intros Hl. rewrite <- (take_drop k l) in Hl. by apply NoDup_app in Hl as [? _].
Qed.

Lemma generate_loop_hist idx acc s :
  exists k ts,
    task_history (ctl (snd (generate_loop idx acc s))) = task_history (ctl s) ++ ts /\
    map task_id ts = map (task_id_str (cycle_count (ctl s))) (take k idx) /\
    cycle_count (ctl (snd (generate_loop idx acc s))) = cycle_count (ctl s).
Proof.
  revert acc s. induction idx as [|i idx IH]; intros acc s.
  - exists 0%nat, []. by rewrite app_nil_r.
  - cbn [generate_loop]. pose proof (generate_task_hist i s) as Hg.
    destruct (generate_task i s) as [[e|t] s1] eqn:Eg.
    + rewrite (bind_inl _ _ _ _ _ Eg). unfold hist_of in Hg. injection Hg as Hh Hc.
      exists 0%nat, []. rewrite app_nil_r. cbn [snd]. by rewrite Hh, Hc.
    + rewrite (bind_inr _ _ _ _ _ Eg). destruct Hg as (Hh & Hc & Hid).
      destruct (IH (acc ++ [t]) s1) as (k & ts & Hh' & Hids & Hc').
      exists (S k), (t :: ts). rewrite Hh', Hh, <- app_assoc, Hc', Hc.
      split; [done|]. split; [|done]. cbn. rewrite Hid, Hids, Hc. done.
Qed.

Lemma hist_frame_assign tasks : frames hist_of (assign tasks).
Proof.
  unfold assign. frames_tac.
  generalize 0%nat as idx, (@nil nat) as acc.
  induction tasks as [|t tasks IH]; intros idx acc; cbn [assign_loop]; frames_tac.
  unfold AgentAssignment_new, alloc. frames_tac. apply frames_modify. done.
Qed.

Lemma hist_frame_execute rs : frames hist_of (execute rs).
Proof.
  unfold execute. generalize (@nil nat) as acc.
  induction rs as [|r rs IH]; intros acc; cbn [execute_loop]; frames_tac.
  unfold execute_one, raise_for_status, response_json, update, store. frames_tac.
Qed.

Lemma hist_frame_evaluate rs : frames hist_of (evaluate rs).
Proof.
  unfold evaluate. frames_tac.
  induction rs as [|r rs IH]; cbn [count_successful]; frames_tac.
Qed.

Lemma hist_frame_update_economy rs : frames hist_of (update_economy rs).
Proof.
  unfold update_economy. frames_tac. apply frames_for_each. intros r.
  unfold update_economy_step. frames_tac.
Qed.

Lemma ids_ok_hist s s' : hist_of s' = hist_of s -> ids_ok s -> ids_ok s'.
Proof. unfold hist_of, ids_ok. intros [= -> ->]. done. Qed.

Lemma elem_of_map_iff {A B} (f : A -> B) (l : list A) y :
  y ∈ map f l <-> exists x, y = f x /\ x ∈ l.
Proof.
  induction l as [|x l IH]; cbn.
  - split; [by intros ?%elem_of_nil|]. intros (x & _ & ?%elem_of_nil). done.
  - rewrite elem_of_cons, IH. split.
    + intros [->|(x' & -> & Hx')]; [exists x; split; [done|left]|].
      exists x'. split; [done|by right].
    + intros (x' & -> & [->|Hx']%elem_of_cons); [by left|right; eauto].
Qed.

Lemma NoDup_map_task_id_str c (l : list nat) :
  NoDup l -> NoDup (map (task_id_str c) l).
Proof.
  induction 1 as [|i l Hi Hl IH]; cbn; constructor; [|done].
  intros (j & Hj & Hin)%elem_of_map_iff. apply task_id_str_inj in Hj as [_ ->]. done.
Qed.

Lemma ids_ok_run_cycle n s : ids_ok s -> ids_ok (snd (run_cycle n s)).
Proof.
  intros [Hnd Hold]. unfold run_cycle.
  rewrite (bind_inr _ _ s tt _) by reflexivity.
  set (s1 := set_ctl (set_cycle_count (S (cycle_count (ctl s))) (ctl s)) s).
  assert (Hs2 : ids_ok (snd (generate_tasks n s1))).
  { unfold generate_tasks.
    destruct (generate_loop_hist (seq 0 n) [] s1) as (k & ts & Hh & Hids & Hc).
    unfold ids_ok. rewrite Hh, Hc. unfold s1 in *.
    cbn [ctl set_ctl task_history cycle_count set_cycle_count] in *.
    rewrite map_app, Hids. split.
    - apply NoDup_app. split; [done|]. split.
      + intros x Hx Hx'.
        apply (proj1 (elem_of_map_iff _ _ _)) in Hx as (t & -> & Ht).
        apply (proj1 (elem_of_map_iff _ _ _)) in Hx' as (j & Hj & _).
        destruct (Hold t Ht) as (c & i & Hid & Hle). rewrite Hid in Hj.
        apply task_id_str_inj in Hj as [-> _]. lia.
      + apply NoDup_map_task_id_str, NoDup_take_nat, NoDup_seq.
    - intros t [Ht|Ht]%elem_of_app.
      + destruct (Hold t Ht) as (c & i & Hid & Hle). exists c, i. split; [done|lia].
      + assert (Hin : task_id t ∈ map (task_id_str (S (cycle_count (ctl s)))) (take k (seq 0 n))).
        { rewrite <- Hids. apply elem_of_map_iff. eauto. }
        apply (proj1 (elem_of_map_iff _ _ _)) in Hin as (i & Hi & _). eexists _, i. split; [exact Hi|lia]. }
  destruct (generate_tasks n s1) as [[e|tasks] s2] eqn:Eg.
  - by rewrite (bind_inl _ _ _ _ _ Eg).
  - rewrite (bind_inr _ _ _ _ _ Eg). eapply ids_ok_hist; [|exact Hs2].
    match goal with |- hist_of (snd (?m s2)) = _ => enough (F : frames hist_of m) by apply F end.
    apply frames_bind; [apply hist_frame_assign|intros rs].
    apply frames_bind; [apply hist_frame_execute|intros results].
    apply frames_bind; [apply hist_frame_evaluate|intros ev].
    apply frames_bind; [apply hist_frame_update_economy|intros _].
    frames_tac.
Qed.

Lemma reachable_ids_ok s : reachable s -> ids_ok s.
Proof.
  induction 1 as [s ags b Hnd|s n _ IH]; [|by apply ids_ok_run_cycle].
  unfold controller_init. rewrite (bind_inr _ _ s tt _) by reflexivity.
  eapply ids_ok_hist.
  - cbn [snd].
    match goal with |- hist_of (snd (?m ?s0)) = _ => enough (F : frames hist_of m) by apply F end.
    apply frames_for_each. intros a. frames_tac.
  - split; [constructor|]. intros t Ht%elem_of_nil. done.
Qed.

(** C8. With a random module that behaves as Python's ([_randbelow(n)] in
    [[0, n)], [random()] in [[0, 1)]), [generate_tasks n] returns exactly
    [n] tasks; the task at position [i] has the id [task_<c>_<i>] for the
    current cycle counter [c], a complexity [k/100] with [10 <= k <= 100]
    (a value of [[0.1, 1.0]] with two decimals) and the reward
    [round(complexity * 50, 2)].  In every state of a controller (built,
    then driven by any number of cycles, whatever the outcomes), the ids of
    all tasks ever generated are pairwise distinct. *)
Theorem generate_tasks_values n s :
  randbelow_ok -> random_ok ->
  (exists ts s', generate_tasks n s = (inr ts, s') /\ length ts = n /\
     forall i t, ts !! i = Some t ->
       task_id t = task_id_str (cycle_count (ctl s)) i /\
       (exists k, complexity t = Qmake k 100 /\ (10 <= k <= 100)%Z) /\
       reward t = round2 (complexity t * 50)) /\
  (forall s0, reachable s0 -> NoDup (map task_id (task_history (ctl s0)))).
Proof.
  intros Hrb Hr. split.
  - destruct (generate_loop_spec (seq 0 n) [] s Hrb) as (ts & s' & Hrun & Hlen & _ & _ & Hall).
    exists ts, s'. unfold generate_tasks. rewrite Hrun. split; [done|].
    rewrite length_seq in Hlen. split; [done|]. intros i t Ht.
    assert (Hi : seq 0 n !! i = Some i).
    { rewrite lookup_seq_lt; [done|]. rewrite <- Hlen. by eapply lookup_lt_Some. }
    destruct (Forall2_lookup_lr _ _ _ _ _ _ Hall Hi Ht) as (Hid & (w & Hcx) & Hrw).
    split; [done|]. split; [|done]. rewrite Hcx. apply round2_range.
    specialize (Hr w). lra.
  - intros s0 Hs0. by apply reachable_ids_ok.
Qed.

(** C6 (amended). With no agents, [assign] returns the empty list, as it
    does for an empty batch; the only trace of the condition is the line
    printed on the console.  A cycle then runs to its end (given Python's
    random module), with [total = 0], [successful = 0], [success_rate = 0],
    and the ledger (balances and transaction log) unchanged. *)
Theorem no_agents_cycle n s :
  map fst (agents (ctl s)) = [] ->
  (forall tasks, assign tasks s =
     (inr [], set_stdout (stdout s ++ ["No agents available for assignment"]) s)) /\
  (randbelow_ok ->
   exists summ s', run_cycle n s = (inr summ, s') /\
     total_tasks (evaluation summ) = 0%nat /\ successful (evaluation summ) = 0%nat /\
     success_rate (evaluation summ) == 0 /\ eco_of s' = eco_of s).
Proof.
  intros Hnil. split; [intros tasks; by apply assign_no_agents|]. intros Hrb.
  unfold run_cycle. rewrite (bind_inr _ _ s tt _) by reflexivity.
  set (s1 := set_ctl (set_cycle_count (S (cycle_count (ctl s))) (ctl s)) s).
  destruct (generate_loop_spec (seq 0 n) [] s1 Hrb) as (ts & s2 & Hrun & _ & _ & Hc & _).
  rewrite (bind_inr _ _ _ _ _ Hrun).
  assert (Hnil2 : map fst (agents (ctl s2)) = []) by (rewrite Hc; exact Hnil).
  rewrite (bind_inr _ _ _ _ _ (assign_no_agents _ _ Hnil2)).
  set (s3 := set_stdout (stdout s2 ++ ["No agents available for assignment"]) s2).
  rewrite (bind_inr _ _ s3 [] s3) by reflexivity.
  destruct (env_now (world s3)) as [ts1 w1] eqn:E1.
  erewrite bind_inr.
  2:{ unfold evaluate. rewrite (bind_inr _ _ _ 0%nat s3) by reflexivity.
      rewrite decide_False by (cbn; lia).
      rewrite (bind_inr _ _ _ 0 s3) by reflexivity.
      erewrite bind_inr; [reflexivity|]. unfold now. rewrite E1. reflexivity. }
  rewrite (bind_inr _ _ _ tt _) by reflexivity.
  rewrite (bind_inr _ _ _ _ _) by reflexivity.
  rewrite (bind_inr _ _ _ _ _) by reflexivity.
  destruct (env_now w1) as [ts2 w2] eqn:E2.
  erewrite bind_inr; [|unfold now; cbn [world set_world]; rewrite E2; reflexivity].
  eexists _, _. split; [reflexivity|]. cbn [evaluation total_tasks successful success_rate].
  split; [done|]. split; [done|]. split; [reflexivity|].
  unfold eco_of, s3. cbn [ctl set_world set_stdout]. rewrite Hc. reflexivity.
Qed.



(** *** Extras: the Economy methods *)

(** X1. Each [Economy] method returns normally (the balance lookup never
    raises [KeyError]); it only appends to the transaction log, and only
    entries for its own agent; afterwards the agent has a balance, read by
    [get_balance] as [b] after [initialize_agent(a, b)], as the previous
    balance (0 when there was none) plus [amount] after [add_reward] and
    minus [amount] after [deduct_penalty]; the balance of every other
    agent is unchanged, and so are the object store and the rest of the
    controller. *)
Theorem economy_op_local o s :
  let s' := snd (run_eco_op o s) in
  let a := eco_op_agent o in
  fst (run_eco_op o s) = inr tt /\
  heap s' = heap s /\ ctl s' = set_economy (eco_of s') (ctl s) /\
  (exists new, transaction_history (eco_of s') = transaction_history (eco_of s) ++ new /\
     Forall (fun t => tx_agent_id t = a) new) /\
  is_Some (agent_balances (eco_of s') !! a) /\
  get_balance (eco_of s') a =
    match o with
    | OpInit _ b => b
    | OpReward _ amt _ => get_balance (eco_of s) a + amt
    | OpPenalty _ amt _ => get_balance (eco_of s) a - amt
    end /\
  (forall x, x <> a -> agent_balances (eco_of s') !! x = agent_balances (eco_of s) !! x).
Proof.
  destruct o as [a b|a amt r|a amt r]; cbn [run_eco_op eco_op_agent].
  - destruct (initialize_agent_spec a b s) as (t & w' & ->).
    cbn [fst snd eco_of ctl heap set_economy economy agent_balances transaction_history].
    do 3 (split; [done|]). split; [eexists; split; [reflexivity|repeat constructor]|].
    unfold get_balance. cbn [agent_balances]. rewrite lookup_insert_eq.
    split; [eauto|]. split; [done|]. intros x Hx. by rewrite lookup_insert_ne.
  - destruct (add_reward_spec a amt r s) as (t1 & t2 & w' & ->).
    cbn [fst snd eco_of ctl heap set_economy economy agent_balances transaction_history].
    do 3 (split; [done|]).
    split; [eexists; split; [reflexivity|]|].
    { apply Forall_app. split; [apply implicit_init_agent|repeat constructor]. }
    cbn [agent_balances]. split; [rewrite lookup_insert_eq; eauto|].
    split; [unfold get_balance at 1; cbn [agent_balances]; by rewrite lookup_insert_eq|].
    intros x Hx. by rewrite lookup_insert_ne.
  - destruct (deduct_penalty_spec a amt r s) as (t1 & t2 & w' & ->).
    cbn [fst snd eco_of ctl heap set_economy economy agent_balances transaction_history].
    do 3 (split; [done|]).
    split; [eexists; split; [reflexivity|]|].
    { apply Forall_app. split; [apply implicit_init_agent|repeat constructor]. }
    cbn [agent_balances]. split; [rewrite lookup_insert_eq; eauto|].
    split; [unfold get_balance at 1; cbn [agent_balances]; by rewrite lookup_insert_eq|].
    intros x Hx. by rewrite lookup_insert_ne.
Qed.


Lemma init_loop_spec (l : list string) b s :
  exists s', for_each l (fun a => initialize_agent a b) s = (inr tt, s') /\
    heap s' = heap s /\ ctl s' = set_economy (eco_of s') (ctl s) /\
    (forall k, agent_balances (eco_of s') !! k =
               if decide (k ∈ l) then Some b else agent_balances (eco_of s) !! k) /\
    exists new, transaction_history (eco_of s') = transaction_history (eco_of s) ++ new /\
      map tx_view new = map (fun k => (TxInitialization, k, b, None)) l.
Proof.
  revert s. induction l as [|a l IH]; intros s.
  - exists s. split; [done|]. split; [done|]. split; [by destruct s as [? ? [? []] ?]|].
    split; [intros k; by rewrite decide_False by (intros ?%elem_of_nil; done)|].
    exists []. by rewrite app_nil_r.
  - cbn [for_each]. destruct (initialize_agent_spec a b s) as (t & w' & Hi).
    rewrite (bind_inr _ _ _ _ _ Hi).
    match goal with |- context [for_each l _ ?s1] =>
      destruct (IH s1) as (s' & Hrun & Hh & Hc & Hb & new & Hl & Hm) end.
    exists s'. split; [done|]. rewrite Hh, Hc. cbn [heap ctl eco_of set_economy economy] in *.
    split; [done|]. split; [by destruct s as [? ? [? []] ?]|]. split.
    + intros k. rewrite Hb. cbn [agent_balances].
      destruct (decide (k ∈ l)) as [Hk|Hk].
      * rewrite decide_True by (by right). done.
      * destruct (decide (k = a)) as [->|Hne].
        -- rewrite decide_True by left. apply lookup_insert_eq.
        -- rewrite decide_False by (intros [->|]%elem_of_cons; done).
           by rewrite lookup_insert_ne.
    + eexists (_ :: new). rewrite Hl. cbn [transaction_history].
      rewrite <- app_assoc. split; [reflexivity|]. cbn. by rewrite Hm.
Qed.

Lemma controller_init_spec ags b s :
  let s' := snd (controller_init ags b s) in
  fst (controller_init ags b s) = inr tt /\ heap s' = heap s /\
  agents (ctl s') = ags /\ task_history (ctl s') = [] /\
  assignment_history (ctl s') = [] /\ cycle_count (ctl s') = 0%nat /\
  (forall k, agent_balances (eco_of s') !! k =
             if decide (k ∈ map fst ags) then Some b else None) /\
  map tx_view (transaction_history (eco_of s')) =
    map (fun k => (TxInitialization, k, b, None)) (map fst ags).
Proof.
  unfold controller_init. rewrite (bind_inr _ _ s tt _) by reflexivity.
  match goal with |- context [for_each _ _ ?s1] => set (s0 := s1) end.
  destruct (init_loop_spec (map fst ags) b s0) as (s' & Hrun & Hh & Hc & Hb & new & Hl & Hm).
  rewrite Hrun. cbn [fst snd]. rewrite Hh, Hc. unfold s0.
  cbn [heap ctl set_ctl set_economy agents task_history assignment_history cycle_count].
  do 6 (split; [done|]). split.
  - intros k. rewrite Hb. unfold s0. cbn. by destruct (decide _).
  - rewrite Hl, <- Hm. unfold s0. reflexivity.
Qed.

(** X2. [AutonomousController(agents, initial_balance)] discards whatever
    the object held: it keeps the dict of agents, starts at cycle 0 with
    empty task and assignment histories and a fresh [Economy] in which
    exactly the agents of the dict have a balance, [initial_balance]; its
    log holds one initialization entry per agent, in the order of the
    dict, and nothing else. *)
Theorem controller_init_state ags b s :
  let s' := snd (controller_init ags b s) in
  fst (controller_init ags b s) = inr tt /\ heap s' = heap s /\
  agents (ctl s') = ags /\ task_history (ctl s') = [] /\
  assignment_history (ctl s') = [] /\ cycle_count (ctl s') = 0%nat /\
  (forall k, agent_balances (eco_of s') !! k =
             if decide (k ∈ map fst ags) then Some b else None) /\
  map tx_view (transaction_history (eco_of s')) =
    map (fun k => (TxInitialization, k, b, None)) (map fst ags).
Proof. exact (controller_init_spec ags b s). Qed.

(** *** Extras: update_economy over a batch *)

Lemma update_economy_step_spec r a s :
  heap s !! r = Some a ->
  exists s', update_economy_step r s = (inr tt, s') /\
    heap s' = heap s /\ ctl s' = set_economy (eco_of s') (ctl s) /\
    (forall x, get_balance (eco_of s') x == get_balance (eco_of s) x + balance_delta x a) /\
    (forall x, get_balance (eco_of s') x = balance_step x (get_balance (eco_of s) x) a) /\
    (forall x, is_Some (agent_balances (eco_of s') !! x) <->
               is_Some (agent_balances (eco_of s) !! x) \/ x = agent_id a) /\
    exists new, transaction_history (eco_of s') = transaction_history (eco_of s) ++ new /\
      Forall (fun t => tx_agent_id t = agent_id a) new /\
      length (filter (fun t => tx_type t <> TxInitialization) new) = 1%nat.
Proof.
  intros Ha. unfold update_economy_step.
  rewrite (bind_inr _ _ s a s) by (unfold load; by rewrite Ha). cbv zeta.
  assert (Hnew : forall e t1 t2 ty amt rs, ty <> TxInitialization ->
    Forall (fun t => tx_agent_id t = agent_id a)
      (implicit_init (agent_id a) e t1 ++ [mk_tx t2 ty (agent_id a) amt rs]) /\
    length (filter (fun t => tx_type t <> TxInitialization)
      (implicit_init (agent_id a) e t1 ++ [mk_tx t2 ty (agent_id a) amt rs])) = 1%nat).
  { intros e t1 t2 ty amt rs Hty. split.
    - apply Forall_app. split; [apply implicit_init_agent|repeat constructor].
    - unfold implicit_init. destruct (agent_balances e !! agent_id a); cbn [app];
        rewrite !filter_cons, ?filter_nil; cbn [tx_type mk_tx];
        repeat case_decide; cbn; congruence. }
  assert (Hdom : forall (m : gmap string Q) v x,
    is_Some (<[agent_id a := v]> m !! x) <-> is_Some (m !! x) \/ x = agent_id a).
  { intros m v x. destruct (decide (x = agent_id a)) as [->|Hne].
    - rewrite lookup_insert_eq. split; eauto.
    - rewrite lookup_insert_ne by congruence. split; [auto|intros [|]; done]. }
  destruct (success a) eqn:Es.
  - destruct (add_reward_spec (agent_id a) (reward (task a))
                ("completed_task_" +:+ task_id (task a)) s) as (t1 & t2 & w' & Hr).
    rewrite Hr. eexists. split; [reflexivity|].
    cbn [heap ctl eco_of set_economy economy agent_balances transaction_history].
    split; [done|]. split; [by destruct s as [? ? [? []] ?]|]. split; [|split; [|split]].
    + intros x. unfold balance_delta. rewrite Es.
      destruct (decide (x = agent_id a)) as [->|Hne].
      * unfold get_balance at 1. cbn [agent_balances]. rewrite lookup_insert_eq.
        rewrite bool_decide_eq_true_2 by done. reflexivity.
      * unfold get_balance at 1. cbn [agent_balances]. rewrite lookup_insert_ne by congruence.
        rewrite bool_decide_eq_false_2 by congruence. fold (get_balance (eco_of s) x).
        unfold eco_of. ring.
    + intros x. unfold balance_step. rewrite Es.
      destruct (decide (x = agent_id a)) as [->|Hne].
      * unfold get_balance at 1. cbn [agent_balances]. rewrite lookup_insert_eq.
        rewrite bool_decide_eq_true_2 by done. reflexivity.
      * unfold get_balance at 1. cbn [agent_balances]. rewrite lookup_insert_ne by congruence.
        rewrite bool_decide_eq_false_2 by congruence. reflexivity.
    + intros x. apply Hdom.
    + eexists. split; [reflexivity|]. by apply Hnew.
  - destruct (deduct_penalty_spec (agent_id a) (round2 (reward (task a) * (1#10)))
                ("failed_task_" +:+ task_id (task a)) s) as (t1 & t2 & w' & Hr).
    rewrite Hr. eexists. split; [reflexivity|].
    cbn [heap ctl eco_of set_economy economy agent_balances transaction_history].
    split; [done|]. split; [by destruct s as [? ? [? []] ?]|]. split; [|split; [|split]].
    + intros x. unfold balance_delta. rewrite Es.
      destruct (decide (x = agent_id a)) as [->|Hne].
      * unfold get_balance at 1. cbn [agent_balances]. rewrite lookup_insert_eq.
        rewrite bool_decide_eq_true_2 by done. unfold get_balance, eco_of. ring.
      * unfold get_balance at 1. cbn [agent_balances]. rewrite lookup_insert_ne by congruence.
        rewrite bool_decide_eq_false_2 by congruence. fold (get_balance (eco_of s) x).
        unfold eco_of. ring.
    + intros x. unfold balance_step. rewrite Es.
      destruct (decide (x = agent_id a)) as [->|Hne].
      * unfold get_balance at 1. cbn [agent_balances]. rewrite lookup_insert_eq.
        rewrite bool_decide_eq_true_2 by done. reflexivity.
      * unfold get_balance at 1. cbn [agent_balances]. rewrite lookup_insert_ne by congruence.
        rewrite bool_decide_eq_false_2 by congruence. reflexivity.
    + intros x. apply Hdom.
    + eexists. split; [reflexivity|]. by apply Hnew.
Qed.

Lemma update_economy_loop_spec rs s :
  Forall (fun r => is_Some (heap s !! r)) rs ->
  let objs := omap (fun r => heap s !! r) rs in
  exists s', for_each rs update_economy_step s = (inr tt, s') /\
    heap s' = heap s /\ ctl s' = set_economy (eco_of s') (ctl s) /\
    (forall x, get_balance (eco_of s') x == get_balance (eco_of s) x + batch_delta x objs) /\
    (forall x, get_balance (eco_of s') x = fold_left (balance_step x) objs (get_balance (eco_of s) x)) /\
    (forall x, is_Some (agent_balances (eco_of s') !! x) <->
               is_Some (agent_balances (eco_of s) !! x) \/ x ∈ map agent_id objs) /\
    exists new, transaction_history (eco_of s') = transaction_history (eco_of s) ++ new /\
      Forall (fun t => tx_agent_id t ∈ map agent_id objs) new /\
      length (filter (fun t => tx_type t <> TxInitialization) new) = length rs.
Proof.
  revert s. induction rs as [|r rs IH]; intros s Hv objs.
  - exists s. split; [done|]. split; [done|]. split; [by destruct s as [? ? [? []] ?]|].
    split; [intros x; cbn; ring|]. split; [done|].
    split; [intros x; cbn; split; [auto|intros [|?%elem_of_nil]; done]|].
    exists []. rewrite app_nil_r. repeat split; constructor.
  - apply Forall_cons in Hv as [[a Ha] Hv]. unfold objs. cbn [omap list_omap]. rewrite Ha.
    cbn [for_each].
    destruct (update_economy_step_spec r a s Ha)
      as (s1 & Hrun & Hh & Hc & Hb & Hb1 & Hd & new1 & Hl & Hf & Hn).
    rewrite (bind_inr _ _ _ _ _ Hrun).
    assert (Hv1 : Forall (fun r => is_Some (heap s1 !! r)) rs) by (by rewrite Hh).
    destruct (IH s1 Hv1) as (s' & Hrun' & Hh' & Hc' & Hb' & Hb1' & Hd' & new2 & Hl' & Hf' & Hn').
    rewrite Hh in Hb', Hb1', Hd', Hf'. fold (omap (fun r => heap s !! r) rs) in *.
    exists s'. split; [done|]. split; [congruence|].
    split; [rewrite Hc', Hc; by destruct s as [? ? [? []] ?]|]. split; [|split; [|split]].
    + intros x. rewrite Hb', Hb. cbn [batch_delta fold_right]. fold (batch_delta x (omap (fun r => heap s !! r) rs)). ring.
    + intros x. rewrite Hb1', Hb1. reflexivity.
    + intros x. rewrite Hd', Hd. cbn [map]. rewrite elem_of_cons. tauto.
    + exists (new1 ++ new2). rewrite Hl', Hl, <- app_assoc. split; [done|]. split.
      * apply Forall_app. split.
        -- eapply Forall_impl; [exact Hf|]. intros t ->. cbn. left.
        -- eapply Forall_impl; [exact Hf'|]. intros t Ht. cbn. by right.
      * rewrite filter_app, length_app, Hn, Hn'. reflexivity.
Qed.

Lemma update_economy_spec rs s :
  Forall (fun r => is_Some (heap s !! r)) rs ->
  let objs := omap (fun r => heap s !! r) rs in
  exists s', update_economy rs s = (inr tt, s') /\
    heap s' = heap s /\ ctl s' = set_economy (eco_of s') (ctl s) /\
    (forall x, get_balance (eco_of s') x == get_balance (eco_of s) x + batch_delta x objs) /\
    (forall x, get_balance (eco_of s') x = fold_left (balance_step x) objs (get_balance (eco_of s) x)) /\
    (forall x, is_Some (agent_balances (eco_of s') !! x) <->
               is_Some (agent_balances (eco_of s) !! x) \/ x ∈ map agent_id objs) /\
    exists new, transaction_history (eco_of s') = transaction_history (eco_of s) ++ new /\
      Forall (fun t => tx_agent_id t ∈ map agent_id objs) new /\
      length (filter (fun t => tx_type t <> TxInitialization) new) = length rs.
Proof.
  intros Hv objs.
  destruct (update_economy_loop_spec rs s Hv) as (s' & Hrun & Hrest).
  exists s'. unfold update_economy. rewrite (bind_inr _ _ _ _ _ Hrun).
  split; [reflexivity|]. exact Hrest.
Qed.

(** X3. [update_economy] on a batch of assignments (references into the
    heap) returns normally and changes nothing but the economy: the
    balance of every agent [x] is its balance before (0 for an agent
    without one) updated assignment after assignment in batch order, the
    task reward added for each succeeded assignment of [x] and
    [round(reward * 0.1, 2)] subtracted for each failed one (an assignment
    listed twice counts twice); the agents with a balance afterwards are
    those that had one and the agents of the batch; the log is only
    appended to, with exactly one reward or penalty entry per assignment of
    the batch, and every new entry is for an agent of the batch. *)
Theorem update_economy_batch rs s :
  Forall (fun r => is_Some (heap s !! r)) rs ->
  let objs := omap (fun r => heap s !! r) rs in
  exists s', update_economy rs s = (inr tt, s') /\
    heap s' = heap s /\ ctl s' = set_economy (eco_of s') (ctl s) /\
    (forall x, get_balance (eco_of s') x = fold_left (balance_step x) objs (get_balance (eco_of s) x)) /\
    (forall x, is_Some (agent_balances (eco_of s') !! x) <->
               is_Some (agent_balances (eco_of s) !! x) \/ x ∈ map agent_id objs) /\
    exists new, transaction_history (eco_of s') = transaction_history (eco_of s) ++ new /\
      Forall (fun t => tx_agent_id t ∈ map agent_id objs) new /\
      length (filter (fun t => tx_type t <> TxInitialization) new) = length rs.
Proof.
  intros Hv objs.
  destruct (update_economy_spec rs s Hv) as (s' & Hrun & Hh & Hc & _ & Hb & Hrest).
  exists s'. auto.
Qed.

(** *** Extras: execute *)

(** The fields of an assignment that dispatching never writes. *)
Lemma fixed_frame_execute_one r :
  frames (fun s => (map triple (heap s), map assigned_at (heap s))) (execute_one r).
Proof.
  intros s. destruct (heap s !! r) as [a|] eqn:Ha.
  - destruct (execute_one_spec r a s Ha)
      as (a' & s' & Hrun & Hh & _ & Hid & Hurl & Ht & Hat & _ & _).
    rewrite Hrun. cbn [snd]. rewrite Hh.
    assert (Hr : (r < length (heap s))%nat) by (eapply lookup_lt_Some; eauto).
    f_equal; apply list_eq; intros i; rewrite !map_lookup;
      (destruct (decide (i = r)) as [->|Hne];
       [rewrite list_lookup_insert_eq, Ha by done; cbn; unfold triple; congruence
       |by rewrite list_lookup_insert_ne by done]).
  - unfold execute_one. rewrite (bind_inl _ _ s IndexError s) by (unfold load; by rewrite Ha).
    reflexivity.
Qed.

Lemma fixed_frame_execute refs :
  frames (fun s => (map triple (heap s), map assigned_at (heap s))) (execute refs).
Proof.
  unfold execute. generalize (@nil nat) as acc.
  induction refs as [|r refs IH]; intros acc; cbn [execute_loop]; [apply frames_ret|].
  apply frames_bind; [apply fixed_frame_execute_one|intros _; apply IH].
Qed.

(** X4. [execute] on a batch of assignments (references into the heap)
    writes only the objects of the batch: every other object of the heap,
    such as the assignments of earlier cycles, is left as it was, no
    object is added or removed, and no object of the heap sees its
    [agent_id], [agent_url], [task] or [assigned_at] change; the
    controller (histories, economy, cycle counter) is untouched. *)
Theorem execute_frame refs s :
  Forall (fun r => is_Some (heap s !! r)) refs ->
  exists s', execute refs s = (inr refs, s') /\ ctl s' = ctl s /\
    length (heap s') = length (heap s) /\
    (forall r, r ∉ refs -> heap s' !! r = heap s !! r) /\
    map triple (heap s') = map triple (heap s) /\
    map assigned_at (heap s') = map assigned_at (heap s).
Proof.
  intros Hv. destruct (execute_loop_spec refs [] s Hv) as (s' & Hrun & Hlen & Hc & Hfr & _).
  exists s'. unfold execute. rewrite Hrun. do 4 (split; [done|]).
  pose proof (fixed_frame_execute refs s) as Hf. unfold execute in Hf.
  rewrite Hrun in Hf. cbn [snd] in Hf. by injection Hf.
Qed.

(** *** Extras: a whole cycle *)

Lemma assign_full tasks s :
  map fst (agents (ctl s)) <> [] ->
  exists objs s',
    assign tasks s = (inr (seq (length (heap s)) (length tasks)), s') /\
    heap s' = heap s ++ objs /\
    map triple objs = round_robin (agents (ctl s)) tasks /\
    Forall fresh_assignment objs /\
    ctl s' = set_assignment_history
               (assignment_history (ctl s) ++ seq (length (heap s)) (length tasks)) (ctl s).
Proof.
  intros Hne. unfold assign, mbind at 1, M_bind at 1, gets at 1.
  cbn -[assign_loop print decide]. rewrite decide_False by done.
  destruct (assign_loop_spec (agents (ctl s)) (map fst (agents (ctl s))) tasks 0 [] s)
    as (objs & s' & Hrun & Hh & Hm & Hf & Hc); [done|intros k; apply dict_get_elem|].
  unfold mbind, M_bind. rewrite Hrun. cbn.
  eexists objs, _. split; [reflexivity|]. cbn [heap ctl set_stdout].
  split; [done|]. split; [done|]. split; [done|]. exact Hc.
Qed.

Lemma length_triples_round_robin objs ags tasks :
  map triple objs = round_robin ags tasks -> length objs = length tasks.
Proof. intros Hm. by rewrite <- (length_map triple), Hm, round_robin_length. Qed.

Lemma execute_loop_fresh refs acc s :
  NoDup refs -> Forall (fun r => exists a, heap s !! r = Some a /\ fresh_assignment a) refs ->
  exists s', execute_loop refs acc s = (inr (acc ++ refs), s') /\
    forall r, r ∈ refs -> exists a, heap s' !! r = Some a /\
      (success a = true <-> is_Some (completed_at a)).
Proof.
  revert acc s. induction refs as [|r refs IH]; intros acc s Hnd Hv.
  - exists s. rewrite app_nil_r. split; [done|]. intros r Hr. by apply elem_of_nil in Hr.
  - apply NoDup_cons in Hnd as [Hnin Hnd]. apply Forall_cons in Hv as [(a & Ha & Hfr) Hv].
    destruct (execute_one_spec r a s Ha)
      as (a' & s1 & Hrun & Hh & _ & _ & _ & _ & _ & _ & Hout).
    assert (Hr : (r < length (heap s))%nat) by (eapply lookup_lt_Some; eauto).
    assert (Hv1 : Forall (fun r => exists a, heap s1 !! r = Some a /\ fresh_assignment a) refs).
    { apply Forall_forall. intros r' Hr'. eapply Forall_forall in Hv; [|exact Hr'].
      rewrite Hh, list_lookup_insert_ne; [done|]. intros ->. done. }
    assert (Hv1' : Forall (fun r => is_Some (heap s1 !! r)) refs).
    { eapply Forall_impl; [exact Hv1|]. intros r' (b & Hb & _). eauto. }
    destruct (IH (acc ++ [r]) s1 Hnd Hv1) as (s' & Hrun' & Hcons).
    destruct (execute_loop_spec refs (acc ++ [r]) s1 Hv1') as (s'' & Hrun'' & _ & _ & Hframe & _).
    rewrite Hrun' in Hrun''. injection Hrun'' as <-.
    exists s'. cbn [execute_loop]. rewrite (bind_inr _ _ _ _ _ Hrun), Hrun'.
    rewrite <- app_assoc. split; [done|].
    intros r' [->|Hin]%elem_of_cons; [|by apply Hcons].
    exists a'. rewrite Hframe, Hh by done. rewrite list_lookup_insert_eq by done.
    split; [done|]. destruct Hfr as (Hc & _ & _).
    destruct Hout as [(Hs & j & ts & _ & Hct)|(Hs & Hct & _)]; rewrite Hs, Hct.
    + split; eauto.
    + rewrite Hc. split; [done|]. intros [? [=]].
Qed.

Lemma evaluate_totals_spec refs s :
  Forall (fun r => is_Some (heap s !! r)) refs ->
  exists ev s', evaluate refs s = (inr ev, s') /\
    heap s' = heap s /\ ctl s' = ctl s /\
    total_tasks ev = length refs /\
    successful ev = length (filter (fun a => success a = true)
                              (omap (fun r => heap s !! r) refs)) /\
    (successful ev + failed ev = total_tasks ev)%nat /\
    (if decide (0 < total_tasks ev)%nat
     then success_rate ev = round2 (inject_Z (Z.of_nat (successful ev)) /
                                    inject_Z (Z.of_nat (total_tasks ev)) * 100)
     else success_rate ev == 0).
Proof.
  intros Hv.
  set (objs := omap (fun r => heap s !! r) refs).
  assert (Hle : (length (filter (fun a => success a = true) objs) <= length refs)%nat).
  { transitivity (length objs); [apply length_filter|].
    unfold objs. clear Hv objs. induction refs as [|r refs IH]; [done|].
    cbn [omap list_omap]. destruct (heap s !! r); cbn; lia. }
  unfold evaluate. rewrite (bind_inr _ _ s _ s) by (by apply count_successful_spec).
  fold objs.
  destruct (decide (0 < length refs)%nat) as [Hpos|Hz].
  - erewrite bind_inr.
    2:{ erewrite bind_inr; [reflexivity|]. unfold py_truediv.
        destruct (Qeq_bool _ 0) eqn:Eq; [|reflexivity].
        apply Qeq_bool_eq in Eq. change 0 with (inject_Z 0) in Eq.
        apply (proj1 (inject_Z_injective _ _)) in Eq. lia. }
    destruct (env_now (world s)) as [ts w'] eqn:En.
    erewrite bind_inr; [|unfold now; rewrite En; reflexivity].
    eexists _, _. split; [reflexivity|]. cbn.
    do 4 (split; [done|]). split; [lia|]. by rewrite decide_True by done.
  - rewrite (bind_inr _ _ s _ s) by reflexivity.
    destruct (env_now (world s)) as [ts w'] eqn:En.
    erewrite bind_inr; [|unfold now; rewrite En; reflexivity].
    eexists _, _. split; [reflexivity|]. cbn [heap ctl set_world total_tasks successful failed success_rate].
    do 4 (split; [done|]). split; [lia|]. rewrite decide_False by done.
    reflexivity.
Qed.

Lemma run_cycle_spec n s :
  randbelow_ok ->
  exists summ s' ts objs,
    run_cycle n s = (inr summ, s') /\ length ts = n /\
    heap s' = heap s ++ objs /\
    (if decide (map fst (agents (ctl s)) = []) then objs = []
     else map triple objs = round_robin (agents (ctl s)) ts) /\
    Forall dispatched objs /\
    Forall (fun a => success a = true <-> is_Some (completed_at a)) objs /\
    ctl s' = {| agents := agents (ctl s); economy := eco_of s';
                task_history := task_history (ctl s) ++ ts;
                assignment_history := assignment_history (ctl s)
                                        ++ seq (length (heap s)) (length objs);
                cycle_count := S (cycle_count (ctl s)) |} /\
    (forall x, get_balance (eco_of s') x == get_balance (eco_of s) x + batch_delta x objs) /\
    (forall x, is_Some (agent_balances (eco_of s') !! x) <->
               is_Some (agent_balances (eco_of s) !! x) \/ x ∈ map agent_id objs) /\
    (exists new, transaction_history (eco_of s') = transaction_history (eco_of s) ++ new /\
       Forall (fun t => tx_agent_id t ∈ map agent_id objs) new /\
       length (filter (fun t => tx_type t <> TxInitialization) new) = length objs) /\
    cycle summ = S (cycle_count (ctl s)) /\
    total_tasks (evaluation summ) = length objs /\
    successful (evaluation summ) = length (filter (fun a => success a = true) objs) /\
    balances summ = agent_balances (eco_of s').
Proof.
  intros Hrb. unfold run_cycle. rewrite (bind_inr _ _ s tt _) by reflexivity.
  set (s1 := set_ctl (set_cycle_count (S (cycle_count (ctl s))) (ctl s)) s).
  destruct (generate_loop_spec (seq 0 n) [] s1 Hrb) as (ts & s2 & Hrun & Hlen & Hh2 & Hc2 & _).
  rewrite length_seq in Hlen.
  rewrite (bind_inr _ _ _ _ _ Hrun).
  (* the assignments of the cycle, and the state after [assign] *)
  assert (Hassign : exists refs objs s3,
    assign ts s2 = (inr refs, s3) /\ refs = seq (length (heap s)) (length objs) /\
    heap s3 = heap s ++ objs /\
    (if decide (map fst (agents (ctl s)) = []) then objs = []
     else map triple objs = round_robin (agents (ctl s)) ts) /\
    Forall fresh_assignment objs /\
    ctl s3 = set_assignment_history (assignment_history (ctl s2) ++ refs) (ctl s2)).
  { assert (Hag : agents (ctl s2) = agents (ctl s)) by (rewrite Hc2; reflexivity).
    assert (Hhs : heap s2 = heap s) by (rewrite Hh2; reflexivity).
    destruct (decide (map fst (agents (ctl s)) = [])) as [Hnil|Hne].
    - exists [], [], (set_stdout (stdout s2 ++ ["No agents available for assignment"]) s2).
      split; [apply assign_no_agents; by rewrite Hag|]. split; [done|].
      split; [rewrite app_nil_r; exact Hhs|]. split; [done|]. split; [constructor|].
      rewrite app_nil_r. cbn [ctl set_stdout]. by destruct (ctl s2).
    - rewrite <- Hag in Hne.
      destruct (assign_full ts s2 Hne) as (objs & s3 & Hrun3 & Hh3 & Hm & Hfr & Hc3).
      exists (seq (length (heap s2)) (length ts)), objs, s3.
      rewrite Hag in Hm. rewrite (length_triples_round_robin _ _ _ Hm), Hhs.
      split; [by rewrite Hrun3, Hhs|]. split; [done|]. split; [by rewrite Hh3, Hhs|].
      split; [exact Hm|]. split; [exact Hfr|]. by rewrite Hc3, Hhs. }
  destruct Hassign as (refs & objs & s3 & Hrun3 & Hrefs & Hh3 & Hobjs & Hfr & Hc3).
  rewrite (bind_inr _ _ _ _ _ Hrun3).
  set (L := length (heap s)) in *.
  assert (Hv3 : Forall (fun r => is_Some (heap s3 !! r)) refs).
  { rewrite Hrefs, Hh3. apply Forall_forall. intros r Hr%elem_of_seq.
    apply lookup_lt_is_Some_2. rewrite length_app. unfold L in Hr. lia. }
  (* execute *)
  destruct (execute_loop_spec refs [] s3 Hv3) as (s4 & Hrun4 & Hlen4 & Hc4 & Hfr4 & Hdone4).
  assert (Hfix := fixed_frame_execute refs s3). unfold execute in Hfix.
  rewrite Hrun4 in Hfix. cbn [snd] in Hfix. injection Hfix as Htr4 _.
  set (objs' := drop L (heap s4)).
  assert (Hh4 : heap s4 = heap s ++ objs').
  { rewrite <- (take_drop L (heap s4)). f_equal. apply list_eq. intros i.
    destruct (decide (i < L)%nat) as [Hi|Hi].
    - rewrite lookup_take_lt by done. rewrite Hfr4.
      + rewrite Hh3. by apply lookup_app_l.
      + rewrite Hrefs. intros Hin%elem_of_seq. lia.
    - rewrite lookup_take_ge by lia. symmetry. apply lookup_ge_None. lia. }
  assert (Htr' : map triple objs' = map triple objs).
  { rewrite Hh4, Hh3, !map_app in Htr4. by apply app_inv_head in Htr4. }
  assert (Hlen' : length objs' = length objs).
  { rewrite <- (length_map triple objs'), Htr', length_map. reflexivity. }
  assert (Hrefs' : refs = seq L (length objs')) by (by rewrite Hlen').
  assert (Hdisp : Forall dispatched objs').
  { apply Forall_lookup. intros j a Hj. unfold objs' in Hj. rewrite lookup_drop in Hj.
    assert (Hjl : (j < length objs')%nat) by (unfold objs'; rewrite length_drop; apply lookup_lt_Some in Hj; lia).
    destruct (Hdone4 (L + j)%nat) as (a' & Ha' & Hd).
    { rewrite Hrefs'. apply elem_of_seq. lia. }
    rewrite Hj in Ha'. by injection Ha' as ->. }
  assert (Hcons : Forall (fun a => success a = true <-> is_Some (completed_at a)) objs').
  { assert (Hv3' : Forall (fun r => exists a, heap s3 !! r = Some a /\ fresh_assignment a) refs).
    { rewrite Hrefs, Hh3. apply Forall_forall. intros r Hr%elem_of_seq.
      destruct (lookup_lt_is_Some_2 objs (r - L)) as [a Ha]; [unfold L in Hr; lia|].
      exists a. split.
      - rewrite lookup_app_r by (unfold L in Hr; lia). exact Ha.
      - by eapply Forall_lookup_1. }
    destruct (execute_loop_fresh refs [] s3 ltac:(rewrite Hrefs; apply NoDup_seq) Hv3')
      as (s4' & Hrun4' & Hc4').
    rewrite Hrun4 in Hrun4'. injection Hrun4' as <-.
    apply Forall_lookup. intros j a Hj. unfold objs' in Hj. rewrite lookup_drop in Hj.
    assert (Hjl : (j < length objs')%nat) by (unfold objs'; rewrite length_drop; apply lookup_lt_Some in Hj; lia).
    destruct (Hc4' (L + j)%nat) as (a' & Ha' & Hd).
    { rewrite Hrefs'. apply elem_of_seq. lia. }
    rewrite Hj in Ha'. by injection Ha' as ->. }
  rewrite (bind_inr _ _ _ _ _ Hrun4).
  assert (Hv4 : Forall (fun r => is_Some (heap s4 !! r)) refs).
  { rewrite Hrefs', Hh4. apply Forall_forall. intros r Hr%elem_of_seq.
    apply lookup_lt_is_Some_2. rewrite length_app. unfold L in Hr. lia. }
  assert (Homap : omap (fun r => heap s4 !! r) refs = objs').
  { rewrite Hrefs', Hh4. apply omap_heap_seq. }
  (* evaluate *)
  destruct (evaluate_totals_spec refs s4 Hv4) as (ev & s5 & Hrun5 & Hh5 & Hc5 & Htot & Hsucc & _).
  rewrite (bind_inr _ _ _ _ _ Hrun5).
  (* update_economy *)
  assert (Hv5 : Forall (fun r => is_Some (heap s5 !! r)) refs) by (by rewrite Hh5).
  destruct (update_economy_spec refs s5 Hv5) as (s6 & Hrun6 & Hh6 & Hc6 & Hb6 & _ & Hd6 & Hl6).
  rewrite Hh5, Homap in Hb6, Hd6, Hl6.
  rewrite (bind_inr _ _ _ _ _ Hrun6).
  rewrite (bind_inr _ _ _ _ _) by reflexivity.
  rewrite (bind_inr _ _ _ _ _) by reflexivity.
  destruct (env_now (world s6)) as [ts7 w7] eqn:E7.
  erewrite bind_inr; [|unfold now; rewrite E7; reflexivity].
  (* the economy before [update_economy] is the initial one *)
  assert (He5 : eco_of s5 = eco_of s).
  { unfold eco_of. rewrite Hc5, Hc4, Hc3, Hc2. reflexivity. }
  rewrite He5 in Hb6, Hd6, Hl6.
  eexists _, _, ts, objs'. split; [reflexivity|]. split; [done|].
  cbn [heap ctl set_world]. split; [rewrite Hh6, Hh5; exact Hh4|].
  split.
  { destruct (decide _); [|by rewrite Htr'].
    apply nil_length_inv. rewrite Hlen'. by rewrite Hobjs. }
  split; [done|]. split; [done|].
  split.
  { rewrite Hc6, Hc5, Hc4, Hc3, Hc2, Hrefs'. unfold s1. cbn. by destruct (ctl s). }
  split; [exact Hb6|]. split; [exact Hd6|].
  split; [destruct Hl6 as (new & ? & ? & Hn); exists new; by rewrite Hn, Hlen', Hrefs', length_seq|].
  cbn [cycle evaluation balances]. split.
  { rewrite Hc6, Hc5, Hc4, Hc3, Hc2. unfold s1. reflexivity. }
  split; [by rewrite Htot, Hrefs', length_seq|].
  split; [by rewrite Hsucc, Homap|]. reflexivity.
Qed.

Lemma rr_props ags ts objs :
  map triple objs = round_robin ags ts -> map fst ags <> [] ->
  map task objs = ts /\ Forall (fun a => agent_id a ∈ map fst ags) objs.
Proof.
  intros Hm Hne. pose proof (length_triples_round_robin _ _ _ Hm) as Hlen.
  assert (Hl : forall i a, objs !! i = Some a ->
            exists t, ts !! i = Some t /\ triple a = rr_step ags (map fst ags) i t).
  { intros i a Ha. destruct (lookup_lt_is_Some_2 ts i) as [t Ht].
    { rewrite <- Hlen. by eapply lookup_lt_Some. }
    exists t. split; [done|]. apply (round_robin_lookup ags) in Ht.
    rewrite <- Hm, map_lookup, Ha in Ht.
    change (Some (triple a) = Some (rr_step ags (map fst ags) i t)) in Ht.
    by apply (inj Some) in Ht. }
  split.
  - apply list_eq. intros i. rewrite map_lookup.
    destruct (objs !! i) as [a|] eqn:Ha.
    + destruct (Hl i a Ha) as (t & Ht & Htr). rewrite Ht. cbn.
      unfold triple, rr_step in Htr. injection Htr as _ _ Ht'. by rewrite Ht'.
    + symmetry. apply lookup_ge_None. apply lookup_ge_None in Ha. lia.
  - apply Forall_lookup. intros i a Ha. destruct (Hl i a Ha) as (t & _ & Htr).
    unfold triple, rr_step in Htr. injection Htr as -> _ _.
    apply list_elem_of_lookup_2 with (i mod length (map fst ags))%nat.
    apply list_lookup_lookup_total_lt, Nat.mod_upper_bound.
    destruct (map fst ags); [done|]. cbn. lia.
Qed.

(** *** Extras: the states of a controller *)

Lemma map_heap_seq {B} (f : AgentAssignment -> B) (h objs : list AgentAssignment) :
  map (fun r => f <$> (h ++ objs) !! r) (seq (length h) (length objs)) = map (fun o => Some (f o)) objs.
Proof.
  revert h. induction objs as [|o objs IH]; intros h; [done|].
  simpl. rewrite list_lookup_middle by done. f_equal.
  replace (h ++ o :: objs) with ((h ++ [o]) ++ objs) by (by rewrite <- app_assoc).
  replace (S (length h)) with (length (h ++ [o])) by (rewrite length_app; cbn; lia).
  apply IH.
Qed.

Lemma map_lookup_old {B} (f : AgentAssignment -> B) (h objs : list AgentAssignment) (rs : list nat) (l : list B) :
  map (fun r => f <$> h !! r) rs = map Some l ->
  map (fun r => f <$> (h ++ objs) !! r) rs = map Some l.
Proof.
  revert l. induction rs as [|r rs IH]; intros l Hm; [done|].
  destruct l as [|x l]; [done|]. cbn in Hm |- *. injection Hm as Hx Hm.
  rewrite (IH l Hm). f_equal.
  destruct (h !! r) as [a|] eqn:Ha; [|done]. by rewrite (lookup_app_l_Some _ _ _ _ Ha).
Qed.

Lemma map_lookup_valid {B} (f : AgentAssignment -> B) (h : list AgentAssignment) (rs : list nat) (l : list B) :
  map (fun r => f <$> h !! r) rs = map Some l -> Forall (fun r => (r < length h)%nat) rs.
Proof.
  revert l. induction rs as [|r rs IH]; intros l Hm; [done|].
  destruct l as [|x l]; [done|]. cbn in Hm. injection Hm as Hx Hm. constructor; [|eauto].
  destruct (h !! r) as [a|] eqn:Ha; [|done]. by eapply lookup_lt_Some.
Qed.

Lemma tx_view_agents (log : list Transaction) (keys : list string) b :
  map tx_view log = map (fun k => (TxInitialization, k, b, @None string)) keys ->
  Forall (fun t => tx_agent_id t ∈ keys) log.
Proof.
  revert keys. induction log as [|t log IH]; intros keys Hm; [done|].
  destruct keys as [|k keys]; [done|]. cbn [map] in Hm.
  apply (inj2 cons) in Hm as [Ht Hm]. unfold tx_view in Ht.
  assert (Hk : tx_agent_id t = k) by congruence. constructor.
  - rewrite Hk. left.
  - eapply Forall_impl; [by apply IH|]. intros t' Ht'. by right.
Qed.

Lemma reachable_inv s :
  randbelow_ok -> reachable s ->
  eco_keys_ok (map fst (agents (ctl s))) (eco_of s) /\ hist_ok s.
Proof.
  intros Hrb. induction 1 as [s ags b Hnd|s n _ [[Hdom Hlog] [Hnd Hh]]].
  - destruct (controller_init_spec ags b s)
      as (_ & _ & Hag & Hth & Hah & _ & Hb & Hl).
    rewrite Hag. split; [split|].
    + intros k. rewrite Hb. destruct (decide _); split; try done; eauto.
    + by eapply tx_view_agents.
    + unfold hist_ok. rewrite Hah, Hth. split; [constructor|]. by destruct (decide _).
  - destruct (run_cycle_spec n s Hrb)
      as (summ & s' & ts & objs & Hrun & Hlen & Hh' & Hobjs & _ & _ & Hc & _ & Hd & Hl & _).
    rewrite Hrun. cbn [snd]. rewrite Hc. cbn [agents task_history assignment_history].
    set (keys := map fst (agents (ctl s))) in *.
    assert (Hin : forall x, x ∈ map agent_id objs -> x ∈ keys).
    { unfold keys. destruct (decide _) as [Hnil|Hne].
      - rewrite Hobjs. intros x ?%elem_of_nil. done.
      - destruct (rr_props _ _ _ Hobjs Hne) as [_ Hall].
        intros x (o & -> & Ho)%elem_of_map_iff. by eapply Forall_forall in Hall. }
    split; [split|].
    + intros k. rewrite Hd, Hdom. split; [intros [|]; auto|tauto].
    + destruct Hl as (new & Hl & Hf & _). rewrite Hl. apply Forall_app. split; [done|].
      eapply Forall_impl; [exact Hf|]. auto.
    + unfold hist_ok. rewrite Hc. cbn [agents task_history assignment_history].
      fold keys. rewrite Hh'. destruct (decide (keys = [])) as [Hnil|Hne].
      * rewrite Hobjs, Hh. cbn.
        split; [constructor|done].
      * assert (Hm : map (fun r => task <$> heap s !! r) (assignment_history (ctl s))
                     = map Some (task_history (ctl s))) by exact Hh.
        pose proof (map_lookup_valid _ _ _ _ Hm) as Hval.
        split.
        -- apply NoDup_app. split; [done|]. split; [|apply NoDup_seq].
           intros r Hr Hr'%elem_of_seq. eapply Forall_forall in Hval; [|exact Hr]. lia.
        -- rewrite !map_app, (map_lookup_old _ _ _ _ _ Hm), map_heap_seq. f_equal.
           destruct (rr_props _ _ _ Hobjs Hne) as [Ht _]. rewrite <- Ht, map_map.
           reflexivity.
Qed.

(** X5. In every state of a controller (built from a dict of agents, then
    driven by any number of cycles, with Python's random module), the
    agents with a balance are exactly the keys of the dict, every entry of
    the transaction log is for one of them, and each of them has exactly
    one initialization entry, the constructor's: [add_reward] and
    [deduct_penalty] never initialize an agent implicitly in a
    controller. *)
Theorem controller_balances_are_agents s :
  randbelow_ok -> reachable s ->
  let keys := map fst (agents (ctl s)) in
  (forall k, is_Some (agent_balances (eco_of s) !! k) <-> k ∈ keys) /\
  Forall (fun t => tx_agent_id t ∈ keys) (transaction_history (eco_of s)) /\
  (forall k, k ∈ keys -> length (tx_inits k (transaction_history (eco_of s))) = 1%nat).
Proof.
  intros Hrb Hr keys. destruct (reachable_inv s Hrb Hr) as [[Hdom Hlog] _].
  split; [done|]. split; [done|]. intros k Hk.
  pose proof (reachable_ledger_ok s Hr k) as Hok. cbv zeta in Hok.
  apply Hdom in Hk as [b Hb]. rewrite Hb in Hok. destruct Hok as (i & -> & _). done.
Qed.

(** X6. In every state of a controller (with Python's random module), the
    assignment history holds distinct objects; with no agents it is empty,
    and otherwise its [i]-th assignment is an object of the heap whose
    task is the [i]-th task of the task history (so both histories have
    the same length). *)
Theorem assignment_history_tasks s :
  randbelow_ok -> reachable s ->
  NoDup (assignment_history (ctl s)) /\
  (map fst (agents (ctl s)) = [] -> assignment_history (ctl s) = []) /\
  (map fst (agents (ctl s)) <> [] ->
     map (fun r => task <$> heap s !! r) (assignment_history (ctl s)) =
     map Some (task_history (ctl s))).
Proof.
  intros Hrb Hr. destruct (reachable_inv s Hrb Hr) as [_ [Hnd Hh]].
  split; [done|]. split; intros Hk; [by rewrite decide_True in Hh|by rewrite decide_False in Hh].
Qed.

Lemma reachable_resolved s :
  randbelow_ok -> reachable s ->
  forall r, r ∈ assignment_history (ctl s) -> exists a, heap s !! r = Some a /\
    dispatched a /\ (success a = true <-> is_Some (completed_at a)).
Proof.
  intros Hrb. induction 1 as [s ags b Hnd|s n _ IH].
  - destruct (controller_init_spec ags b s) as (_ & _ & _ & _ & Hah & _).
    rewrite Hah. intros r Hr. by apply elem_of_nil in Hr.
  - destruct (run_cycle_spec n s Hrb)
      as (summ & s' & ts & objs & Hrun & _ & Hh & _ & Hdisp & Hcons & Hc & _).
    rewrite Hrun. cbn [snd]. rewrite Hc. cbn [assignment_history].
    intros r [Hin|Hin]%elem_of_app.
    + destruct (IH r Hin) as (a & Ha & Hrest). exists a. split; [|done].
      rewrite Hh. by apply lookup_app_l_Some.
    + apply elem_of_seq in Hin.
      destruct (lookup_lt_is_Some_2 objs (r - length (heap s))) as [a Ha]; [lia|].
      exists a. split; [rewrite Hh, lookup_app_r by lia; exact Ha|].
      split; [by eapply Forall_lookup_1 in Hdisp|by eapply Forall_lookup_1 in Hcons].
Qed.

(** X7. In every state of a controller (with Python's random module), every
    assignment of the assignment history has been dispatched: it carries a
    result, an unsuccessful one records [{"error": m}], and it has a
    completion time exactly when it succeeded. *)
Theorem recorded_assignments_resolved s :
  randbelow_ok -> reachable s ->
  forall r, r ∈ assignment_history (ctl s) -> exists a, heap s !! r = Some a /\
    result a <> None /\
    (success a = false -> exists e, result a = Some (error_json (failure_msg e))) /\
    (success a = true <-> is_Some (completed_at a)).
Proof.
  intros Hrb Hr r Hin.
  destruct (reachable_resolved s Hrb Hr r Hin) as (a & Ha & [Hres Hfail] & Hc).
  exists a. done.
Qed.

(** *** Extras: get_statistics *)

Lemma rate_bounds (k m : nat) :
  (k <= m)%nat -> (0 < m)%nat ->
  0 <= inject_Z (Z.of_nat k) / inject_Z (Z.of_nat m) * 100 <= 100.
Proof.
  intros Hle Hpos.
  assert (Hm : 0 < inject_Z (Z.of_nat m)) by (change 0 with (inject_Z 0); rewrite <- Zlt_Qlt; lia).
  assert (Hk0 : 0 <= inject_Z (Z.of_nat k)) by (change 0 with (inject_Z 0); rewrite <- Zle_Qle; lia).
  assert (Hkm : inject_Z (Z.of_nat k) <= inject_Z (Z.of_nat m)) by (rewrite <- Zle_Qle; lia).
  assert (H0 : 0 <= inject_Z (Z.of_nat k) / inject_Z (Z.of_nat m)).
  { apply Qle_shift_div_l; [done|]. lra. }
  assert (H1 : inject_Z (Z.of_nat k) / inject_Z (Z.of_nat m) <= 1).
  { apply Qle_shift_div_r; [done|]. lra. }
  lra.
Qed.

(** X8. In every state of a controller (with Python's random module),
    [get_statistics] returns normally (no [IndexError], no
    [ZeroDivisionError]) and changes nothing but the clock: it reports
    the cycle counter, the number of tasks generated, as many assignments
    as tasks (none when there are no agents), at most that many
    successful ones, a success rate in [[0, 100]] that is 0 when there is
    no assignment, and the current balances. *)
Theorem get_statistics_counts s :
  randbelow_ok -> reachable s ->
  exists st s', get_statistics s = (inr st, s') /\ heap s' = heap s /\ ctl s' = ctl s /\
    cycles_completed st = cycle_count (ctl s) /\
    total_tasks_generated st = length (task_history (ctl s)) /\
    total_assignments st = (if decide (map fst (agents (ctl s)) = []) then 0%nat
                            else total_tasks_generated st) /\
    (successful_assignments st <= total_assignments st)%nat /\
    0 <= stats_success_rate st <= 100 /\
    (total_assignments st = 0%nat -> stats_success_rate st == 0) /\
    stats_agent_balances st = agent_balances (eco_of s).
Proof.
  intros Hrb Hr. destruct (reachable_inv s Hrb Hr) as [_ [Hnd Hh]].
  set (ah := assignment_history (ctl s)) in *.
  assert (Hlen : length ah = (if decide (map fst (agents (ctl s)) = []) then 0%nat
                              else length (task_history (ctl s))) /\
                 Forall (fun r => is_Some (heap s !! r)) ah).
  { destruct (decide _).
    - rewrite Hh. split; constructor.
    - split; [by rewrite <- (length_map (fun r => task <$> heap s !! r)), Hh, length_map|].
      apply Forall_forall. intros r Hrin. apply lookup_lt_is_Some_2.
      pose proof (map_lookup_valid _ _ _ _ Hh) as Hf. rewrite Forall_forall in Hf. by apply Hf. }
  destruct Hlen as [Hlen Hv].
  unfold get_statistics. rewrite (bind_inr _ _ s (ctl s) s) by reflexivity. cbv zeta.
  fold ah. rewrite (bind_inr _ _ s _ s) by (by apply count_successful_spec).
  set (k := length (filter _ _)).
  assert (Hk : (k <= length ah)%nat).
  { unfold k. transitivity (length (omap (fun r => heap s !! r) ah)); [apply length_filter|].
    clear Hv Hh Hnd Hlen k. induction ah as [|r rs IH]; [done|].
    cbn [omap list_omap]. destruct (heap s !! r); cbn; lia. }
  destruct (decide (0 < length ah)%nat) as [Hpos|Hz].
  - erewrite bind_inr.
    2:{ erewrite bind_inr; [reflexivity|]. unfold py_truediv.
        destruct (Qeq_bool _ 0) eqn:Eq; [|reflexivity].
        apply Qeq_bool_eq in Eq. change 0 with (inject_Z 0) in Eq.
        apply (proj1 (inject_Z_injective _ _)) in Eq. lia. }
    rewrite (bind_inr _ _ _ _ _) by reflexivity.
    destruct (env_now (world s)) as [ts w'] eqn:En.
    erewrite bind_inr; [|unfold now; rewrite En; reflexivity].
    eexists _, _. split; [reflexivity|]. cbn.
    do 4 (split; [done|]). split; [done|]. split; [done|].
    split; [by apply rate_bounds|]. split; [lia|done].
  - rewrite (bind_inr _ _ s _ s) by reflexivity.
    rewrite (bind_inr _ _ _ _ _) by reflexivity.
    destruct (env_now (world s)) as [ts w'] eqn:En.
    erewrite bind_inr; [|unfold now; rewrite En; reflexivity].
    eexists _, _. split; [reflexivity|]. cbn.
    do 4 (split; [done|]). split; [done|]. split; [lia|].
    split; [lra|]. split; [reflexivity|done].
Qed.

(** *** Extras: one cycle *)

(** X9. One cycle of [run_cycle] (with Python's random module) returns
    normally and keeps the books: the cycle counter goes up by one and is
    the summary's cycle number; the agents are unchanged; [num_tasks] new
    tasks are appended to the task history; one new assignment object per
    task (none when there are no agents) is appended to the object store,
    every one of them dispatched and carrying its task in order, and
    their references are appended to the assignment history; the
    summary's evaluation counts exactly these objects and its balances
    are the ledger's balances at the end of the cycle. *)
Theorem run_cycle_bookkeeping n s :
  randbelow_ok ->
  exists summ s' new ts,
    run_cycle n s = (inr summ, s') /\
    heap s' = heap s ++ new /\
    length new = (if decide (map fst (agents (ctl s)) = []) then 0%nat else n) /\
    Forall dispatched new /\
    agents (ctl s') = agents (ctl s) /\
    cycle_count (ctl s') = S (cycle_count (ctl s)) /\ cycle summ = cycle_count (ctl s') /\
    length ts = n /\ task_history (ctl s') = task_history (ctl s) ++ ts /\
    (map fst (agents (ctl s)) <> [] -> map task new = ts) /\
    assignment_history (ctl s') = assignment_history (ctl s) ++ seq (length (heap s)) (length new) /\
    total_tasks (evaluation summ) = length new /\
    successful (evaluation summ) = length (filter (fun a => success a = true) new) /\
    balances summ = agent_balances (eco_of s').
Proof.
  intros Hrb.
  destruct (run_cycle_spec n s Hrb)
    as (summ & s' & ts & objs & Hrun & Hlen & Hh & Hrr & Hd & _ & Hc & _ & _ & _ & Hcy & Ht & Hsu & Hb).
  exists summ, s', objs, ts. rewrite Hc. cbn.
  split; [done|]. split; [done|].
  split; [destruct (decide _); [by subst|by rewrite (length_triples_round_robin _ _ _ Hrr)]|].
  do 6 (split; [done|]). split.
  { intros Hne. rewrite decide_False in Hrr by done. by apply (rr_props _ _ _ Hrr). }
  done.
Qed.

(** *** Extras: several cycles *)

Section Waits.

Context `{Sleep W} (float_str : Q -> string) (iv : Q).

Lemma frames_print_waits msg :
  msg <> waiting_msg float_str iv -> frames (waits float_str iv) (print msg).
Proof.
  intros Hne s. unfold waits, print, modify. cbn.
  rewrite filter_app, length_app, filter_cons, decide_False, filter_nil by done. cbn. lia.
Qed.

Ltac waits_tac :=
  repeat (progress frames_tac ||
          (apply frames_print_waits; unfold waiting_msg; discriminate) ||
          (progress unfold sleep, Task_new, AgentAssignment_new, alloc, execute_one,
             raise_for_status, response_json, update, store, update_economy_step) ||
          (intros ?; reflexivity)).

Lemma waits_frame_generate n : frames (waits float_str iv) (generate_tasks n).
Proof.
  unfold generate_tasks. generalize (seq 0 n) as idx, (@nil Task) as acc.
  induction idx as [|i idx IH]; intros acc; cbn [generate_loop]; unfold generate_task; waits_tac.
Qed.

Lemma waits_frame_assign tasks : frames (waits float_str iv) (assign tasks).
Proof.
  unfold assign. waits_tac.
  generalize 0%nat as idx, (@nil nat) as acc.
  induction tasks as [|t tasks IH]; intros idx acc; cbn [assign_loop]; waits_tac.
Qed.

Lemma waits_frame_execute rs : frames (waits float_str iv) (execute rs).
Proof.
  unfold execute. generalize (@nil nat) as acc.
  induction rs as [|r rs IH]; intros acc; cbn [execute_loop]; waits_tac.
Qed.

Lemma waits_frame_evaluate rs : frames (waits float_str iv) (evaluate rs).
Proof.
  unfold evaluate. waits_tac.
  induction rs as [|r rs IH]; cbn [count_successful]; waits_tac.
Qed.

Lemma waits_frame_update_economy rs : frames (waits float_str iv) (update_economy rs).
Proof.
  unfold update_economy. waits_tac. apply frames_for_each. intros r. waits_tac.
Qed.

Lemma waits_frame_run_cycle n : frames (waits float_str iv) (run_cycle n).
Proof.
  unfold run_cycle.
  apply frames_bind; [apply frames_modify; intros ?; reflexivity|intros _].
  apply frames_bind; [apply waits_frame_generate|intros ts].
  apply frames_bind; [apply waits_frame_assign|intros rs].
  apply frames_bind; [apply waits_frame_execute|intros results].
  apply frames_bind; [apply waits_frame_evaluate|intros ev].
  apply frames_bind; [apply waits_frame_update_economy|intros _].
  waits_tac.
Qed.

Lemma run_cycles_loop_spec k n m j acc s :
  randbelow_ok -> (j + m = Z.to_nat k)%nat ->
  exists rs s', run_cycles_loop float_str k n iv (map Z.of_nat (seq j m)) acc s = (inr (acc ++ rs), s') /\
    length rs = m /\ map cycle rs = seq (S (cycle_count (ctl s))) m /\
    cycle_count (ctl s') = (cycle_count (ctl s) + m)%nat /\
    length (task_history (ctl s')) = (length (task_history (ctl s)) + m * n)%nat /\
    waits float_str iv s' = (waits float_str iv s + (m - 1))%nat.
Proof.
  intros Hrb. revert j acc s. induction m as [|m IH]; intros j acc s Hjm.
  - exists [], s. rewrite app_nil_r. cbn. repeat split; try done; lia.
  - cbn [seq map run_cycles_loop].
    destruct (run_cycle_spec n s Hrb)
      as (summ & s1 & ts & objs & Hrun & Hlen & _ & _ & _ & _ & Hc & _ & _ & _ & Hcy & _).
    pose proof (waits_frame_run_cycle n s) as Hw. rewrite Hrun in Hw. cbn in Hw.
    rewrite (bind_inr _ _ _ _ _ Hrun).
    destruct (decide (Z.of_nat j < k - 1)%Z) as [Hlt|Hge].
    + erewrite bind_inr; [|reflexivity].
      match goal with |- context [run_cycles_loop _ _ _ _ _ _ ?t] => set (s2 := t) end.
      destruct (IH (S j) (acc ++ [summ]) s2 ltac:(lia)) as (rs & s' & Hr & Hl & Hcs & Hcc & Hth & Hws).
      exists (summ :: rs), s'. rewrite Hr, <- app_assoc. split; [done|].
      assert (Hm : m <> 0%nat) by lia.
      unfold s2 in *. cbn [ctl set_world set_stdout] in Hcs, Hcc, Hth.
      rewrite Hc in Hcs, Hcc, Hth. cbn in Hcs, Hcc, Hth |- *.
      rewrite Hcs, Hcy. split; [by rewrite Hl|]. split; [done|]. split; [lia|].
      rewrite length_app, Hlen in Hth. split; [lia|].
      rewrite Hws. unfold waits in *. cbn. rewrite filter_app, length_app, filter_cons, decide_True, filter_nil by done.
      cbn. lia.
    + erewrite bind_inr; [|reflexivity].
      destruct (IH (S j) (acc ++ [summ]) s1 ltac:(lia)) as (rs & s' & Hr & Hl & Hcs & Hcc & Hth & Hws).
      exists (summ :: rs), s'. rewrite Hr, <- app_assoc. split; [done|].
      rewrite Hc in Hcs, Hcc, Hth. cbn in Hcs, Hcc, Hth |- *.
      rewrite Hcs, Hcy. split; [by rewrite Hl|]. split; [done|]. split; [lia|].
      rewrite length_app, Hlen in Hth. split; [lia|]. lia.
Qed.

(** X10. [run_multiple_cycles(num_cycles, num_tasks, interval)] (with
    Python's random module) returns normally with one summary per element
    of [range(num_cycles)] (none when [num_cycles <= 0]), numbered by
    consecutive cycle numbers following the controller's counter, which it
    advances by that many cycles; the task history grows by [num_tasks]
    per cycle; and it prints the waiting line [num_cycles - 1] times (not
    at all when [num_cycles <= 1]): one wait fewer than cycles, since none
    follows the last cycle. *)
Theorem run_multiple_cycles_counts k n s :
  randbelow_ok ->
  exists rs s', run_multiple_cycles float_str k n iv s = (inr rs, s') /\
    length rs = Z.to_nat k /\
    map cycle rs = seq (S (cycle_count (ctl s))) (Z.to_nat k) /\
    cycle_count (ctl s') = (cycle_count (ctl s) + Z.to_nat k)%nat /\
    length (task_history (ctl s')) = (length (task_history (ctl s)) + Z.to_nat k * n)%nat /\
    waits float_str iv s' = (waits float_str iv s + (Z.to_nat k - 1))%nat.
Proof.
  intros Hrb. unfold run_multiple_cycles.
  erewrite bind_inr; [|reflexivity].
  match goal with |- context [run_cycles_loop _ _ _ _ _ _ ?t] => set (s1 := t) end.
  assert (Hw : waits float_str iv s1 = waits float_str iv s).
  { refine (frames_print_waits _ _ s). unfold waiting_msg. discriminate. }
  unfold py_range.
  destruct (run_cycles_loop_spec k n (Z.to_nat k) 0 [] s1 Hrb ltac:(lia))
    as (rs & s' & Hr & Hl & Hcs & Hcc & Hth & Hws).
  exists rs, s'. rewrite Hr. split; [done|].
  rewrite <- Hw. exact (conj Hl (conj Hcs (conj Hcc (conj Hth Hws)))).
Qed.

End Waits.

(** *** Extras: the outcome of one HTTP dispatch *)

(** X11. When the POST to [<agent_url>/run_task] returns a response, the
    assignment object (and no other object, nor the controller) is
    updated by the response: a 4xx status records the [requests]
    "Client Error" message as a failure, a 5xx status the "Server Error"
    message; any other status with a JSON body records that body as the
    result, marks success and stamps [completed_at] with the clock after
    the request; a body that is not JSON records the decoding error
    message as a failure. *)
Theorem dispatch_response_outcome r a s resp w' :
  heap s !! r = Some a ->
  env_post (agent_url a +:+ "/run_task") (dispatch_body a) (world s) = (inr resp, w') ->
  exists s', execute_one r s = (inr tt, s') /\ ctl s' = ctl s /\
    heap s' = <[r := let c := status_code resp in
                     if decide (400 <= c < 500)%Z then
                       set_result (Some (error_json (pretty c +:+ " Client Error: " +:+ resp_reason resp
                                                     +:+ " for url: " +:+ resp_url resp)))
                                  (set_success false a)
                     else if decide (500 <= c < 600)%Z then
                       set_result (Some (error_json (pretty c +:+ " Server Error: " +:+ resp_reason resp
                                                     +:+ " for url: " +:+ resp_url resp)))
                                  (set_success false a)
                     else match resp_body resp with
                          | inl j => set_completed_at (Some (fst (env_now w')))
                                       (set_success true (set_result (Some j) a))
                          | inr m => set_result (Some (error_json m)) (set_success false a)
                          end]> (heap s).
Proof.
  intros Ha Ep. assert (Hr : (r < length (heap s))%nat) by (eapply lookup_lt_Some; eauto).
  assert (Hpost : requests_post (agent_url a +:+ "/run_task") (dispatch_body a) s
                  = (inr resp, set_world w' s)) by (unfold requests_post; by rewrite Ep).
  assert (Ha' : heap (set_world w' s) !! r = Some a) by done.
  unfold execute_one. rewrite (bind_inr _ _ s a s) by (unfold load; by rewrite Ha).
  fold (dispatch_body a). cbv zeta.
  destruct (decide (400 <= status_code resp < 500)%Z) as [H4|H4];
    [|destruct (decide (500 <= status_code resp < 600)%Z) as [H5|H5]].
  - erewrite try_inl.
    2:{ rewrite (bind_inr _ _ _ _ _ Hpost). apply bind_inl.
        unfold raise_for_status. rewrite decide_True by done. reflexivity. }
    cbv beta. rewrite execute_handler_eq, (execute_handler_spec r a) by done.
    eexists. split; [reflexivity|]. split; [done|]. reflexivity.
  - erewrite try_inl.
    2:{ rewrite (bind_inr _ _ _ _ _ Hpost). apply bind_inl.
        unfold raise_for_status. rewrite decide_False, decide_True by done. reflexivity. }
    cbv beta. rewrite execute_handler_eq, (execute_handler_spec r a) by done.
    eexists. split; [reflexivity|]. split; [done|]. reflexivity.
  - assert (Hrfs : raise_for_status resp (set_world w' s) = (inr tt, set_world w' s)).
    { unfold raise_for_status. by rewrite !decide_False. }
    destruct (resp_body resp) as [j|m] eqn:Eb.
    + assert (Hj : response_json resp (set_world w' s) = (inr j, set_world w' s))
        by (unfold response_json; by rewrite Eb).
      destruct (env_now w') as [ts w''] eqn:En.
      eexists. split.
      { erewrite try_inr; [reflexivity|].
        rewrite (bind_inr _ _ _ _ _ Hpost), (bind_inr _ _ _ _ _ Hrfs), (bind_inr _ _ _ _ _ Hj).
        erewrite bind_inr; [|apply update_spec; exact Ha'].
        erewrite bind_inr.
        2:{ apply update_spec. cbn [heap set_heap]. by apply list_lookup_insert_eq. }
        erewrite bind_inr.
        2:{ unfold now. cbn [world set_heap set_world]. rewrite En. reflexivity. }
        apply update_spec. cbn [heap set_heap set_world].
        apply list_lookup_insert_eq. by rewrite length_insert. }
      cbn [heap set_heap set_world ctl fst]. rewrite !list_insert_insert_eq. done.
    + erewrite try_inl.
      2:{ rewrite (bind_inr _ _ _ _ _ Hpost), (bind_inr _ _ _ _ _ Hrfs). apply bind_inl.
          unfold response_json. rewrite Eb. reflexivity. }
      cbv beta. rewrite execute_handler_eq, (execute_handler_spec r a) by done.
      eexists. split; [reflexivity|]. split; [done|]. reflexivity.
Qed.

(** *** Extras: the report entry of a dispatched assignment *)

(** X12. After its dispatch, a freshly created assignment serialises by
    [to_dict] with its agent, task id and assignment time unchanged, and
    either with a completion time and ["success": true], or with
    ["completed_at": null] and ["success": false]: the report never shows
    a completion time for a failed assignment nor a success without one. *)
Theorem to_dict_after_dispatch (isoformat : Timestamp -> string) r a s :
  heap s !! r = Some a -> completed_at a = None ->
  exists s' a', execute_one r s = (inr tt, s') /\ heap s' !! r = Some a' /\
    let head := [("agent_id", JStr (agent_id a)); ("task_id", JStr (task_id (task a)));
                 ("assigned_at", JStr (isoformat (assigned_at a)))] in
    ((exists ts, AgentAssignment_to_dict isoformat a' =
                 JObj (head ++ [("completed_at", JStr (isoformat ts)); ("success", JBool true)])) \/
     AgentAssignment_to_dict isoformat a' =
       JObj (head ++ [("completed_at", JNull); ("success", JBool false)])).
Proof.
  intros Ha Hc.
  destruct (execute_one_spec r a s Ha)
    as (a' & s' & Hrun & Hh & _ & Hid & _ & Ht & Hat & _ & Hout).
  exists s', a'. split; [done|]. split.
  { rewrite Hh. apply list_lookup_insert_eq. by eapply lookup_lt_Some. }
  cbv zeta. unfold AgentAssignment_to_dict. rewrite Hid, Ht, Hat.
  destruct Hout as [(Hs & j & ts & _ & Hct) | (Hs & Hct & _)].
  - left. exists ts. by rewrite Hs, Hct.
  - right. by rewrite Hs, Hct, Hc.
Qed.

(** *** Extras: the success rate of [evaluate] *)

Lemma round2_comp x y : x == y -> round2 x = round2 y.
Proof.
  intros E. unfold round2. cbv zeta.
  assert (Hf : Qfloor (x * 100) = Qfloor (y * 100)) by (apply Qfloor_comp; by rewrite E).
  rewrite Hf. set (n := Qfloor (y * 100)).
  assert (Hd : x * 100 - inject_Z n == y * 100 - inject_Z n) by (by rewrite E).
  assert (E1 : Qeq_bool (x * 100 - inject_Z n) (1#2) = Qeq_bool (y * 100 - inject_Z n) (1#2)).
  { apply eq_true_iff_eq. rewrite !Qeq_bool_iff, Hd. reflexivity. }
  assert (E2 : Qle_bool (x * 100 - inject_Z n) (1#2) = Qle_bool (y * 100 - inject_Z n) (1#2)).
  { apply eq_true_iff_eq. rewrite !Qle_bool_iff, Hd. reflexivity. }
  by rewrite E1, E2.
Qed.

Lemma round2_bounds x : 0 <= x <= 100 -> 0 <= round2 x <= 100.
Proof.
  intros [Hlo Hhi]. unfold round2.
  set (y := x * 100). set (n := Qfloor y).
  assert (Hy : 0 <= y <= 10000) by (unfold y; split; lra).
  assert (Hn1 : (0 <= n)%Z).
  { change 0%Z with (Qfloor 0). apply Qfloor_resp_le. lra. }
  assert (Hn2 : (n <= 10000)%Z).
  { change 10000%Z with (Qfloor 10000). apply Qfloor_resp_le. lra. }
  assert (Hfl : inject_Z n <= y) by apply Qfloor_le.
  assert (Hlt : forall d, y - inject_Z n == d -> 0 < d -> (n < 10000)%Z).
  { intros d Hd Hpos. rewrite Zlt_Qlt. change (inject_Z 10000) with (10000#1). lra. }
  assert (Hq : forall k, (0 <= k <= 10000)%Z -> 0 <= Qmake k 100 <= 100).
  { intros k Hk. split; unfold Qle; cbn; lia. }
  destruct (Qeq_bool _ _) eqn:E1; [destruct (Z.even n)|destruct (Qle_bool _ _) eqn:E2];
    apply Hq; try lia.
  - apply Qeq_bool_eq in E1. assert (n < 10000)%Z by (apply (Hlt _ E1); reflexivity). lia.
  - assert (E3 : ~ (y - inject_Z n <= 1#2)) by (intros Hle%Qle_bool_iff; congruence).
    assert (Hpos : 0 < y - inject_Z n) by lra.
    specialize (Hlt _ (Qeq_refl _) Hpos). lia.
Qed.

(** X13. For a batch of existing objects, [evaluate] returns normally with
    at most as many successes as tasks and the rest counted as failures;
    its success rate lies in [[0, 100]], is 0 when nothing succeeded
    (also for an empty batch) and 100 when everything did. *)
Theorem evaluate_rate_bounds refs s :
  Forall (fun r => is_Some (heap s !! r)) refs ->
  exists ev s', evaluate refs s = (inr ev, s') /\
    (successful ev <= total_tasks ev)%nat /\ failed ev = (total_tasks ev - successful ev)%nat /\
    0 <= success_rate ev <= 100 /\
    (successful ev = 0%nat -> success_rate ev == 0) /\
    ((0 < total_tasks ev)%nat -> successful ev = total_tasks ev -> success_rate ev == 100).
Proof.
  intros Hv.
  set (objs := omap (fun r => heap s !! r) refs).
  assert (Hle : (length (filter (fun a => success a = true) objs) <= length refs)%nat).
  { transitivity (length objs); [apply length_filter|].
    unfold objs. clear Hv objs. induction refs as [|r refs IH]; [done|].
    cbn [omap list_omap]. destruct (heap s !! r); cbn; lia. }
  unfold evaluate. rewrite (bind_inr _ _ s _ s) by (by apply count_successful_spec).
  fold objs. set (k := length (filter _ objs)) in *.
  destruct (decide (0 < length refs)%nat) as [Hpos|Hz].
  - erewrite bind_inr.
    2:{ erewrite bind_inr; [reflexivity|]. unfold py_truediv.
        destruct (Qeq_bool _ 0) eqn:Eq; [|reflexivity].
        apply Qeq_bool_eq in Eq. change 0 with (inject_Z 0) in Eq.
        apply (proj1 (inject_Z_injective _ _)) in Eq. lia. }
    destruct (env_now (world s)) as [ts w'] eqn:En.
    erewrite bind_inr; [|unfold now; rewrite En; reflexivity].
    eexists _, _. split; [reflexivity|]. cbn [total_tasks successful failed success_rate].
    split; [done|]. split; [done|]. split; [by apply round2_bounds, rate_bounds|].
    assert (Hm : 0 < inject_Z (Z.of_nat (length refs)))
      by (change 0 with (inject_Z 0); rewrite <- Zlt_Qlt; lia).
    split.
    + intros Hk0. rewrite Hk0, (round2_comp _ 0); [reflexivity|].
      change (inject_Z (Z.of_nat 0)) with 0. field. lra.
    + intros _ Hk. rewrite Hk, (round2_comp _ 100); [reflexivity|]. field. lra.
  - rewrite (bind_inr _ _ s _ s) by reflexivity.
    destruct (env_now (world s)) as [ts w'] eqn:En.
    erewrite bind_inr; [|unfold now; rewrite En; reflexivity].
    eexists _, _. split; [reflexivity|]. cbn [total_tasks successful failed success_rate].
    assert (k = 0%nat) by lia.
    split; [lia|]. split; [done|]. split; [split; vm_compute; discriminate|].
    split; [intros _; reflexivity|lia].
Qed.

(** *** Extras: rewards and penalties of generated tasks *)

Lemma round2_exact m x : x == Qmake m 100 -> round2 x = Qmake m 100.
Proof.
  intros E. rewrite (round2_comp x (Qmake m 100) E). unfold round2. cbv zeta.
  assert (Hf : Qfloor (Qmake m 100 * 100) = m).
  { rewrite (Qfloor_comp _ (inject_Z m)) by (unfold Qeq; cbn; lia). apply Qfloor_Z. }
  rewrite Hf.
  assert (Hd : Qmake m 100 * 100 - inject_Z m == 0) by (unfold Qeq; cbn; lia).
  destruct (Qeq_bool _ (1#2)) eqn:E1.
  { apply Qeq_bool_iff in E1. rewrite Hd in E1. discriminate. }
  destruct (Qle_bool _ (1#2)) eqn:E2; [reflexivity|].
  exfalso. assert (Hle : Qmake m 100 * 100 - inject_Z m <= 1#2) by (rewrite Hd; discriminate).
  apply Qle_bool_iff in Hle. congruence.
Qed.

(** X14. With Python's random module, every task [generate_tasks] makes has
    a reward between 5 and 50, and the penalty [update_economy] charges
    for its failure, [round(reward * 0.1, 2)], is exactly a tenth of the
    reward (between 0.5 and 5): the rounding never changes it. *)
Theorem generated_penalty_exact n s :
  randbelow_ok -> random_ok ->
  exists ts s', generate_tasks n s = (inr ts, s') /\ length ts = n /\
    Forall (fun t => 5 <= reward t <= 50 /\ round2 (reward t * (1#10)) == reward t / 10) ts.
Proof.
  intros Hrb Hr. destruct (generate_loop_spec (seq 0 n) [] s Hrb) as (ts & s' & Hrun & Hlen & _ & _ & Hall).
  exists ts, s'. unfold generate_tasks. rewrite Hrun. split; [done|].
  rewrite length_seq in Hlen. split; [done|].
  apply Forall_forall. intros t Ht.
  apply list_elem_of_lookup_1 in Ht as [i Ht].
  assert (Hi : seq 0 n !! i = Some i).
  { rewrite lookup_seq_lt; [done|]. rewrite <- Hlen. by eapply lookup_lt_Some. }
  destruct (Forall2_lookup_lr _ _ _ _ _ _ Hall Hi Ht) as (_ & (w & Hcx) & Hrw).
  destruct (round2_range ((1#10) + (1 - (1#10)) * fst (env_random w))) as (k & Hk & Hkb).
  { specialize (Hr w). lra. }
  rewrite Hk in Hcx. rewrite Hcx in Hrw.
  rewrite (round2_exact (50 * k)) in Hrw by (unfold Qeq; cbn; lia).
  rewrite Hrw, (round2_exact (5 * k)) by (unfold Qeq; cbn; lia).
  split; [split; unfold Qle; cbn; lia|]. unfold Qeq; cbn; lia.
Qed.

(** *** The dispatcher's frame *)

Lemma execute_one_other r r' a s :
  r' <> r -> heap s !! r = Some a -> heap (snd (execute_one r' s)) !! r = Some a.
Proof.
  intros Hne Ha. destruct (heap s !! r') as [a0|] eqn:E0.
  - destruct (execute_one_spec r' a0 s E0) as (a' & s' & Hrun & Hh & _).
    rewrite Hrun. cbn [snd]. rewrite Hh, list_lookup_insert_ne by congruence. done.
  - unfold execute_one. erewrite bind_inl; [done|]. unfold load. by rewrite E0.
Qed.

Lemma run_cycle_keeps r a s n :
  randbelow_ok -> heap s !! r = Some a -> heap (snd (run_cycle n s)) !! r = Some a.
Proof.
  intros Hrb Ha.
  destruct (run_cycle_spec n s Hrb) as (summ & s' & ts & objs & Hrun & _ & Hh & _).
  rewrite Hrun. cbn [snd]. rewrite Hh, lookup_app_l; [done|]. by eapply lookup_lt_Some.
Qed.

(** C7 (amended). Dispatching the assignment at [r] changes nothing but
    that object: the rest of the heap and the controller are kept; the
    object gets a result and a success flag, and a completion timestamp
    only when the dispatch succeeds (a failed dispatch leaves
    [completed_at] as it was, unset for a fresh assignment), while
    [agent_id], [agent_url], [task] and [assigned_at] are kept.  Once
    stored, an assignment is not modified by the dispatch of any other
    assignment, by [evaluate], by [update_economy], nor (given Python's
    [_randbelow]) by any later cycle. *)
Theorem dispatcher_mutation_frame r a s :
  heap s !! r = Some a ->
  (exists a' s', execute_one r s = (inr tt, s') /\
     heap s' = <[r := a']> (heap s) /\ ctl s' = ctl s /\
     agent_id a' = agent_id a /\ agent_url a' = agent_url a /\
     task a' = task a /\ assigned_at a' = assigned_at a /\
     result a' <> None /\
     (success a' = true -> completed_at a' <> None) /\
     (success a' = false -> completed_at a' = completed_at a)) /\
  (forall r', r' <> r -> heap (snd (execute_one r' s)) !! r = Some a) /\
  (forall rs, heap (snd (evaluate rs s)) = heap s) /\
  (forall rs, heap (snd (update_economy rs s)) = heap s) /\
  (randbelow_ok -> forall n, heap (snd (run_cycle n s)) !! r = Some a).
Proof.
  intros Ha. split; [|split; [|split; [|split]]].
  - destruct (execute_one_spec r a s Ha)
      as (a' & s' & Hrun & Hh & Hc & Hid & Hurl & Ht & Hat & _ & Hout).
    exists a', s'. do 7 (split; [done|]).
    destruct Hout as [(Hs & j & ts & Hres & Hcp)|(Hs & Hcp & e & Hres)].
    + rewrite Hres, Hcp. split; [done|]. split; [done|]. congruence.
    + rewrite Hres. split; [done|]. split; [congruence|done].
  - intros r' Hne. by apply execute_one_other.
  - intros rs. apply heap_frame_evaluate.
  - intros rs. apply heap_frame_update_economy.
  - intros Hrb n. by apply run_cycle_keeps.
Qed.

End Proofs.

(** ** Concrete runs *)

(** C1 (counterexample). Re-initializing an agent that already has a
    balance resets the balance but keeps the earlier entries in the log:
    after [initialize_agent("A", 100)], [add_reward("A", 5)],
    [initialize_agent("A", 100)] the balance is 100 while every recorded
    initialization amount plus the rewards gives 105. *)
Lemma ledger_invariant_reinit_counterexample :
  ~ ledger_claim (eco_of (snd (test_run
      (run_eco_ops [OpInit "A" 100; OpReward "A" 5 "bonus"; OpInit "A" 100]) []))).
Proof.
  intros Hc.
  destruct (Hc "A" 100) as (i & Hin & Heq); [reflexivity|].
  revert Hin Heq. vm_compute.
  intros Hin. repeat (apply elem_of_cons in Hin as [->|Hin]); [..|by apply elem_of_nil in Hin];
    discriminate.
Qed.

Lemma TestWorld_randbelow_ok : randbelow_ok (W := TestWorld).
Proof. intros n w Hn. cbn. apply Nat.mod_upper_bound. lia. Qed.

Lemma TestWorld_random_ok : random_ok (W := TestWorld).
Proof.
  intros w. cbn. pose proof (Nat.mod_upper_bound (tw_tick w) 97 ltac:(lia)).
  unfold Qle, Qlt. cbn. lia.
Qed.

(** C6 (counterexample). With no agents, [assign] on a batch of one task
    returns the same value, the empty list, as a controller with agents
    returns for an empty batch: the caller is given no signal. *)
Lemma no_agents_signal_counterexample :
  fst (test_run (assign (take 1 sample_tasks)) []) = inr [] /\
  fst (ctrl_run (assign []) []) = inr [] /\
  take 1 sample_tasks <> [].
Proof. vm_compute. split; [reflexivity|]. split; [reflexivity|]. discriminate. Qed.

(** C7 (counterexample). A dispatch that times out sets [result] and
    [success] but leaves [completed_at] unset. *)
Lemma completed_at_unset_counterexample :
  match heap dispatched_state !! 1%nat with
  | Some a => success a = false /\ result a = Some (error_json "timeout") /\
              completed_at a = None
  | None => False
  end.
Proof. vm_compute. repeat split. Qed.

(** Witnesses: each theorem applied to a concrete controller. *)

Lemma implicit_initialization_logged_witness :
  agent_balances (eco_of (test_sys [])) !! "AgentA" = None /\
  fst (add_reward "AgentA" 5 "bonus" (test_sys [])) = inr tt.
Proof.
  split; [reflexivity|].
  exact (proj1 (proj1 (implicit_initialization_logged "AgentA" 5 "bonus" (test_sys []) eq_refl))).
Defined.

Lemma update_economy_step_policy_witness :
  exists a, heap dispatched_state !! 0%nat = Some a /\
            fst (update_economy_step 0%nat dispatched_state) = inr tt.
Proof.
  destruct (heap dispatched_state !! 0%nat) as [a|] eqn:E; [|vm_compute in E; discriminate].
  exists a. split; [reflexivity|].
  exact (proj1 (update_economy_step_policy 0%nat a dispatched_state E)).
Defined.

Lemma ledger_invariant_witness :
  eco_of (test_sys []) = Economy_new /\
  inits_fresh [] [OpInit "A" 100; OpPenalty "A" (13#20) "late"; OpPenalty "A" (6#5) "late";
                  OpReward "B" 5 "bonus"] /\
  ledger_seq (eco_of (snd (run_eco_ops
    [OpInit "A" 100; OpPenalty "A" (13#20) "late"; OpPenalty "A" (6#5) "late";
     OpReward "B" 5 "bonus"] (test_sys [])))) /\
  ledger_replay (eco_of (snd (run_eco_ops
    [OpInit "A" 100; OpReward "A" 5 "bonus"; OpInit "A" 100] (test_sys [])))).
Proof.
  assert (Hf : inits_fresh [] [OpInit "A" 100; OpPenalty "A" (13#20) "late";
                               OpPenalty "A" (6#5) "late"; OpReward "B" 5 "bonus"]).
  { cbn. split; [apply not_elem_of_nil|done]. }
  split; [reflexivity|]. split; [exact Hf|]. split.
  - exact (proj2 (proj1 (ledger_invariant (test_sys [])) eq_refl _) Hf).
  - exact (proj1 (proj1 (ledger_invariant (test_sys [])) eq_refl _)).
Defined.

Lemma assign_round_robin_witness :
  map fst (agents (ctl built)) <> [] /\ NoDup (map fst (agents (ctl built))) /\
  exists refs, fst (assign sample_tasks built) = inr refs.
Proof.
  assert (Hne : map fst (agents (ctl built)) <> []) by (vm_compute; discriminate).
  assert (Hnd : NoDup (map fst (agents (ctl built)))).
  { vm_compute. constructor; [|constructor; [apply not_elem_of_nil|constructor]].
    intros [Heq|Hin]%elem_of_cons; [discriminate|by apply elem_of_nil in Hin]. }
  split; [exact Hne|]. split; [exact Hnd|].
  destruct (assign_round_robin sample_tasks built Hne Hnd) as (refs & Hrefs & _).
  exists refs. exact Hrefs.
Defined.

Lemma assign_deterministic_witness :
  map fst (agents (ctl built)) = map fst (agents (ctl assigned)) /\
  exists refs1 refs2, fst (assign sample_tasks built) = inr refs1 /\
                      fst (assign sample_tasks assigned) = inr refs2.
Proof.
  split; [reflexivity|].
  destruct (assign_deterministic sample_tasks built assigned eq_refl)
    as (refs1 & refs2 & H1 & H2 & _).
  exists refs1, refs2. split; [exact H1|exact H2].
Defined.

Lemma execute_isolation_classification_witness :
  Forall (fun r => is_Some (heap assigned !! r)) [0; 1]%nat /\
  exists s', execute [0; 1]%nat assigned = (inr [0; 1]%nat, s').
Proof.
  assert (Hv : Forall (fun r => is_Some (heap assigned !! r)) [0; 1]%nat).
  { vm_compute. repeat constructor; eexists; reflexivity. }
  split; [exact Hv|].
  destruct (proj1 (execute_isolation_classification [0; 1]%nat assigned Hv)) as (s' & Hrun & _).
  exists s'. exact Hrun.
Defined.

Lemma evaluate_totals_witness :
  Forall (fun r => is_Some (heap dispatched_state !! r)) [0; 1]%nat /\
  exists ev s', evaluate [0; 1]%nat dispatched_state = (inr ev, s') /\ total_tasks ev = 2%nat.
Proof.
  assert (Hv : Forall (fun r => is_Some (heap dispatched_state !! r)) [0; 1]%nat).
  { vm_compute. repeat constructor; eexists; reflexivity. }
  split; [exact Hv|].
  destruct (evaluate_totals [0; 1]%nat dispatched_state Hv) as (ev & s' & Hrun & _ & _ & Ht & _).
  exists ev, s'. split; [exact Hrun|exact Ht].
Defined.

Lemma no_agents_cycle_witness :
  map fst (agents (ctl (test_sys []))) = [] /\ randbelow_ok (W := TestWorld) /\
  exists summ s', run_cycle 3 (test_sys []) = (inr summ, s') /\
                  total_tasks (evaluation summ) = 0%nat.
Proof.
  split; [reflexivity|]. split; [exact TestWorld_randbelow_ok|].
  destruct (proj2 (no_agents_cycle 3 (test_sys []) eq_refl) TestWorld_randbelow_ok)
    as (summ & s' & Hrun & Ht & _).
  exists summ, s'. split; [exact Hrun|exact Ht].
Defined.

Lemma dispatcher_mutation_frame_witness :
  exists a, heap assigned !! 0%nat = Some a /\
    (exists a' s', execute_one 0%nat assigned = (inr tt, s') /\ task a' = task a) /\
    heap (snd (run_cycle 2 assigned)) !! 0%nat = Some a.
Proof.
  destruct (heap assigned !! 0%nat) as [a|] eqn:E; [|vm_compute in E; discriminate].
  exists a. split; [reflexivity|].
  destruct (dispatcher_mutation_frame 0%nat a assigned E)
    as [(a' & s' & Hrun & _ & _ & _ & _ & Ht & _) (_ & _ & _ & Hcyc)].
  split; [exists a', s'; split; [exact Hrun|exact Ht]|].
  exact (Hcyc TestWorld_randbelow_ok 2%nat).
Defined.

Lemma generate_tasks_values_witness :
  randbelow_ok (W := TestWorld) /\ random_ok (W := TestWorld) /\
  exists ts s', generate_tasks 3 built = (inr ts, s') /\ length ts = 3%nat.
Proof.
  split; [exact TestWorld_randbelow_ok|]. split; [exact TestWorld_random_ok|].
  destruct (proj1 (generate_tasks_values 3 built TestWorld_randbelow_ok TestWorld_random_ok))
    as (ts & s' & Hrun & Hlen & _).
  exists ts, s'. split; [exact Hrun|exact Hlen].
Defined.

Lemma update_economy_batch_witness :
  Forall (fun r => is_Some (heap dispatched_state !! r)) [0; 1]%nat /\
  exists s', update_economy [0; 1]%nat dispatched_state = (inr tt, s').
Proof.
  assert (Hv : Forall (fun r => is_Some (heap dispatched_state !! r)) [0; 1]%nat).
  { vm_compute. repeat constructor; eexists; reflexivity. }
  split; [exact Hv|].
  destruct (update_economy_batch [0; 1]%nat dispatched_state Hv) as (s' & Hrun & _).
  exists s'. exact Hrun.
Defined.

Lemma execute_frame_witness :
  Forall (fun r => is_Some (heap assigned !! r)) [0; 1]%nat /\
  exists s', execute [0; 1]%nat assigned = (inr [0; 1]%nat, s') /\
             map triple (heap s') = map triple (heap assigned).
Proof.
  assert (Hv : Forall (fun r => is_Some (heap assigned !! r)) [0; 1]%nat).
  { vm_compute. repeat constructor; eexists; reflexivity. }
  split; [exact Hv|].
  destruct (execute_frame [0; 1]%nat assigned Hv) as (s' & Hrun & _ & _ & _ & Ht & _).
  exists s'. split; [exact Hrun|exact Ht].
Defined.

Lemma cycled_reachable : reachable cycled.
Proof.
  apply reachable_cycle, reachable_init. vm_compute.
  constructor; [|constructor; [apply not_elem_of_nil|constructor]].
  intros [Heq|Hin]%elem_of_cons; [discriminate|by apply elem_of_nil in Hin].
Qed.

Lemma controller_balances_are_agents_witness :
  randbelow_ok (W := TestWorld) /\ reachable cycled /\
  Forall (fun t => tx_agent_id t ∈ map fst (agents (ctl cycled))) (transaction_history (eco_of cycled)).
Proof.
  split; [exact TestWorld_randbelow_ok|]. split; [exact cycled_reachable|].
  exact (proj1 (proj2 (controller_balances_are_agents cycled TestWorld_randbelow_ok cycled_reachable))).
Defined.

Lemma assignment_history_tasks_witness :
  randbelow_ok (W := TestWorld) /\ reachable cycled /\ NoDup (assignment_history (ctl cycled)).
Proof.
  split; [exact TestWorld_randbelow_ok|]. split; [exact cycled_reachable|].
  exact (proj1 (assignment_history_tasks cycled TestWorld_randbelow_ok cycled_reachable)).
Defined.

Lemma recorded_assignments_resolved_witness :
  randbelow_ok (W := TestWorld) /\ reachable cycled /\ 0%nat ∈ assignment_history (ctl cycled) /\
  exists a, heap cycled !! 0%nat = Some a /\ result a <> None.
Proof.
  assert (Hin : 0%nat ∈ assignment_history (ctl cycled)) by (vm_compute; constructor).
  split; [exact TestWorld_randbelow_ok|]. split; [exact cycled_reachable|]. split; [exact Hin|].
  destruct (recorded_assignments_resolved cycled TestWorld_randbelow_ok cycled_reachable 0%nat Hin)
    as (a & Ha & Hres & _).
  exists a. split; [exact Ha|exact Hres].
Defined.

Lemma get_statistics_counts_witness :
  randbelow_ok (W := TestWorld) /\ reachable cycled /\
  exists st s', get_statistics cycled = (inr st, s') /\ 0 <= stats_success_rate st <= 100.
Proof.
  split; [exact TestWorld_randbelow_ok|]. split; [exact cycled_reachable|].
  destruct (get_statistics_counts cycled TestWorld_randbelow_ok cycled_reachable)
    as (st & s' & Hrun & _ & _ & _ & _ & _ & _ & Hr & _).
  exists st, s'. split; [exact Hrun|exact Hr].
Defined.

Lemma run_cycle_bookkeeping_witness :
  randbelow_ok (W := TestWorld) /\
  exists summ s', run_cycle 2 cycled = (inr summ, s') /\ cycle summ = 2%nat.
Proof.
  split; [exact TestWorld_randbelow_ok|].
  destruct (run_cycle_bookkeeping 2 cycled TestWorld_randbelow_ok)
    as (summ & s' & new & ts & Hrun & _ & _ & _ & _ & Hcc & Hcy & _).
  exists summ, s'. split; [exact Hrun|]. rewrite Hcy, Hcc. reflexivity.
Defined.

Lemma run_multiple_cycles_counts_witness :
  randbelow_ok (W := TestWorld) /\
  exists rs s', run_multiple_cycles (fun _ => "2.0") 3 1 2 built = (inr rs, s') /\
    waits (fun _ => "2.0") 2 s' = 2%nat.
Proof.
  split; [exact TestWorld_randbelow_ok|].
  destruct (run_multiple_cycles_counts (fun _ => "2.0") 2 3 1 built TestWorld_randbelow_ok)
    as (rs & s' & Hrun & _ & _ & _ & _ & Hw).
  exists rs, s'. split; [exact Hrun|]. rewrite Hw. reflexivity.
Defined.

Lemma dispatch_response_outcome_witness :
  exists a resp w', heap assigned_404 !! 0%nat = Some a /\
    env_post (agent_url a +:+ "/run_task") (dispatch_body a) (world assigned_404) = (inr resp, w') /\
    exists s', execute_one 0%nat assigned_404 = (inr tt, s').
Proof.
  destruct (heap assigned_404 !! 0%nat) as [a|] eqn:E; [|vm_compute in E; discriminate].
  destruct (env_post (agent_url a +:+ "/run_task") (dispatch_body a) (world assigned_404))
    as [[e|resp] w'] eqn:Ep.
  { exfalso. revert E Ep. vm_compute. intros E. injection E as <-. intros Ep.
    vm_compute in Ep. discriminate. }
  exists a, resp, w'. split; [reflexivity|]. split; [exact Ep|].
  destruct (dispatch_response_outcome 0%nat a assigned_404 resp w' E Ep) as (s' & Hrun & _).
  exists s'. exact Hrun.
Defined.

Lemma to_dict_after_dispatch_witness :
  exists a, heap assigned !! 0%nat = Some a /\ completed_at a = None /\
    exists s' a', execute_one 0%nat assigned = (inr tt, s') /\ heap s' !! 0%nat = Some a'.
Proof.
  destruct (heap assigned !! 0%nat) as [a|] eqn:E; [|vm_compute in E; discriminate].
  assert (Hc : completed_at a = None).
  { revert E. vm_compute. intros E. injection E as <-. reflexivity. }
  exists a. split; [reflexivity|]. split; [exact Hc|].
  destruct (to_dict_after_dispatch (fun t => pretty t) 0%nat a assigned E Hc)
    as (s' & a' & Hrun & Ha' & _).
  exists s', a'. split; [exact Hrun|exact Ha'].
Defined.

Lemma evaluate_rate_bounds_witness :
  Forall (fun r => is_Some (heap dispatched_state !! r)) [0; 1]%nat /\
  exists ev s', evaluate [0; 1]%nat dispatched_state = (inr ev, s') /\ 0 <= success_rate ev <= 100.
Proof.
  assert (Hv : Forall (fun r => is_Some (heap dispatched_state !! r)) [0; 1]%nat).
  { vm_compute. repeat constructor; eexists; reflexivity. }
  split; [exact Hv|].
  destruct (evaluate_rate_bounds [0; 1]%nat dispatched_state Hv) as (ev & s' & Hrun & _ & _ & Hb & _).
  exists ev, s'. split; [exact Hrun|exact Hb].
Defined.

Lemma generated_penalty_exact_witness :
  randbelow_ok (W := TestWorld) /\ random_ok (W := TestWorld) /\
  exists ts s', generate_tasks 3 built = (inr ts, s') /\ length ts = 3%nat.
Proof.
  split; [exact TestWorld_randbelow_ok|]. split; [exact TestWorld_random_ok|].
  destruct (generated_penalty_exact 3 built TestWorld_randbelow_ok TestWorld_random_ok)
    as (ts & s' & Hrun & Hlen & _).
  exists ts, s'. split; [exact Hrun|exact Hlen].
Defined.
